(** * talib.abstract: the abstract invocation layer of the TA-Lib wrapper

    A shallow embedding of [talib/abstract.pyx]: the flag decoder
    [__get_flags], the slot-name normalisation of the metadata queries, and
    the [Function] facade with its output cache, together with the
    properties of the specification that were checked against them; and
    then the documentation of a function and the tables of group and
    function names, with further properties the code shows.

    Python values are an inductive type [pyval]; a dict keyed by strings is
    a [gmap string pyval], an [OrderedDict] is an association list kept in
    insertion order.  Exceptions are explicit: a computation that may raise
    returns a [result], and a method of the facade is a function from the
    world (the facade, the log of kernel calls, the native parameter
    holders) to a [result] and the world it leaves behind, so that the state
    an exception leaves is visible. *)

From stdpp Require Import gmap strings list fin_maps sorting pretty.
From Stdlib Require Import ZArith QArith Ascii String Lia.

#[local] Set Warnings "-register-all,-clear-no-such-hyp".
#[local] Open Scope string_scope.
#[local] Open Scope Z_scope.
#[local] Open Scope list_scope.

(** ** Python values and exceptions *)

(** A numpy array; this layer never looks inside one, except for the truth
    value numpy gives it. *)
Record ndarray := NdArray { nd_data : list Q }.

Inductive pyval :=
| PNone
| PInt (z : Z)
| PFloat (q : Q)
| PStr (s : string)
| PArr (a : ndarray)
| PList (l : list pyval)
| PDict (d : gmap string pyval).

Inductive exn :=
| KeyError (k : pyval)
| IndexError
| TypeError
| ValueError
| OverflowError
| Exception (msg : string)
| NativeCallError (function_name : string) (ret_code : Z).

Inductive result (A : Type) :=
| Ok (a : A)
| Raise (e : exn).
Arguments Ok {A} a.
Arguments Raise {A} e.

#[global] Instance result_ret : MRet result := λ A a, Ok a.
#[global] Instance result_bind : MBind result := λ A B f m,
  match m with Ok a => f a | Raise e => Raise e end.

Fixpoint mapR {A B} (f : A → result B) (l : list A) : result (list B) :=
  match l with
  | [] => Ok []
  | x :: l' => y ← f x; ys ← mapR f l'; Ok (y :: ys)
  end.

(** [bool(v)]: the truth value Python gives [v] in [if v] and [if not v].
    An array of more than one element has none and raises. *)
Definition truthy (v : pyval) : result bool :=
  match v with
  | PNone => Ok false
  | PInt z => Ok (negb (z =? 0))
  | PFloat q => Ok (negb (Qeq_bool q 0))
  | PStr s => Ok (negb (s =? "")%string)
  | PArr a =>
      match nd_data a with
      | [] => Ok false
      | [x] => Ok (negb (Qeq_bool x 0))
      | _ => Raise ValueError
      end
  | PList l => Ok (negb (bool_decide (l = [])))
  | PDict d => Ok (negb (bool_decide (d = ∅)))
  end.

Definition is_none (v : pyval) : bool :=
  match v with PNone => true | _ => false end.

(** [d[k]] on a dict keyed by strings: a key that is not there raises
    [KeyError], a key that cannot be hashed raises [TypeError]. *)
Definition dict_getitem (d : gmap string pyval) (k : pyval) : result pyval :=
  match k with
  | PStr s => match d !! s with Some v => Ok v | None => Raise (KeyError k) end
  | PArr _ | PList _ | PDict _ => Raise TypeError
  | _ => Raise (KeyError k)
  end.

(** [v[i]] on a sequence. *)
Definition py_index (v : pyval) (i : nat) : result pyval :=
  match v with
  | PList l => match l !! i with Some x => Ok x | None => Raise IndexError end
  | _ => Raise TypeError
  end.

(** Conversion of a Python object to a C [int] argument, as Cython does it
    at the call of a [cdef] function with an [int] parameter: through
    [__int__], so a float is truncated, and with a range check. *)
Definition to_c_int (v : pyval) : result Z :=
  let fit (z : Z) : result Z :=
    if (- 2 ^ 31 <=? z) && (z <? 2 ^ 31) then Ok z else Raise OverflowError in
  match v with
  | PInt z => fit z
  | PFloat q => fit (Z.quot (Qnum q) (Z.pos (Qden q)))
  | _ => Raise TypeError
  end.

(** ** Python strings *)

Module PyStr.

Definition lower_ascii (c : ascii) : ascii :=
  let n := nat_of_ascii c in
  if ((65 <=? n) && (n <=? 90))%nat then ascii_of_nat (n + 32) else c.

Definition upper_ascii (c : ascii) : ascii :=
  let n := nat_of_ascii c in
  if ((97 <=? n) && (n <=? 122))%nat then ascii_of_nat (n - 32) else c.

(** [s.lower()] and [s.upper()] *)
Fixpoint lower (s : string) : string :=
  match s with
  | EmptyString => EmptyString
  | String c s' => String (lower_ascii c) (lower s')
  end.

Fixpoint upper (s : string) : string :=
  match s with
  | EmptyString => EmptyString
  | String c s' => String (upper_ascii c) (upper s')
  end.

(** [s[n:]] *)
Fixpoint slice_from (n : nat) (s : string) : string :=
  match n, s with
  | O, _ => s
  | S n', String _ s' => slice_from n' s'
  | S _, EmptyString => EmptyString
  end.

(** [sub in s] *)
Fixpoint contains (sub s : string) : bool :=
  String.prefix sub s ||
  match s with
  | EmptyString => false
  | String _ s' => contains sub s'
  end.

(** [s.replace(old, new)] for a non-empty [old]: the occurrences of [old]
    are replaced from the left, without overlap.  [skip] counts the
    characters of an occurrence already replaced that are still to be
    passed over. *)
Fixpoint replace_from (old new : string) (skip : nat) (s : string) : string :=
  match s with
  | EmptyString => EmptyString
  | String c s' =>
      match skip with
      | S k => replace_from old new k s'
      | O =>
          if String.prefix old s
          then (new ++ replace_from old new (String.length old - 1) s')%string
          else String c (replace_from old new 0 s')
      end
  end.

Definition replace (old new s : string) : string := replace_from old new 0 s.

(** [sorted(l)] on strings, and the order it sorts by. *)
Definition le (s1 s2 : string) : Prop := Is_true (String.leb s1 s2).
Definition sorted (l : list string) : list string := merge_sort le l.

End PyStr.

(** ** The flag decoder *)

(** [__get_flags(flag, flags_lookup_dict)].  The loop runs over
    [xrange(len(flags_lookup_dict))] and reads [flags_lookup_dict[2**i]] at
    every bit [i] of [flag] that is set; the read raises [KeyError] when
    [2**i] is not a key. *)
Fixpoint get_flags_loop (flag : Z) (flags_lookup_dict : gmap Z string)
    (bits : list nat) (ret : list string) : result (list string) :=
  match bits with
  | [] => Ok ret
  | i :: bits' =>
      if negb (Z.land (2 ^ Z.of_nat i) flag =? 0)
      then
        match flags_lookup_dict !! (2 ^ Z.of_nat i) with
        | Some label => get_flags_loop flag flags_lookup_dict bits' (ret ++ [label])
        | None => Raise (KeyError (PInt (2 ^ Z.of_nat i)))
        end
      else get_flags_loop flag flags_lookup_dict bits' ret
  end.

Definition __get_flags (flag : Z) (flags_lookup_dict : gmap Z string)
  : result (option (list string)) :=
  if (flag <? 1) || (flag >? 2 ^ Z.of_nat (size flags_lookup_dict) - 1)
  then Ok None
  else
    ret ← get_flags_loop flag flags_lookup_dict (seq 0 (size flags_lookup_dict)) [];
    Ok (Some ret).

(** The lookup tables of the three metadata queries. *)
Definition ta_func_flags : gmap Z string :=
  list_to_map
    [ (16777216, "Output scale same as input");
      (67108864, "Output is over volume");
      (134217728, "Function has an unstable period");
      (268435456, "Output is a candlestick") ].

Definition ta_input_flags : gmap Z string :=
  list_to_map
    [ (1, "open"); (2, "high"); (4, "low"); (8, "close"); (16, "volumne");
      (32, "openInterest"); (64, "timeStamp") ].

Definition ta_output_flags : gmap Z string :=
  list_to_map
    [ (1, "Line"); (2, "Dotted Line"); (4, "Dashed Line"); (8, "Dot");
      (16, "Histogram"); (32, "Pattern (Bool)");
      (64, "Bull/Bear Pattern (Bearish < 0, Neutral = 0, Bullish > 0)");
      (128, "Strength Pattern ([-200..-100] = Bearish, [-100..0] = Getting Bearish, 0 = Neutral, [0..100] = Getting Bullish, [100-200] = Bullish)");
      (256, "Output can be positive"); (512, "Output can be negative");
      (1024, "Output can be zero");
      (2048, "Values represent an upper limit");
      (4096, "Values represent a lower limit") ].

(** ** Slot names *)

(** The name [_ta_getInputParameterInfo] publishes for a raw [paramName]. *)
Definition input_param_name (paramName : string) : string :=
  let name := PyStr.lower (PyStr.slice_from (String.length "in") paramName) in
  if PyStr.contains "real" name then PyStr.replace "real" "price" name
  else if PyStr.contains "price" name then "prices"
  else name.

(** The name [_ta_getOptInputParameterInfo] publishes. *)
Definition opt_input_param_name (paramName : string) : string :=
  PyStr.lower (PyStr.slice_from (String.length "optIn") paramName).

(** The name [_ta_getOutputParameterInfo] publishes. *)
Definition output_param_name (paramName : string) : string :=
  let name := PyStr.lower (PyStr.slice_from (String.length "out") paramName) in
  if PyStr.contains "real" name
     && negb (bool_decide (name ∈ ["real"; "real0"; "real1"]))
  then PyStr.slice_from (String.length "real") name
  else name.

(** ** Ordered dictionaries *)

(** An [OrderedDict] keyed by strings: the items in insertion order.
    Assigning to a key that is present keeps its place, assigning to a new
    key appends it. *)
Module OD.

Definition t (V : Type) : Type := list (string * V).

Definition keys {V} (d : t V) : list string := d.*1.
Definition values {V} (d : t V) : list V := d.*2.

Fixpoint get {V} (k : string) (d : t V) : option V :=
  match d with
  | [] => None
  | (k', v) :: d' => if decide (k = k') then Some v else get k d'
  end.

Fixpoint set {V} (k : string) (v : V) (d : t V) : t V :=
  match d with
  | [] => [(k, v)]
  | (k', v') :: d' =>
      if decide (k = k') then (k, v) :: d' else (k', v') :: set k v d'
  end.

(** [k in d] *)
Definition mem {V} (k : string) (d : t V) : bool :=
  bool_decide (is_Some (get k d)).

(** [d[k]], which raises [KeyError] on a key that is not there. *)
Definition getitem {V} (k : string) (d : t V) : result V :=
  match get k d with
  | Some v => Ok v
  | None => Raise (KeyError (PStr k))
  end.

End OD.

(** ** The underlying library *)

(** Modelled from the spec: the value-kind tag of an optional parameter,
    the enumeration [TA_OptInputParameterType] of the header [abstract_h],
    which is not among the sources (integer-range, integer-enumerated-list,
    real-range, real-enumerated-list). *)
Inductive TA_OptInputParameterType :=
| TA_OptInput_RealRange
| TA_OptInput_RealList
| TA_OptInput_IntegerRange
| TA_OptInput_IntegerList.

#[global] Instance TA_OptInputParameterType_eq_dec :
  EqDecision TA_OptInputParameterType.
Proof. solve_decision. Defined.

(** The structures the discovery calls of the library fill in; only the
    fields this layer reads. *)
Record TA_FuncInfo := {
  fi_name : string;
  fi_group : string;
  fi_hint : string;
  fi_flags : Z;
  fi_nbInput : nat;
  fi_nbOptInput : nat;
  fi_nbOutput : nat
}.

Record TA_InputParameterInfo := {
  ip_paramName : string;
  ip_flags : Z
}.

Record TA_OptInputParameterInfo := {
  oip_type : TA_OptInputParameterType;
  oip_paramName : string;
  oip_displayName : string;
  oip_defaultValue : Q;
  oip_hint : string
}.

Record TA_OutputParameterInfo := {
  op_paramName : string;
  op_flags : Z
}.

(** A native parameter holder: the function it was allocated for and the
    optional-parameter values set into it so far, latest first. *)
Record TA_ParamHolder := {
  ph_handle : nat;
  ph_values : list (nat * Z)
}.

Definition TA_SUCCESS : Z := 0.

(** The library behind this layer: the registry of function names, the
    discovery calls, the parameter-holder protocol and the kernels of
    [talib.func].  A native call answers with a return code and, where it
    has one, a value; a call on a holder is given the holder's content, or
    [None] for a holder that is not allocated. *)
Record TALib := {
  get_functions : list string;
  TA_GetFuncHandle : string → Z * nat;
  TA_GetFuncInfo : nat → Z * TA_FuncInfo;
  TA_GetInputParameterInfo : nat → nat → Z * TA_InputParameterInfo;
  TA_GetOptInputParameterInfo : nat → nat → Z * TA_OptInputParameterInfo;
  TA_GetOutputParameterInfo : nat → nat → Z * TA_OutputParameterInfo;
  TA_ParamHolderAlloc : nat → Z;
  TA_ParamHolderFree : option TA_ParamHolder → Z;
  TA_SetOptInputParamInteger : option TA_ParamHolder → nat → Z → Z;
  TA_SetOptInputParamReal : option TA_ParamHolder → nat → Z → Z;
  TA_GetLookback : option TA_ParamHolder → Z * Z;
  func_c : string → list pyval → result pyval
}.

(** Modelled from the spec: [_ta_check_success] of the module [common_c],
    which is not among the sources.  A return code other than success fails
    with an error that wraps the name of the failing native call. *)
Definition _ta_check_success (function_name : string) (ret_code : Z)
  : result bool :=
  if ret_code =? TA_SUCCESS then Ok true
  else Raise (NativeCallError function_name ret_code).

(** ** The facade's state *)

(** The info dict of an input slot and of an optional-parameter slot. *)
Record InputInfo := {
  in_name : string;
  in_price_series : pyval
}.

Record OptInputInfo := {
  opt_name : string;
  opt_display_name : string;
  opt_type : TA_OptInputParameterType;
  opt_help : string;
  opt_default_value : pyval;
  opt_value : pyval
}.

(** The dict [_ta_getFuncInfo] returns. *)
Record FuncInfoDict := {
  fd_name : string;
  fd_group : string;
  fd_display_name : string;
  fd_flags : option (list string);
  fd_num_inputs : nat;
  fd_num_opt_inputs : nat;
  fd_num_outputs : nat
}.

(** [self.__info], once the three counts are popped and the three views of
    the slots are added. *)
Record InfoDict := {
  info_name : string;
  info_group : string;
  info_display_name : string;
  info_flags : option (list string);
  info_input_names : OD.t pyval;
  info_parameters : OD.t pyval;
  info_output_names : list string
}.

(** The attributes of a [Function] object. *)
Record Function := {
  __name : string;
  __info : option InfoDict;
  __input_arrays : gmap string pyval;
  __input_names : OD.t InputInfo;
  __opt_inputs : OD.t OptInputInfo;
  __outputs : OD.t pyval;
  __outputs_valid : bool
}.

(** The world a method runs in: the facade itself, the calls made to the
    kernels so far (oldest first), and the native parameter holders that
    are allocated and not yet freed. *)
Record World := {
  self : Function;
  kernel_calls : list (string * list pyval);
  holders : gmap nat TA_ParamHolder;
  next_holder : nat
}.

Definition M (A : Type) : Type := World → result A * World.

#[global] Instance M_ret : MRet M := λ A a w, (Ok a, w).
#[global] Instance M_bind : MBind M := λ A B f m w,
  match m w with
  | (Ok a, w') => f a w'
  | (Raise e, w') => (Raise e, w')
  end.

Definition raise {A} (e : exn) : M A := λ w, (Raise e, w).
Definition lift {A} (r : result A) : M A := λ w, (r, w).
Definition get_self : M Function := λ w, (Ok (self w), w).
Definition modify_self (g : Function → Function) : M unit := λ w,
  (Ok tt,
   {| self := g (self w); kernel_calls := kernel_calls w;
      holders := holders w; next_holder := next_holder w |}).

(** [for x in l: body], and the same loop threading a local variable. *)
Fixpoint for_each {A} (l : list A) (body : A → M unit) : M unit :=
  match l with
  | [] => mret tt
  | x :: l' => body x;; for_each l' body
  end.

Fixpoint for_each_acc {A S} (l : list A) (body : S → A → M S) (s : S) : M S :=
  match l with
  | [] => mret s
  | x :: l' => s' ← body s x; for_each_acc l' body s'
  end.

Definition enumerate {A} (l : list A) : list (nat * A) :=
  zip (seq 0 (List.length l)) l.

(** Assignments to the attributes of [self]. *)
Definition with_name (v : string) (f : Function) : Function :=
  {| __name := v; __info := __info f; __input_arrays := __input_arrays f;
     __input_names := __input_names f; __opt_inputs := __opt_inputs f;
     __outputs := __outputs f; __outputs_valid := __outputs_valid f |}.
Definition with_info (v : option InfoDict) (f : Function) : Function :=
  {| __name := __name f; __info := v; __input_arrays := __input_arrays f;
     __input_names := __input_names f; __opt_inputs := __opt_inputs f;
     __outputs := __outputs f; __outputs_valid := __outputs_valid f |}.
Definition with_input_arrays (v : gmap string pyval) (f : Function) : Function :=
  {| __name := __name f; __info := __info f; __input_arrays := v;
     __input_names := __input_names f; __opt_inputs := __opt_inputs f;
     __outputs := __outputs f; __outputs_valid := __outputs_valid f |}.
Definition with_input_names (v : OD.t InputInfo) (f : Function) : Function :=
  {| __name := __name f; __info := __info f; __input_arrays := __input_arrays f;
     __input_names := v; __opt_inputs := __opt_inputs f;
     __outputs := __outputs f; __outputs_valid := __outputs_valid f |}.
Definition with_opt_inputs (v : OD.t OptInputInfo) (f : Function) : Function :=
  {| __name := __name f; __info := __info f; __input_arrays := __input_arrays f;
     __input_names := __input_names f; __opt_inputs := v;
     __outputs := __outputs f; __outputs_valid := __outputs_valid f |}.
Definition with_outputs (v : OD.t pyval) (f : Function) : Function :=
  {| __name := __name f; __info := __info f; __input_arrays := __input_arrays f;
     __input_names := __input_names f; __opt_inputs := __opt_inputs f;
     __outputs := v; __outputs_valid := __outputs_valid f |}.
Definition with_outputs_valid (v : bool) (f : Function) : Function :=
  {| __name := __name f; __info := __info f; __input_arrays := __input_arrays f;
     __input_names := __input_names f; __opt_inputs := __opt_inputs f;
     __outputs := __outputs f; __outputs_valid := v |}.

Definition with_price_series (v : pyval) (i : InputInfo) : InputInfo :=
  {| in_name := in_name i; in_price_series := v |}.
Definition with_value (v : pyval) (o : OptInputInfo) : OptInputInfo :=
  {| opt_name := opt_name o; opt_display_name := opt_display_name o;
     opt_type := opt_type o; opt_help := opt_help o;
     opt_default_value := opt_default_value o; opt_value := v |}.

(** ** The metadata queries and the facade's methods *)

Section Facade.

Variable lib : TALib.

(** *** Discovery *)

Definition __ta_getFuncHandle (function_name : string) : result nat :=
  let '(retCode, handle) := TA_GetFuncHandle lib function_name in
  _ta_check_success "TA_GetFuncHandle" retCode;;
  Ok handle.

Definition _ta_getFuncInfo (function_name : string) : result FuncInfoDict :=
  handle ← __ta_getFuncHandle function_name;
  let '(retCode, info) := TA_GetFuncInfo lib handle in
  _ta_check_success "TA_GetFuncInfo" retCode;;
  flags ← __get_flags (fi_flags info) ta_func_flags;
  Ok {| fd_name := fi_name info;
        fd_group := fi_group info;
        fd_display_name := fi_hint info;
        fd_flags := flags;
        fd_num_inputs := fi_nbInput info;
        fd_num_opt_inputs := fi_nbOptInput info;
        fd_num_outputs := fi_nbOutput info |}.

Definition _ta_getInputParameterInfo (function_name : string) (idx : nat)
  : result InputInfo :=
  handle ← __ta_getFuncHandle function_name;
  let '(retCode, info) := TA_GetInputParameterInfo lib handle idx in
  _ta_check_success "TA_GetInputParameterInfo" retCode;;
  flags ← __get_flags (ip_flags info) ta_input_flags;
  Ok {| in_name := input_param_name (ip_paramName info);
        in_price_series :=
          match flags with
          | Some labels => PList (PStr <$> labels)
          | None => PNone
          end |}.

Definition _ta_getOptInputParameterInfo (function_name : string) (idx : nat)
  : result OptInputInfo :=
  handle ← __ta_getFuncHandle function_name;
  let '(retCode, info) := TA_GetOptInputParameterInfo lib handle idx in
  _ta_check_success "TA_GetOptInputParameterInfo" retCode;;
  let default_value := oip_defaultValue info in
  Ok {| opt_name := opt_input_param_name (oip_paramName info);
        opt_display_name := oip_displayName info;
        opt_type := oip_type info;
        opt_help := oip_hint info;
        opt_default_value :=
          if Qnum default_value mod Z.pos (Qden default_value) =? 0
          then PInt (Qnum default_value / Z.pos (Qden default_value))
          else PFloat default_value;
        opt_value := PNone |}.

(** Of the dict [_ta_getOutputParameterInfo] returns, the facade reads
    the name only; the description is decoded all the same, and the
    decoder may raise. *)
Definition _ta_getOutputParameterInfo (function_name : string) (idx : nat)
  : result (string * option (list string)) :=
  handle ← __ta_getFuncHandle function_name;
  let '(retCode, info) := TA_GetOutputParameterInfo lib handle idx in
  _ta_check_success "TA_GetOutputParameterInfo" retCode;;
  description ← __get_flags (op_flags info) ta_output_flags;
  Ok (output_param_name (op_paramName info), description).

(** *** Reading the facade *)

Definition __input_price_series_defaults : gmap string pyval :=
  {[ "price" := PStr "close"; "price0" := PStr "high";
     "price1" := PStr "low"; "periods" := PNone ]}.

(** [__get_opt_input_value]: the value of the slot, replaced by the
    default when [not value] holds. *)
Definition __get_opt_input_value (f : Function) (input_name : string)
  : result pyval :=
  info ← OD.getitem input_name (__opt_inputs f);
  let value := opt_value info in
  b ← truthy value;
  if negb b then Ok (opt_default_value info) else Ok value.

(** The property [input_names] *)
Definition input_names (f : Function) : OD.t pyval :=
  (λ kv : string * InputInfo, (kv.1, in_price_series kv.2)) <$> __input_names f.

(** The property [parameters] *)
Definition parameters (f : Function) : result (OD.t pyval) :=
  mapR (λ opt_input, v ← __get_opt_input_value f opt_input; Ok (opt_input, v))
       (OD.keys (__opt_inputs f)).

(** The property [output_names] *)
Definition output_names (f : Function) : list string :=
  OD.keys (__outputs f).

Definition get_input_arrays (f : Function) : gmap string pyval :=
  __input_arrays f.

(** *** Mutators *)

Definition set_info_parameters (ps : OD.t pyval) (f : Function) : Function :=
  with_info
    ((λ i, {| info_name := info_name i; info_group := info_group i;
              info_display_name := info_display_name i;
              info_flags := info_flags i;
              info_input_names := info_input_names i;
              info_parameters := ps;
              info_output_names := info_output_names i |}) <$> __info f) f.

(** [self.__info['parameters'] = self.parameters] *)
Definition update_info_parameters : M unit :=
  f ← get_self;
  ps ← lift (parameters f);
  modify_self (set_info_parameters ps).

(** [self.__input_names[input_name]['price_series'] = price_series] *)
Definition assign_price_series (input_name : string) (price_series : pyval)
  : M unit :=
  f ← get_self;
  info ← lift (OD.getitem input_name (__input_names f));
  modify_self (λ f, with_input_names
    (OD.set input_name (with_price_series price_series info) (__input_names f)) f).

(** [self.__opt_inputs[param]['value'] = value] *)
Definition assign_value (param : string) (value : pyval) : M unit :=
  f ← get_self;
  info ← lift (OD.getitem param (__opt_inputs f));
  modify_self (λ f, with_opt_inputs
    (OD.set param (with_value value info) (__opt_inputs f)) f).

(** The setter of [input_names] *)
Definition set_input_names (input_names : list (string * pyval)) : M unit :=
  for_each input_names (λ '(input_name, price_series),
    assign_price_series input_name price_series);;
  modify_self (with_outputs_valid false).

Definition set_input_arrays (input_arrays : pyval) : M bool :=
  match input_arrays with
  | PDict d =>
      if bool_decide (PyStr.sorted (map_to_list d).*1
                      = ["close"; "high"; "low"; "open"; "volume"])
      then
        modify_self (with_input_arrays d);;
        modify_self (with_outputs_valid false);;
        mret true
      else mret false
  | _ => mret false
  end.

(** The setter of [parameters] *)
Definition set_parameters (parameters : list (string * pyval)) : M unit :=
  for_each parameters (λ '(param, value), assign_value param value);;
  modify_self (with_outputs_valid false);;
  update_info_parameters.

Definition set_function_args (args : list pyval) (kwargs : list (string * pyval))
  : M unit :=
  let update_info := false in
  update_info ←
    match args with
    | [] => mret update_info
    | arg0 :: _ =>
        let skip_first := 0%nat in
        b ← set_input_arrays arg0;
        let skip_first := if b : bool then 1%nat else skip_first in
        f ← get_self;
        for_each_acc (enumerate (OD.keys (__opt_inputs f)))
          (λ update_info '(i, param_name),
             let i := (i + skip_first)%nat in
             match args !! i with
             | Some value => assign_value param_name value;; mret true
             | None => mret update_info
             end)
          update_info
    end;
  update_info ←
    for_each_acc kwargs
      (λ update_info '(key, value),
         f ← get_self;
         if OD.mem key (__opt_inputs f)
         then assign_value key value;; mret true
         else if OD.mem key (__input_names f)
         then assign_price_series key value;; mret update_info
         else mret update_info)
      update_info;
  if negb (bool_decide (args = [])) || negb (bool_decide (kwargs = []))
  then
    (if update_info : bool then update_info_parameters else mret tt);;
    modify_self (with_outputs_valid false)
  else mret tt.

(** *** Invocation *)

(** The call [func_c.__getattribute__(self.__name)( *args )]; the log of
    kernel calls grows by one entry. *)
Definition call_kernel (function_name : string) (args : list pyval) : M pyval :=
  λ w, (func_c lib function_name args,
        {| self := self w;
           kernel_calls := kernel_calls w ++ [(function_name, args)];
           holders := holders w; next_holder := next_holder w |}).

(** The first loop of [__call_function]: the price series names in use. *)
Definition input_price_series_names (f : Function) : list pyval :=
  foldl (λ (names : list pyval) (kv : string * InputInfo),
           match in_price_series kv.2 with
           | PList price_series => foldl (λ names name, names ++ [name]) names price_series
           | price_series => names ++ [price_series]
           end)
        [] (__input_names f).

(** The ordered arguments [__call_function] builds. *)
Definition call_args (f : Function) : result (list pyval) :=
  arrays ← mapR (dict_getitem (__input_arrays f)) (input_price_series_names f);
  values ← mapR (__get_opt_input_value f) (OD.keys (__opt_inputs f));
  Ok (arrays ++ values).

Definition assign_output (output : string) (v : pyval) : M unit :=
  modify_self (λ f, with_outputs (OD.set output v (__outputs f)) f).

(** The second half of [__call_function]: the results of the kernel go
    into [self.__outputs], a single array under the first output name, a
    sequence item by item under the output names in their order. *)
Definition store_results (results : pyval) : M unit :=
  f ← get_self;
  match results with
  | PArr _ =>
      match OD.keys (__outputs f) with
      | output :: _ => assign_output output results
      | [] => raise IndexError
      end
  | _ =>
      for_each (enumerate (OD.keys (__outputs f))) (λ '(i, output),
        r ← lift (py_index results i);
        assign_output output r)
  end.

Definition __call_function : M unit :=
  f ← get_self;
  args ← lift (call_args f);
  results ← call_kernel (__name f) args;
  store_results results;;
  modify_self (with_outputs_valid true).

(** The property [outputs] *)
Definition outputs : M pyval :=
  f ← get_self;
  (if negb (__outputs_valid f) then __call_function else mret tt);;
  f ← get_self;
  let ret := OD.values (__outputs f) in
  match ret with
  | [ret0] => mret ret0
  | _ => mret (PList ret)
  end.

Definition run (input_arrays : pyval) : M pyval :=
  b ← lift (truthy input_arrays);
  (if b : bool then set_input_arrays input_arrays;; mret tt else mret tt);;
  __call_function;;
  outputs.

Definition __call__ (args : list pyval) (kwargs : list (string * pyval))
  : M pyval :=
  set_function_args args kwargs;;
  __call_function;;
  outputs.

(** *** The lookback window *)

(** The [cdef] wrappers of the parameter-holder protocol.  A holder is
    allocated when the allocation succeeds and gone when the release
    succeeds; an error of [_ta_check_success] leaves the wrapper as the
    specification has it, as a failure of the call that wraps the name of
    the native function. *)
Definition __ta_paramHolderAlloc (function_name : string) : M nat :=
  handle ← lift (__ta_getFuncHandle function_name);
  ((λ w,
    let retCode := TA_ParamHolderAlloc lib handle in
    let holder := next_holder w in
    match _ta_check_success "TA_ParamHolderAlloc" retCode with
    | Ok _ =>
        (Ok holder,
         {| self := self w; kernel_calls := kernel_calls w;
            holders := <[holder := {| ph_handle := handle; ph_values := [] |}]> (holders w);
            next_holder := S holder |})
    | Raise e => (Raise e, w)
    end) : M nat).

Definition __ta_paramHolderFree (params : nat) : M unit :=
  λ w,
    let retCode := TA_ParamHolderFree lib (holders w !! params) in
    match _ta_check_success "TA_ParamHolderFree" retCode with
    | Ok _ =>
        (Ok tt,
         {| self := self w; kernel_calls := kernel_calls w;
            holders := delete params (holders w);
            next_holder := next_holder w |})
    | Raise e => (Raise e, w)
    end.

Definition record_value (idx : nat) (value : Z) (h : TA_ParamHolder)
  : TA_ParamHolder :=
  {| ph_handle := ph_handle h; ph_values := (idx, value) :: ph_values h |}.

Definition set_opt_input_param
    (native : option TA_ParamHolder → nat → Z → Z) (native_name : string)
    (holder : nat) (idx : nat) (value : Z) : M unit :=
  λ w,
    let retCode := native (holders w !! holder) idx value in
    match _ta_check_success native_name retCode with
    | Ok _ =>
        (Ok tt,
         {| self := self w; kernel_calls := kernel_calls w;
            holders := alter (record_value idx value) holder (holders w);
            next_holder := next_holder w |})
    | Raise e => (Raise e, w)
    end.

Definition __ta_setOptInputParamInteger : nat → nat → Z → M unit :=
  set_opt_input_param (TA_SetOptInputParamInteger lib) "TA_SetOptInputParamInteger".

Definition __ta_setOptInputParamReal : nat → nat → Z → M unit :=
  set_opt_input_param (TA_SetOptInputParamReal lib) "TA_SetOptInputParamReal".

Definition __ta_getLookback (holder : nat) : M Z :=
  λ w,
    let '(retCode, lookback) := TA_GetLookback lib (holders w !! holder) in
    match _ta_check_success "TA_GetLookback" retCode with
    | Ok _ => (Ok lookback, w)
    | Raise e => (Raise e, w)
    end.

(** The property [lookback].  The values are converted to the [int]
    parameter of the setters at the call, inside [lookback] itself. *)
Definition lookback : M Z :=
  f ← get_self;
  holder ← __ta_paramHolderAlloc (__name f);
  for_each (enumerate (OD.keys (__opt_inputs f))) (λ '(i, opt_input),
    value ← lift (__get_opt_input_value f opt_input);
    info ← lift (OD.getitem opt_input (__opt_inputs f));
    let type_ := opt_type info in
    if bool_decide (type_ = TA_OptInput_RealRange)
       || bool_decide (type_ = TA_OptInput_RealList)
    then v ← lift (to_c_int value); __ta_setOptInputParamReal holder i v
    else if bool_decide (type_ = TA_OptInput_IntegerRange)
            || bool_decide (type_ = TA_OptInput_IntegerList)
    then v ← lift (to_c_int value); __ta_setOptInputParamInteger holder i v
    else mret tt);;
  lookback ← __ta_getLookback holder;
  __ta_paramHolderFree holder;;
  mret lookback.

(** *** Construction *)

Definition set_info_input_names (v : OD.t pyval) (f : Function) : Function :=
  with_info
    ((λ i, {| info_name := info_name i; info_group := info_group i;
              info_display_name := info_display_name i;
              info_flags := info_flags i;
              info_input_names := v;
              info_parameters := info_parameters i;
              info_output_names := info_output_names i |}) <$> __info f) f.

Definition set_info_output_names (v : list string) (f : Function) : Function :=
  with_info
    ((λ i, {| info_name := info_name i; info_group := info_group i;
              info_display_name := info_display_name i;
              info_flags := info_flags i;
              info_input_names := info_input_names i;
              info_parameters := info_parameters i;
              info_output_names := v |}) <$> __info f) f.

(** The bodies of the three loops of [__initialize_private_variables]. *)
Definition discover_input (name : string) (i : nat) : M unit :=
  info ← lift (_ta_getInputParameterInfo name i);
  let input_name := in_name info in
  info ←
    (if is_none (in_price_series info)
     then
       price_series ←
         lift (dict_getitem __input_price_series_defaults (PStr input_name));
       mret (with_price_series price_series info)
     else mret info);
  modify_self (λ f,
    with_input_names (OD.set input_name info (__input_names f)) f).

Definition discover_opt_input (name : string) (i : nat) : M unit :=
  info ← lift (_ta_getOptInputParameterInfo name i);
  let param_name := opt_name info in
  modify_self (λ f,
    with_opt_inputs (OD.set param_name info (__opt_inputs f)) f).

Definition discover_output (name : string) (i : nat) : M unit :=
  info ← lift (_ta_getOutputParameterInfo name i);
  let output_name := info.1 in
  assign_output output_name PNone.

Definition __initialize_private_variables : M unit :=
  f ← get_self;
  let name := __name f in
  info ← lift (_ta_getFuncInfo name);
  modify_self (with_info (Some
    {| info_name := fd_name info; info_group := fd_group info;
       info_display_name := fd_display_name info;
       info_flags := fd_flags info;
       info_input_names := []; info_parameters := [];
       info_output_names := [] |}));;
  for_each (seq 0 (fd_num_inputs info)) (discover_input name);;
  modify_self (λ f, set_info_input_names (input_names f) f);;
  for_each (seq 0 (fd_num_opt_inputs info)) (discover_opt_input name);;
  update_info_parameters;;
  for_each (seq 0 (fd_num_outputs info)) (discover_output name);;
  modify_self (λ f, set_info_output_names (output_names f) f).

Definition __init__ (function_name : string) (input_arrays : pyval) : M unit :=
  let name := PyStr.upper function_name in
  modify_self (with_name name);;
  (if bool_decide (name ∈ get_functions lib) then mret tt
   else raise (Exception (name ++ " not supported by TA-LIB.")%string));;
  modify_self (with_info None);;
  modify_self (with_input_arrays
    {[ "open" := PNone; "high" := PNone; "low" := PNone;
       "close" := PNone; "volume" := PNone ]});;
  modify_self (with_input_names []);;
  modify_self (with_opt_inputs []);;
  modify_self (with_outputs []);;
  modify_self (with_outputs_valid false);;
  __initialize_private_variables;;
  b ← lift (truthy input_arrays);
  if b : bool then set_input_arrays input_arrays;; mret tt else mret tt.

End Facade.

(** ** The calls on a facade *)

(** What a caller can do with a facade once it is constructed, and the
    world each call leaves, whether it returns or raises. *)
Inductive call :=
| SetInputNames (input_names : list (string * pyval))
| SetInputArrays (input_arrays : pyval)
| SetParameters (parameters : list (string * pyval))
| SetFunctionArgs (args : list pyval) (kwargs : list (string * pyval))
| Lookback
| Outputs
| Run (input_arrays : pyval)
| Call (args : list pyval) (kwargs : list (string * pyval)).

Definition perform (lib : TALib) (c : call) (w : World) : World :=
  match c with
  | SetInputNames input_names => (set_input_names input_names w).2
  | SetInputArrays input_arrays => (set_input_arrays input_arrays w).2
  | SetParameters parameters => (set_parameters parameters w).2
  | SetFunctionArgs args kwargs => (set_function_args args kwargs w).2
  | Lookback => (lookback lib w).2
  | Outputs => (outputs lib w).2
  | Run input_arrays => (run lib input_arrays w).2
  | Call args kwargs => (__call__ lib args kwargs w).2
  end.

(** The worlds a facade can be in: the one a construction that returns
    leaves, and those the calls lead to from there. *)
Inductive reachable (lib : TALib) : World → Prop :=
| reachable_init function_name input_arrays w w' :
    __init__ lib function_name input_arrays w = (Ok tt, w') →
    reachable lib w'
| reachable_perform c w :
    reachable lib w → reachable lib (perform lib c w).

(** ** The documentation *)

(** [for x in l: s = body(s, x)], where the body may raise. *)
Fixpoint foldlR {A S} (body : S → A → result S) (s : S) (l : list A) : result S :=
  match l with
  | [] => Ok s
  | x :: l' => s' ← body s x; foldlR body s' l'
  end.

Definition newline : string := String (ascii_of_nat 10) "".

(** [docs[-1] = line] *)
Definition set_last (docs : list string) (line : string) : list string :=
  <[pred (List.length docs) := line]> docs.

Section Documentation.

(** Two things this layer takes from outside: the text [%s] gives for a
    value, which is the built-in [str], and the names of the moving
    average types, [talib.MA_Type], which raises on a value it has no name
    for. *)
Variable py_str : pyval → string.
Variable MA_Type : pyval → result string.

(** The loop of [_get_defaults_and_docs] over the inputs. *)
Definition docs_input (input_names : OD.t pyval) (docs : list string)
    (input_name : string) : result (list string) :=
  value ← OD.getitem input_name input_names;
  let value := match value with PList _ => py_str value | _ => "(any ndarray)" end in
  Ok (docs ++ [("    " ++ input_name ++ ": " ++ value)%string]).

(** The loop over the parameters, on the three variables it updates. *)
Definition docs_param (params : OD.t pyval)
    (s : gmap string pyval * list string * list string) (param : string)
  : result (gmap string pyval * list string * list string) :=
  let '(defaults, func_args, docs) := s in
  value ← OD.getitem param params;
  let docs := docs ++ [("    " ++ param ++ ": " ++ py_str value)%string] in
  let func_args := func_args ++ [("[" ++ param ++ "=" ++ py_str value ++ "]")%string] in
  let defaults := <[param := value]> defaults in
  docs ←
    (if decide (param = "matype")
     then
       name ← MA_Type value;
       match last docs with
       | Some line => Ok (set_last docs (String.concat " " [line; ("(" ++ name ++ ")")%string]))
       | None => Raise IndexError
       end
     else Ok docs);
  Ok (defaults, func_args, docs).

(** The loop over the outputs. *)
Definition docs_output (docs : list string) (output : string) : list string :=
  let output :=
    if decide (output = "integer") then "integer (values are -100, 0 or 100)"
    else output in
  docs ++ [("    " ++ output)%string].

(** [_get_defaults_and_docs(func_info)].  An info dict that is [None] has
    no item to read. *)
Definition _get_defaults_and_docs (func_info : option InfoDict)
  : result (gmap string pyval * string) :=
  match func_info with
  | None => Raise TypeError
  | Some func_info =>
      let defaults : gmap string pyval := ∅ in
      let func_line := [info_name func_info; "("] in
      let func_args := ["[input_arrays]"] in
      let docs : list string := [] in
      let docs :=
        docs ++ [(info_display_name func_info ++ " (" ++ info_group func_info
                  ++ ")" ++ newline)%string] in
      let input_names := info_input_names func_info in
      let docs := docs ++ ["Inputs:"] in
      docs ← foldlR (docs_input input_names) docs (OD.keys input_names);
      let params := info_parameters func_info in
      let docs := if bool_decide (params = []) then docs else docs ++ ["Parameters:"] in
      '(defaults, func_args, docs) ←
        foldlR (docs_param params) (defaults, func_args, docs) (OD.keys params);
      let outputs := info_output_names func_info in
      let docs := docs ++ ["Outputs:"] in
      let docs := foldl docs_output docs outputs in
      let func_line := func_line ++ [String.concat ", " func_args] in
      let func_line := func_line ++ [(")" ++ newline)%string] in
      let docs := String.concat "" func_line :: docs in
      let documentation := String.concat newline docs in
      Ok (defaults, documentation)
  end.

(** [print_help]: the text it prints. *)
Definition print_help (f : Function) : result string :=
  r ← _get_defaults_and_docs (__info f);
  Ok r.2.

End Documentation.

(** ** The tables of group and function names *)

(** A native table of strings: its size and the strings at the indices
    below it. *)
Record TA_StringTable := {
  st_size : nat;
  st_string : nat → string
}.

(** The four native calls on tables.  An allocation answers with a return
    code and the table; a release is given the table, or [None] for one
    that is not allocated. *)
Record TATables := {
  TA_GroupTableAlloc : Z * TA_StringTable;
  TA_GroupTableFree : option TA_StringTable → Z;
  TA_FuncTableAlloc : string → Z * TA_StringTable;
  TA_FuncTableFree : option TA_StringTable → Z
}.

(** The native tables that are allocated and not yet released. *)
Record TableHeap := {
  tables : gmap nat TA_StringTable;
  next_table : nat
}.

Definition _ta_getGroupTable (lib : TATables) (h : TableHeap)
  : result (list string) * TableHeap :=
  let '(retCode, t) := TA_GroupTableAlloc lib in
  match _ta_check_success "TA_GroupTableAlloc" retCode with
  | Raise e => (Raise e, h)
  | Ok _ =>
      let table := next_table h in
      let h := {| tables := <[table := t]> (tables h); next_table := S table |} in
      let groups :=
        foldl (λ groups i, groups ++ [st_string t i]) [] (seq 0 (st_size t)) in
      match _ta_check_success "TA_GroupTableFree"
              (TA_GroupTableFree lib (tables h !! table)) with
      | Raise e => (Raise e, h)
      | Ok _ =>
          (Ok groups,
           {| tables := delete table (tables h); next_table := next_table h |})
      end
  end.

Definition _ta_getFuncTable (lib : TATables) (group : string) (h : TableHeap)
  : result (list string) * TableHeap :=
  let '(retCode, t) := TA_FuncTableAlloc lib group in
  match _ta_check_success "TA_FuncTableAlloc" retCode with
  | Raise e => (Raise e, h)
  | Ok _ =>
      let table := next_table h in
      let h := {| tables := <[table := t]> (tables h); next_table := S table |} in
      let functions :=
        foldl (λ functions i, functions ++ [st_string t i]) [] (seq 0 (st_size t)) in
      match _ta_check_success "TA_FuncTableFree"
              (TA_FuncTableFree lib (tables h !! table)) with
      | Raise e => (Raise e, h)
      | Ok _ =>
          (Ok functions,
           {| tables := delete table (tables h); next_table := next_table h |})
      end
  end.

(** ** A small library to run the model on *)

Module Demo.

Record entry := {
  e_name : string;
  e_inputs : list TA_InputParameterInfo;
  e_opt_inputs : list TA_OptInputParameterInfo;
  e_outputs : list TA_OutputParameterInfo
}.

Definition input (paramName : string) (flags : Z) : TA_InputParameterInfo :=
  {| ip_paramName := paramName; ip_flags := flags |}.
Definition opt (type : TA_OptInputParameterType) (paramName : string)
    (defaultValue : Q) : TA_OptInputParameterInfo :=
  {| oip_type := type; oip_paramName := paramName; oip_displayName := paramName;
     oip_defaultValue := defaultValue; oip_hint := "" |}.
Definition output (paramName : string) (flags : Z) : TA_OutputParameterInfo :=
  {| op_paramName := paramName; op_flags := flags |}.

Definition table : list entry :=
  [ {| e_name := "SMA";
       e_inputs := [input "inReal" 0];
       e_opt_inputs := [opt TA_OptInput_IntegerRange "optInTimePeriod" (30 # 1)];
       e_outputs := [output "outReal" 1] |};
    {| e_name := "STDDEV";
       e_inputs := [input "inReal" 0];
       e_opt_inputs := [opt TA_OptInput_IntegerRange "optInTimePeriod" (5 # 1);
                        opt TA_OptInput_RealRange "optInNbDev" (1 # 1)];
       e_outputs := [output "outReal" 1] |};
    {| e_name := "STOCH";
       e_inputs := [input "inPriceHLC" 14];
       e_opt_inputs := [opt TA_OptInput_IntegerRange "optInFastK_Period" (5 # 1);
                        opt TA_OptInput_IntegerRange "optInSlowK_Period" (3 # 1);
                        opt TA_OptInput_IntegerList "optInSlowK_MAType" (0 # 1);
                        opt TA_OptInput_IntegerRange "optInSlowD_Period" (3 # 1);
                        opt TA_OptInput_IntegerList "optInSlowD_MAType" (0 # 1)];
       e_outputs := [output "outSlowK" 4; output "outSlowD" 4] |};
    {| e_name := "BBANDS";
       e_inputs := [input "inReal" 0];
       e_opt_inputs := [opt TA_OptInput_IntegerRange "optInTimePeriod" (5 # 1);
                        opt TA_OptInput_RealRange "optInNbDevUp" (2 # 1);
                        opt TA_OptInput_RealRange "optInNbDevDn" (2 # 1);
                        opt TA_OptInput_IntegerList "optInMAType" (0 # 1)];
       e_outputs := [output "outRealUpperBand" 2049;
                     output "outRealMiddleBand" 1;
                     output "outRealLowerBand" 4097] |};
    {| e_name := "AD";
       e_inputs := [input "inPriceHLCV" 30];
       e_opt_inputs := [];
       e_outputs := [output "outReal" 1] |} ].

Definition no_entry : entry :=
  {| e_name := ""; e_inputs := []; e_opt_inputs := []; e_outputs := [] |}.

Definition handle_of (function_name : string) : option nat :=
  fst <$> list_find (λ e, e_name e = function_name) table.

Definition entry_at (handle : nat) : entry := default no_entry (table !! handle).

(** The number a kernel writes for an argument: the sum of an array, the
    value of a number. *)
Definition weight (v : pyval) : Q :=
  match v with
  | PArr a => foldr Qplus 0%Q (nd_data a)
  | PInt z => inject_Z z
  | PFloat q => q
  | _ => 0%Q
  end.

(** A kernel whose result shows every argument it was called with: one
    array per output, holding the output's position and the weights of
    the arguments.  It refuses an input that is not an array. *)
Definition kernel (function_name : string) (args : list pyval) : result pyval :=
  match handle_of function_name with
  | None => Raise (Exception "no such function")
  | Some h =>
      let e := entry_at h in
      if forallb (λ v, if v is PArr _ then true else false)
                 (take (List.length args - List.length (e_opt_inputs e)) args)
      then
        let out (i : nat) := PArr (NdArray (inject_Z (Z.of_nat i) :: (weight <$> args))) in
        match e_outputs e with
        | [_] => Ok (out 0%nat)
        | os => Ok (PList (out <$> seq 0 (List.length os)))
        end
      else Raise TypeError
  end.

Definition lib : TALib :=
  {| get_functions := e_name <$> table;
     TA_GetFuncHandle := λ function_name,
       match handle_of function_name with
       | Some h => (TA_SUCCESS, h)
       | None => (2, 0%nat)
       end;
     TA_GetFuncInfo := λ h,
       let e := entry_at h in
       (TA_SUCCESS,
        {| fi_name := e_name e; fi_group := "Demo"; fi_hint := e_name e;
           fi_flags := 0;
           fi_nbInput := List.length (e_inputs e);
           fi_nbOptInput := List.length (e_opt_inputs e);
           fi_nbOutput := List.length (e_outputs e) |});
     TA_GetInputParameterInfo := λ h idx,
       match e_inputs (entry_at h) !! idx with
       | Some i => (TA_SUCCESS, i)
       | None => (2, input "" 0)
       end;
     TA_GetOptInputParameterInfo := λ h idx,
       match e_opt_inputs (entry_at h) !! idx with
       | Some i => (TA_SUCCESS, i)
       | None => (2, opt TA_OptInput_IntegerRange "" 0%Q)
       end;
     TA_GetOutputParameterInfo := λ h idx,
       match e_outputs (entry_at h) !! idx with
       | Some i => (TA_SUCCESS, i)
       | None => (2, output "" 0)
       end;
     TA_ParamHolderAlloc := λ _, TA_SUCCESS;
     TA_ParamHolderFree := λ h, if h is Some _ then TA_SUCCESS else 2;
     TA_SetOptInputParamInteger := λ h _ _, if h is Some _ then TA_SUCCESS else 2;
     TA_SetOptInputParamReal := λ h _ _, if h is Some _ then TA_SUCCESS else 2;
     TA_GetLookback := λ h,
       match h with
       | Some p => (TA_SUCCESS, foldr Z.max 0 (snd <$> ph_values p) - 1)
       | None => (2, 0)
       end;
     func_c := kernel |}.



Definition blank : Function :=
  {| __name := ""; __info := None; __input_arrays := ∅; __input_names := [];
     __opt_inputs := []; __outputs := []; __outputs_valid := false |}.

Definition world0 : World :=
  {| self := blank; kernel_calls := []; holders := ∅; next_holder := 0 |}.

(** [Function(function_name)] in a fresh world. *)
Definition new (function_name : string) : World :=
  (__init__ lib function_name PNone world0).2.

Definition arr (x : Z) : pyval := PArr (NdArray [inject_Z x]).

Definition ohlcv : pyval :=
  PDict {[ "open" := arr 1; "high" := arr 2; "low" := arr 3;
           "close" := arr 4; "volume" := arr 5 ]}.

End Demo.

(** The same for the documentation and the tables: a [str] for the values
    the small library has, the first names of [talib.MA_Type], and a table
    of two groups. *)
Module DemoHelp.

Definition repr (v : pyval) : string :=
  match v with
  | PNone => "None"
  | PInt z => pretty z
  | PStr s => "'" ++ s ++ "'"
  | _ => "..."
  end.

Definition str (v : pyval) : string :=
  match v with
  | PStr s => s
  | PList l => "[" ++ String.concat ", " (repr <$> l) ++ "]"
  | _ => repr v
  end.

Definition MA_Type (v : pyval) : result string :=
  match v with
  | PInt 0 => Ok "Simple Moving Average"
  | PInt 1 => Ok "Exponential Moving Average"
  | PInt 2 => Ok "Weighted Moving Average"
  | PInt _ => Raise (KeyError v)
  | PArr _ | PList _ | PDict _ => Raise TypeError
  | _ => Raise (KeyError v)
  end.

Definition groups : TA_StringTable :=
  {| st_size := 2;
     st_string := λ i, match i with
                       | O => "Overlap Studies"
                       | _ => "Statistic Functions"
                       end |}.

Definition functions (group : string) : TA_StringTable :=
  {| st_size := if decide (group = "Statistic Functions") then 1 else 3;
     st_string := λ i, if decide (group = "Statistic Functions") then "STDDEV"
                       else match i with
                            | O => "BBANDS"
                            | S O => "SMA"
                            | _ => "STOCH"
                            end |}.

Definition tables_lib : TATables :=
  {| TA_GroupTableAlloc := (TA_SUCCESS, groups);
     TA_GroupTableFree := λ t, if t is Some _ then TA_SUCCESS else 2;
     TA_FuncTableAlloc := λ group, (TA_SUCCESS, functions group);
     TA_FuncTableFree := λ t, if t is Some _ then TA_SUCCESS else 2 |}.

Definition no_tables : TableHeap := {| tables := ∅; next_table := 0 |}.

End DemoHelp.

(** * Definitions for the statements

    What the statements below are about: the world after an assignment to
    [self], the arguments and the outputs as the specification describes
    them, and the names the library declares. *)

(** The world with the facade replaced. *)
Definition set_self (f : Function) (w : World) : World :=
  {| self := f; kernel_calls := kernel_calls w;
     holders := holders w; next_holder := next_holder w |}.

(** [m] keeps [P]: whatever [m] returns or raises, a world in which [P]
    holds is left in one in which it holds. *)
Definition keeps {A} (P : World → Prop) (m : M A) : Prop :=
  ∀ w, P w → P (m w).2.

(** The bit positions below [n] that are set in [flag], in increasing
    order. *)
Definition set_bits (flag : Z) (a n : nat) : list nat :=
  filter (λ i, Z.testbit flag (Z.of_nat i) = true) (seq a n).

(** The five canonical series names. *)
Definition canonical_series : gset string :=
  {[ "open"; "high"; "low"; "close"; "volume" ]}.

(** The first loop of [__call_function] lists, slot after slot, the
    names each slot is bound to. *)
Definition roles (price_series : pyval) : list pyval :=
  match price_series with
  | PList names => names
  | name => [name]
  end.


(** The effective value of an optional-parameter slot, as
    [__get_opt_input_value] computes it. *)
Definition slot_value (info : OptInputInfo) : result pyval :=
  b ← truthy (opt_value info);
  Ok (if b : bool then opt_value info else opt_default_value info).


(** The slots of a facade, in the order of their declaration. *)
Definition slots (f : Function) : list string * list string * list string :=
  (OD.keys (__input_names f), OD.keys (__opt_inputs f), OD.keys (__outputs f)).

(** Properties of a world that the lemmas on what a method keeps are about:
    a property of the facade alone, the slots being [s], the log of kernel
    calls being [log]. *)
Definition on_self (Q : Function → Prop) (w : World) : Prop := Q (self w).

Definition has_slots (s : list string * list string * list string) (w : World)
  : Prop :=
  slots (self w) = s.

Definition has_log (log : list (string * list pyval)) (w : World) : Prop :=
  kernel_calls w = log.

(** What the kernel returns for a function of [n] output slots: a single
    array when there is one slot, or a sequence of as many items as there
    are slots.  [rs] lists the items. *)
Definition kernel_result_shape (n : nat) (results : pyval) (rs : list pyval) : Prop :=
  (∃ a, results = PArr a ∧ n = 1%nat ∧ rs = [results])
  ∨ (results = PList rs ∧ List.length rs = n).

(** Assigning the items [kvs] one after the other. *)
Definition store_all (d : OD.t pyval) (kvs : list (string * pyval)) : OD.t pyval :=
  foldl (λ d kv, OD.set kv.1 kv.2 d) d kvs.

(** [key] names an optional-parameter slot or an input slot of [f]. *)
Definition declared (f : Function) (key : string) : bool :=
  OD.mem key (__opt_inputs f) || OD.mem key (__input_names f).

(** The named arguments whose name is declared. *)
Definition declared_only (f : Function) (kwargs : list (string * pyval))
  : list (string * pyval) :=
  List.filter (λ kv, declared f kv.1) kwargs.

(** The claim as the specification states it, for a call [m] that is given
    the undeclared name [bad] and the value [v] for the declared optional
    parameter [good]: the call rejects [bad] with an error that names it,
    and [good] is set to [v] all the same. *)
Definition rejects_and_applies (m : M unit) (w : World)
    (bad good : string) (v : pyval) : Prop :=
  (m w).1 = Raise (KeyError (PStr bad))
  ∧ opt_value <$> OD.get good (__opt_inputs (self (m w).2)) = Some v.

(** The body of the loop of [set_function_args] over the named arguments. *)
Definition kwargs_step (update_info : bool) (kv : string * pyval) : M bool :=
  let '(key, value) := kv in
  f ← get_self;
  if OD.mem key (__opt_inputs f)
  then assign_value key value;; mret true
  else if OD.mem key (__input_names f)
  then assign_price_series key value;; mret update_info
  else mret update_info.

(** The first half of [set_function_args], over the positional arguments. *)
Definition positional_args (args : list pyval) : M bool :=
  match args with
  | [] => mret false
  | arg0 :: _ =>
      b ← set_input_arrays arg0;
      f ← get_self;
      for_each_acc (enumerate (OD.keys (__opt_inputs f)))
        (λ update_info '(i, param_name),
           match args !! (i + (if b : bool then 1 else 0))%nat with
           | Some value => assign_value param_name value;; mret true
           | None => mret update_info
           end)
        false
  end.

(** The optional parameter [k] has the value [v]. *)
Definition has_value (k : string) (v : pyval) (w : World) : Prop :=
  opt_value <$> OD.get k (__opt_inputs (self w)) = Some v.

(** The input slot [k] is bound to the series [v]. *)
Definition has_series (k : string) (v : pyval) (w : World) : Prop :=
  in_price_series <$> OD.get k (__input_names (self w)) = Some v.


(** The keys of an [OrderedDict] filled by assigning to the names [names]
    one after the other: each name at the place of its first assignment. *)
Definition add_key (ks : list string) (k : string) : list string :=
  if decide (k ∈ ks) then ks else ks ++ [k].

Definition keys_assigned (names : list string) : list string :=
  foldl add_key [] names.

(** The attributes [__init__] sets before it queries the library. *)
Definition fresh (name : string) : Function :=
  {| __name := name; __info := None;
     __input_arrays := {[ "open" := PNone; "high" := PNone; "low" := PNone;
                          "close" := PNone; "volume" := PNone ]};
     __input_names := []; __opt_inputs := []; __outputs := [];
     __outputs_valid := false |}.

Section Declared.

Variable lib : TALib.

(** The names of the slots of a function, as the library declares them
    and as the three metadata queries publish them. *)
Definition handle_of (function_name : string) : nat :=
  (TA_GetFuncHandle lib function_name).2.

Definition declared_inputs (function_name : string) : list string :=
  let h := handle_of function_name in
  (λ i, input_param_name (ip_paramName (TA_GetInputParameterInfo lib h i).2))
    <$> seq 0 (fi_nbInput (TA_GetFuncInfo lib h).2).

Definition declared_opt_inputs (function_name : string) : list string :=
  let h := handle_of function_name in
  (λ i, opt_input_param_name (oip_paramName (TA_GetOptInputParameterInfo lib h i).2))
    <$> seq 0 (fi_nbOptInput (TA_GetFuncInfo lib h).2).

Definition declared_outputs (function_name : string) : list string :=
  let h := handle_of function_name in
  (λ i, output_param_name (op_paramName (TA_GetOutputParameterInfo lib h i).2))
    <$> seq 0 (fi_nbOutput (TA_GetFuncInfo lib h).2).

End Declared.

(** The flag word that has exactly the bits [bits] set: the bitwise OR of
    the keys [2**i]. *)
Definition flags_of (bits : list nat) : Z :=
  foldr (λ i acc, Z.lor (2 ^ Z.of_nat i) acc) 0 bits.

(** A lookup table that has a label under [2**i] for every [i] below its
    size. *)
Definition dense (table : gmap Z string) : Prop :=
  ∀ i, (i < size table)%nat → is_Some (table !! (2 ^ Z.of_nat i)).

(** The parts of the world a method of the facade that calls no kernel
    and takes no holder leaves as they are. *)
Definition untouched (w0 w : World) : Prop :=
  kernel_calls w = kernel_calls w0
  ∧ holders w = holders w0
  ∧ next_holder w = next_holder w0.

(** A Python number. *)
Definition is_number (v : pyval) : bool :=
  match v with PInt _ | PFloat _ => true | _ => false end.

(** The input arrays of a facade that was given none. *)
Definition no_arrays : gmap string pyval :=
  {[ "open" := PNone; "high" := PNone; "low" := PNone;
     "close" := PNone; "volume" := PNone ]}.

(** The defaults of the optional parameters, slot by slot. *)
Definition default_parameters (f : Function) : OD.t pyval :=
  (λ kv : string * OptInputInfo, (kv.1, opt_default_value kv.2)) <$> __opt_inputs f.

(** What the constructor and [run] do with their [input_arrays]: nothing
    for a value that is false, and [set_input_arrays], whose answer is
    dropped, for one that is true. *)
Definition offer_input_arrays (input_arrays : pyval) : M unit :=
  b ← lift (truthy input_arrays);
  if b : bool then set_input_arrays input_arrays;; mret tt else mret tt.

(** The attributes of a facade on which nothing was set or computed: no
    result is stored, no parameter has a value, and every default is a
    number. *)
Definition pristine (f : Function) : Prop :=
  __outputs_valid f = false
  ∧ Forall (λ kv, kv.2 = PNone) (__outputs f)
  ∧ Forall (λ kv, opt_value kv.2 = PNone ∧ is_number (opt_default_value kv.2) = true)
           (__opt_inputs f).

(** The input arrays a construction leaves: the dict it was given when
    that is a dict of the five series, and no array otherwise. *)
Definition arrays_given (input_arrays : pyval) : gmap string pyval :=
  match input_arrays with
  | PDict d => if decide (dom d = canonical_series) then d else no_arrays
  | _ => no_arrays
  end.

(** What identifies a facade: its function, the entries of its info dict
    other than the parameters, and the description of each optional
    parameter, whatever value it is given. *)
Definition frozen_info (i : InfoDict)
  : string * string * string * option (list string) * OD.t pyval * list string :=
  (info_name i, info_group i, info_display_name i, info_flags i,
   info_input_names i, info_output_names i).

Definition identity (f : Function)
  : string * option (string * string * string * option (list string)
                     * OD.t pyval * list string)
    * OD.t OptInputInfo :=
  (__name f, frozen_info <$> __info f,
   (λ kv : string * OptInputInfo, (kv.1, with_value PNone kv.2)) <$> __opt_inputs f).

(** [set_input_arrays] takes the value: it is a dict of the five series. *)
Definition accepted (input_arrays : pyval) : bool :=
  match input_arrays with
  | PDict d => bool_decide (dom d = canonical_series)
  | _ => false
  end.

(** The number of positional arguments that [set_function_args] does not
    read as parameter values: one when the first is taken for the input
    arrays. *)
Definition skip_first (args : list pyval) : nat :=
  match args with
  | arg0 :: _ => if accepted arg0 then 1 else 0
  | [] => 0
  end.



(** The number a Python value stands for. *)
Definition number_value (v : pyval) : option Q :=
  match v with
  | PInt z => Some (inject_Z z)
  | PFloat q => Some q
  | _ => None
  end.

(** The body the two queries of the tables share: allocate, copy the
    strings, release. *)
Definition read_table (alloc_name : string) (alloc : Z * TA_StringTable)
    (free_name : string) (free : option TA_StringTable → Z) (h : TableHeap)
  : result (list string) * TableHeap :=
  let '(retCode, t) := alloc in
  match _ta_check_success alloc_name retCode with
  | Raise e => (Raise e, h)
  | Ok _ =>
      let table := next_table h in
      let h := {| tables := <[table := t]> (tables h); next_table := S table |} in
      let groups := foldl (λ groups i, groups ++ [st_string t i]) [] (seq 0 (st_size t)) in
      match _ta_check_success free_name (free (tables h !! table)) with
      | Raise e => (Raise e, h)
      | Ok _ =>
          (Ok groups, {| tables := delete table (tables h); next_table := next_table h |})
      end
  end.

(** * Properties *)

(** Closed facts about the small library are settled by running the
    model. *)
Ltac split_all := repeat match goal with |- _ ∧ _ => split end.
Ltac by_running :=
  intros; split_all; vm_compute; first [reflexivity | by eexists].

(** ** Strings *)

Module PyStrFacts.
Import PyStr.

Lemma replace_from_no_occurrence old new s :
  contains old s = false → replace_from old new 0 s = s.
Proof.
  induction s as [|c s IH]; [done|].
  cbn [contains replace_from]. intros [Hp Hc]%orb_false_iff.
  cbn [String.prefix] in Hp |- *.
  rewrite Hp. by rewrite (IH Hc).
Qed.

Lemma replace_no_occurrence old new s :
  contains old s = false → replace old new s = s.
Proof. apply replace_from_no_occurrence. Qed.



End PyStrFacts.

(** ** Slot names *)

(** C10.  An input slot whose raw name, once the two characters of the in
    prefix are dropped and the rest is lower-cased, contains price and not
    real is published as the literal prices, whatever else the raw name
    holds: inPriceOHLC gives prices and not priceohlc.  The substitution of
    price for real is made on the names that contain real and on no other:
    a name with neither is published as it is, and on a name without real
    the substitution would change nothing. *)
Theorem input_slot_name_prices (paramName : string) :
  let name := PyStr.lower (PyStr.slice_from 2 paramName) in
  (PyStr.contains "price" name = true → PyStr.contains "real" name = false →
     input_param_name paramName = "prices")
  ∧ (input_param_name "inPriceOHLC" = "prices"
     ∧ PyStr.lower (PyStr.slice_from 2 "inPriceOHLC") = "priceohlc")
  ∧ (PyStr.contains "real" name = true →
     input_param_name paramName = PyStr.replace "real" "price" name)
  ∧ (PyStr.contains "real" name = false → PyStr.contains "price" name = false →
     input_param_name paramName = name)
  ∧ (PyStr.contains "real" name = false →
     PyStr.replace "real" "price" name = name).
Proof.
  intros name. unfold input_param_name. change (String.length "in") with 2%nat.
  fold name. repeat split.
  - intros Hp Hr. by rewrite Hr, Hp.
  - intros Hr. by rewrite Hr.
  - intros Hr Hp. by rewrite Hr, Hp.
  - intros Hr. by apply PyStrFacts.replace_no_occurrence.
Qed.

(** The raw names inPriceOHLC and inReal0. *)
Lemma input_slot_name_prices_witness :
  PyStr.contains "price" "priceohlc" = true
  ∧ PyStr.contains "real" "priceohlc" = false
  ∧ input_param_name "inPriceOHLC" = "prices"
  ∧ input_param_name "inReal0" = "price0".
Proof.
  destruct (input_slot_name_prices "inPriceOHLC") as (Hprices & _).
  destruct (input_slot_name_prices "inReal0") as (_ & _ & Hreal & _).
  split; [vm_compute; reflexivity|]. split; [vm_compute; reflexivity|].
  split; [apply Hprices; vm_compute; reflexivity|].
  rewrite Hreal; vm_compute; reflexivity.
Defined.



(** ** The flag decoder *)

Section FlagDecoder.

(** The test [2**i & flag] of the loop is the test of bit [i]. *)
Lemma land_pow2_testbit (flag : Z) (i : nat) :
  negb (Z.land (2 ^ Z.of_nat i) flag =? 0) = Z.testbit flag (Z.of_nat i).
Proof.
  assert (Z.land (2 ^ Z.of_nat i) flag
          = if Z.testbit flag (Z.of_nat i) then 2 ^ Z.of_nat i else 0) as ->.
  { apply Z.bits_inj'. intros n Hn.
    rewrite Z.land_spec, Z.pow2_bits_eqb by lia.
    destruct (Z.eqb_spec (Z.of_nat i) n) as [<-|Hne].
    - destruct (Z.testbit flag (Z.of_nat i)); cbn.
      + by rewrite Z.pow2_bits_true by lia.
      + by rewrite Z.bits_0.
    - cbn. destruct (Z.testbit flag (Z.of_nat i)).
      + rewrite Z.pow2_bits_false by lia. done.
      + by rewrite Z.bits_0. }
  destruct (Z.testbit flag (Z.of_nat i)); cbn; [|done].
  assert (0 < 2 ^ Z.of_nat i) by (apply Z.pow_pos_nonneg; lia).
  destruct (Z.eqb_spec (2 ^ Z.of_nat i) 0); [lia|done].
Qed.

Lemma set_bits_S flag a n :
  set_bits flag a (S n)
  = if Z.testbit flag (Z.of_nat a) then a :: set_bits flag (S a) n
    else set_bits flag (S a) n.
Proof.
  unfold set_bits. cbn [seq]. rewrite filter_cons.
  destruct (Z.testbit flag (Z.of_nat a)); by case_decide.
Qed.

Lemma set_bits_sorted flag a n : StronglySorted lt (set_bits flag a n).
Proof.
  revert a. induction n as [|n IH]; intros a; [constructor|].
  rewrite set_bits_S. destruct (Z.testbit flag (Z.of_nat a)); [|apply IH].
  constructor; [apply IH|].
  apply Forall_forall. intros x [_ Hx]%list_elem_of_filter.
  apply elem_of_seq in Hx. lia.
Qed.

Lemma elem_of_set_bits flag n i :
  i ∈ set_bits flag 0 n ↔ (i < n)%nat ∧ Z.testbit flag (Z.of_nat i) = true.
Proof.
  unfold set_bits. rewrite list_elem_of_filter, elem_of_seq. intuition lia.
Qed.

(** The loop appends the label of every set bit it passes, as long as the
    table has a label for each position it is asked about. *)
Lemma get_flags_loop_dense flag (d : gmap Z string) n : ∀ a ret,
  (∀ i, (a ≤ i < a + n)%nat → is_Some (d !! (2 ^ Z.of_nat i))) →
  ∃ labels,
    get_flags_loop flag d (seq a n) ret = Ok (ret ++ labels)
    ∧ Forall2 (λ i label, d !! (2 ^ Z.of_nat i) = Some label)
              (set_bits flag a n) labels.
Proof.
  induction n as [|n IH]; intros a ret Hd.
  - exists []. split; [by rewrite app_nil_r|constructor].
  - cbn [seq get_flags_loop]. rewrite land_pow2_testbit, set_bits_S.
    destruct (Z.testbit flag (Z.of_nat a)) eqn:Hbit.
    + destruct (Hd a ltac:(lia)) as [label Hlabel]. rewrite Hlabel.
      destruct (IH (S a) (ret ++ [label])) as (labels & Hloop & Hall).
      { intros i Hi. apply Hd. lia. }
      exists (label :: labels). split.
      * rewrite Hloop. by rewrite <- app_assoc.
      * by constructor.
    + apply IH. intros i Hi. apply Hd. lia.
Qed.

End FlagDecoder.




(** ** The order [sorted] sorts by *)

Module PyStrOrder.
Import PyStr.

Lemma ascii_compare_trans_lt a b c :
  Ascii.compare a b = Lt → Ascii.compare b c = Lt → Ascii.compare a c = Lt.
Proof.
  unfold Ascii.compare. rewrite !N.compare_lt_iff. apply N.lt_trans.
Qed.

Lemma compare_trans_lt s1 : ∀ s2 s3,
  String.compare s1 s2 = Lt → String.compare s2 s3 = Lt →
  String.compare s1 s3 = Lt.
Proof.
  induction s1 as [|a s1 IH]; intros [|b s2] [|c s3]; cbn; try done.
  destruct (Ascii.compare a b) eqn:Hab; [|clear IH|done].
  - apply Ascii.compare_eq_iff in Hab as ->.
    destruct (Ascii.compare b c); [apply IH|done|done].
  - destruct (Ascii.compare b c) eqn:Hbc; [|intros _ _|done].
    + apply Ascii.compare_eq_iff in Hbc as <-. by rewrite Hab.
    + by rewrite (ascii_compare_trans_lt a b c).
Qed.

#[export] Instance le_trans : Transitive le.
Proof.
  intros s1 s2 s3. unfold le, String.leb.
  destruct (String.compare s1 s2) eqn:H12; [|intros _|done].
  - by apply String.compare_eq_iff in H12 as ->.
  - destruct (String.compare s2 s3) eqn:H23; [|intros _|done].
    + apply String.compare_eq_iff in H23 as <-. by rewrite H12.
    + by rewrite (compare_trans_lt s1 s2 s3).
Qed.

#[export] Instance le_antisym : AntiSymm eq le.
Proof.
  intros s1 s2 H1%Is_true_eq_true H2%Is_true_eq_true.
  by apply String.leb_antisym.
Qed.

#[export] Instance le_total : Total le.
Proof.
  intros s1 s2. unfold le.
  destruct (String.leb_total s1 s2) as [->| ->]; [by left|by right].
Qed.

(** [sorted(keys) == l] for a list [l] that is sorted and without
    repetition says that the keys are those of [l]. *)
Lemma sorted_eq_iff (keys l : list string) :
  NoDup keys → NoDup l → Sorted le l →
  sorted keys = l ↔ (∀ k, k ∈ keys ↔ k ∈ l).
Proof.
  intros Hkeys Hl Hsorted. unfold sorted. split.
  - intros <- k. by rewrite merge_sort_Permutation.
  - intros Hsame. apply (Sorted_unique le); [|done|].
    + apply Sorted_merge_sort, _.
    + rewrite merge_sort_Permutation. by apply NoDup_Permutation.
Qed.

End PyStrOrder.

(** ** Running a method *)

Section Running.

Context {A B : Type}.

Lemma bind_ok (m : M A) (k : A → M B) w a w' :
  m w = (Ok a, w') → (m ≫= k) w = k a w'.
Proof. unfold mbind, M_bind. by intros ->. Qed.

Lemma bind_raise (m : M A) (k : A → M B) w e w' :
  m w = (Raise e, w') → (m ≫= k) w = (Raise e, w').
Proof. unfold mbind, M_bind. by intros ->. Qed.

Lemma keeps_bind P (m : M A) (k : A → M B) :
  keeps P m → (∀ a, keeps P (k a)) → keeps P (m ≫= k).
Proof.
  intros Hm Hk w HP. unfold mbind, M_bind.
  specialize (Hm w HP). destruct (m w) as [[a|e] w']; [by apply Hk|done].
Qed.

End Running.

Section Keeps.

Context (P : World → Prop).

Lemma keeps_ret {A} (a : A) : keeps P (mret a).
Proof. by intros w. Qed.

Lemma keeps_raise {A} e : keeps P (@raise A e).
Proof. by intros w. Qed.

Lemma keeps_lift {A} (r : result A) : keeps P (lift r).
Proof. by intros w. Qed.

Lemma keeps_get_self : keeps P get_self.
Proof. by intros w. Qed.

Lemma keeps_modify_self g :
  (∀ w, P w → P (set_self (g (self w)) w)) → keeps P (modify_self g).
Proof. intros H w. apply H. Qed.

Lemma keeps_for_each {A} (l : list A) body :
  (∀ x, x ∈ l → keeps P (body x)) → keeps P (for_each l body).
Proof.
  induction l as [|x l IH]; intros Hbody; [apply keeps_ret|].
  cbn [for_each]. apply keeps_bind; [apply Hbody; set_solver|].
  intros _. apply IH. intros y Hy. apply Hbody. set_solver.
Qed.

Lemma keeps_for_each_acc {A S} (l : list A) (body : S → A → M S) :
  (∀ s x, x ∈ l → keeps P (body s x)) → ∀ s, keeps P (for_each_acc l body s).
Proof.
  induction l as [|x l IH]; intros Hbody s; [apply keeps_ret|].
  cbn [for_each_acc]. apply keeps_bind; [apply Hbody; set_solver|].
  intros s'. apply IH. intros s'' y Hy. apply Hbody. set_solver.
Qed.

Lemma keeps_if {A} (b : bool) (m1 m2 : M A) :
  keeps P m1 → keeps P m2 → keeps P (if b then m1 else m2).
Proof. by destruct b. Qed.

End Keeps.

(** ** Ordered dictionaries *)

Module ODFacts.
Import OD.

Section WithV.
Context {V : Type}.
Implicit Types (d : t V) (k : string) (v : V).

Lemma get_is_Some k d : is_Some (get k d) ↔ k ∈ keys d.
Proof.
  induction d as [|[k' v'] d IH]; cbn.
  - split; [by intros [? ?]|by intros ?%elem_of_nil].
  - case_decide as Hk; [subst; split; [set_solver|by eexists]|].
    rewrite IH. unfold keys. set_solver.
Qed.

Lemma mem_keys k d : mem k d = bool_decide (k ∈ keys d).
Proof. unfold mem. apply bool_decide_ext, get_is_Some. Qed.

(** Assigning to a key that is present keeps every key in its place. *)
Lemma keys_set_present k v d : k ∈ keys d → keys (set k v d) = keys d.
Proof.
  induction d as [|[k' v'] d IH]; cbn; [by intros ?%elem_of_nil|].
  case_decide as Hk; [by subst|].
  intros Hin. cbn. f_equal. apply IH. unfold keys in *. set_solver.
Qed.

(** Assigning to a new key appends it. *)
Lemma keys_set_absent k v d : k ∉ keys d → keys (set k v d) = keys d ++ [k].
Proof.
  induction d as [|[k' v'] d IH]; cbn; [done|].
  case_decide as Hk; [subst; set_solver|].
  intros Hin. cbn. f_equal. apply IH. unfold keys in *. set_solver.
Qed.

Lemma keys_set_NoDup k v d : NoDup (keys d) → NoDup (keys (set k v d)).
Proof.
  intros Hd. destruct (decide (k ∈ keys d)) as [Hin|Hin].
  - by rewrite keys_set_present.
  - rewrite keys_set_absent by done. apply NoDup_app.
    split; [done|]. split; [|apply NoDup_singleton]. set_solver.
Qed.

Lemma length_set_present k v d :
  k ∈ keys d → List.length (set k v d) = List.length d.
Proof.
  intros Hin.
  assert (List.length (keys (set k v d)) = List.length (keys d)) as Hlen
    by (by rewrite keys_set_present).
  unfold keys in Hlen. by rewrite !length_fmap in Hlen.
Qed.

Lemma get_set_eq k v d : get k (set k v d) = Some v.
Proof.
  induction d as [|[k' v'] d IH]; cbn; [by case_decide|].
  case_decide as Hk; cbn; by case_decide.
Qed.

Lemma get_set_ne k k' v d : k ≠ k' → get k (set k' v d) = get k d.
Proof.
  intros Hne. induction d as [|[k'' v''] d IH]; cbn; [by case_decide|].
  case_decide as Hk; cbn; repeat case_decide; congruence.
Qed.

Lemma getitem_present k d : k ∈ keys d → ∃ v, getitem k d = Ok v ∧ get k d = Some v.
Proof.
  intros [v Hv]%get_is_Some. exists v. unfold getitem. by rewrite Hv.
Qed.

Lemma getitem_absent k d : k ∉ keys d → getitem k d = Raise (KeyError (PStr k)).
Proof.
  intros Hk. unfold getitem. destruct (get k d) eqn:Hget; [|done].
  exfalso. apply Hk, get_is_Some. by eexists.
Qed.

(** Without a repeated key, the value under the key of an item is the
    value of the item. *)
Lemma get_item d1 k v d2 :
  k ∉ keys d1 → get k (d1 ++ (k, v) :: d2) = Some v.
Proof.
  induction d1 as [|[k' v'] d1 IH]; cbn; [by case_decide|].
  intros Hk. case_decide; [subst; set_solver|]. apply IH. set_solver.
Qed.

End WithV.
End ODFacts.

(** ** Equations for running a method *)

Section RunEquations.

Context {A B : Type} (k : A → M B) (w : World).

Lemma run_ret a : (mret a ≫= k) w = k a w.
Proof. reflexivity. Qed.

Lemma run_raise e : (raise e ≫= k) w = (Raise e, w).
Proof. reflexivity. Qed.

Lemma run_lift_ok a : (lift (Ok a) ≫= k) w = k a w.
Proof. reflexivity. Qed.

Lemma run_lift_raise e : (lift (Raise e) ≫= k) w = (Raise e, w).
Proof. reflexivity. Qed.

End RunEquations.

Lemma run_get_self {B} (k : Function → M B) w : (get_self ≫= k) w = k (self w) w.
Proof. reflexivity. Qed.

Lemma run_modify_self {B} g (k : unit → M B) w :
  (modify_self g ≫= k) w = k tt (set_self (g (self w)) w).
Proof. reflexivity. Qed.

Lemma modify_self_eq g w : modify_self g w = (Ok tt, set_self (g (self w)) w).
Proof. reflexivity. Qed.

Lemma set_self_self w : set_self (self w) w = w.
Proof. by destruct w. Qed.

(** ** C4: the input arrays *)

Lemma sorted_keys_canonical (d : gmap string pyval) :
  PyStr.sorted (map_to_list d).*1 = ["close"; "high"; "low"; "open"; "volume"]
  ↔ dom d = canonical_series.
Proof.
  rewrite PyStrOrder.sorted_eq_iff.
  - unfold canonical_series. rewrite set_eq. apply forall_proper. intros k.
    assert (k ∈ (map_to_list d).*1 ↔ k ∈ dom d) as ->.
    { rewrite elem_of_dom, list_elem_of_fmap. split.
      - intros ([k' v] & -> & Hkv%elem_of_map_to_list). by eexists.
      - intros [v Hv]. exists (k, v). by rewrite elem_of_map_to_list. }
    set_solver.
  - apply NoDup_fst_map_to_list.
  - apply (bool_decide_unpack _). by vm_compute.
  - repeat constructor; by vm_compute.
Qed.



(** ** C1: the arguments of the kernel *)

Section MapR.

Context {A B : Type} (f : A → result B).


Lemma mapR_ext_in (g : A → result B) l :
  (∀ x, x ∈ l → f x = g x) → mapR f l = mapR g l.
Proof.
  induction l as [|x l IH]; intros Hfg; cbn; [done|].
  rewrite (Hfg x), IH; [done| |]; set_solver.
Qed.


End MapR.

Section Arguments.

Lemma input_price_series_names_concat f :
  input_price_series_names f
  = List.concat ((λ info, roles (in_price_series info)) <$> OD.values (__input_names f)).
Proof.
  unfold input_price_series_names, OD.values.
  assert (∀ (l : list pyval) acc, foldl (λ names name, names ++ [name]) acc l = acc ++ l)
    as Happend.
  { induction l as [|x l IH]; intros acc; cbn; [by rewrite app_nil_r|].
    by rewrite IH, <- app_assoc. }
  assert (∀ (d : OD.t InputInfo) acc,
            foldl (λ (names : list pyval) (kv : string * InputInfo),
                     match in_price_series kv.2 with
                     | PList price_series =>
                         foldl (λ names name, names ++ [name]) names price_series
                     | price_series => names ++ [price_series]
                     end) acc d
            = acc ++ List.concat ((λ info, roles (in_price_series info)) <$> d.*2))
    as Hloop.
  { induction d as [|[k info] d IH]; intros acc; cbn.
    - by rewrite app_nil_r.
    - rewrite IH, app_assoc. f_equal.
      destruct (in_price_series info); cbn; first [done|apply Happend]. }
  apply (Hloop _ []).
Qed.



Lemma mapR_fmap {A B C} (g : A → B) (f : B → result C) l :
  mapR f (g <$> l) = mapR (f ∘ g) l.
Proof. induction l as [|x l IH]; cbn; [done|]. by rewrite IH. Qed.



End Arguments.

(** ** What the calls keep *)

Lemma elem_of_enumerate {A} (l : list A) i x :
  (i, x) ∈ enumerate l → x ∈ l.
Proof.
  unfold enumerate. intros (j & Hj)%list_elem_of_lookup_1.
  apply lookup_zip_with_Some in Hj as (i' & x' & [= -> ->] & _ & Hx).
  by eapply list_elem_of_lookup_2.
Qed.

Lemma slots_opt_keys f1 f2 :
  slots f1 = slots f2 → OD.keys (__opt_inputs f1) = OD.keys (__opt_inputs f2).
Proof. intros H. exact (f_equal (λ s, s.1.2) H). Qed.

Lemma slots_input_keys f1 f2 :
  slots f1 = slots f2 → OD.keys (__input_names f1) = OD.keys (__input_names f2).
Proof. intros H. exact (f_equal (λ s, s.1.1) H). Qed.

Lemma slots_output_keys f1 f2 :
  slots f1 = slots f2 → OD.keys (__outputs f1) = OD.keys (__outputs f2).
Proof. intros H. exact (f_equal (λ s, s.2) H). Qed.

Section KeepsSelf.

(** A property of the facade alone. *)
Context (Q : Function → Prop).
Lemma keeps_modify_self_Q g :
  (∀ f, Q f → Q (g f)) → keeps (on_self Q) (modify_self g).
Proof. intros Hg w. apply Hg. Qed.

Lemma keeps_untouched {A} (m : M A) :
  (∀ w, self (m w).2 = self w) → keeps (on_self Q) m.
Proof. intros Hm w. unfold on_self. by rewrite Hm. Qed.

Variable lib : TALib.

Lemma keeps_call_kernel name args : keeps (on_self Q) (call_kernel lib name args).
Proof. by apply keeps_untouched. Qed.

Lemma keeps_paramHolderAlloc name : keeps (on_self Q) (__ta_paramHolderAlloc lib name).
Proof.
  apply keeps_bind; [apply keeps_lift|]. intros handle.
  apply keeps_untouched. intros w. cbn.
  by destruct (_ta_check_success _ (TA_ParamHolderAlloc lib handle)).
Qed.

Lemma keeps_paramHolderFree h : keeps (on_self Q) (__ta_paramHolderFree lib h).
Proof.
  apply keeps_untouched. intros w. unfold __ta_paramHolderFree.
  by destruct (_ta_check_success _ _).
Qed.

Lemma keeps_set_opt_input_param native n h i v :
  keeps (on_self Q) (set_opt_input_param native n h i v).
Proof.
  apply keeps_untouched. intros w. unfold set_opt_input_param.
  by destruct (_ta_check_success _ _).
Qed.

Lemma keeps_getLookback h : keeps (on_self Q) (__ta_getLookback lib h).
Proof.
  apply keeps_untouched. intros w. unfold __ta_getLookback.
  destruct (TA_GetLookback _ _). by destruct (_ta_check_success _ _).
Qed.

End KeepsSelf.

Section KeepsSlots.

Variable lib : TALib.
Variable s : list string * list string * list string.
Lemma keeps_slots_modify g :
  (∀ f, OD.keys (__input_names (g f)) = OD.keys (__input_names f)
        ∧ OD.keys (__opt_inputs (g f)) = OD.keys (__opt_inputs f)
        ∧ OD.keys (__outputs (g f)) = OD.keys (__outputs f)) →
  keeps (has_slots s) (modify_self g).
Proof.
  intros Hg w. unfold has_slots, slots. cbn. intros <-.
  destruct (Hg (self w)) as (-> & -> & ->). done.
Qed.

Lemma keeps_slots_assign_value k v : keeps (has_slots s) (assign_value k v).
Proof.
  intros w HP. unfold assign_value. rewrite run_get_self.
  destruct (decide (k ∈ OD.keys (__opt_inputs (self w)))) as [Hin|Hin].
  - destruct (ODFacts.getitem_present k _ Hin) as (info & -> & _).
    rewrite run_lift_ok, modify_self_eq. unfold has_slots, slots in *.
    cbn [snd self set_self with_opt_inputs with_input_names
         __input_names __opt_inputs __outputs].
    by rewrite ODFacts.keys_set_present.
  - by rewrite (ODFacts.getitem_absent k _ Hin), run_lift_raise.
Qed.

Lemma keeps_slots_assign_price_series k v : keeps (has_slots s) (assign_price_series k v).
Proof.
  intros w HP. unfold assign_price_series. rewrite run_get_self.
  destruct (decide (k ∈ OD.keys (__input_names (self w)))) as [Hin|Hin].
  - destruct (ODFacts.getitem_present k _ Hin) as (info & -> & _).
    rewrite run_lift_ok, modify_self_eq. unfold has_slots, slots in *.
    cbn [snd self set_self with_opt_inputs with_input_names
         __input_names __opt_inputs __outputs].
    by rewrite ODFacts.keys_set_present.
  - by rewrite (ODFacts.getitem_absent k _ Hin), run_lift_raise.
Qed.

Lemma keeps_slots_assign_output k v : k ∈ s.2 → keeps (has_slots s) (assign_output k v).
Proof.
  intros Hk w HP. unfold assign_output. rewrite modify_self_eq.
  unfold has_slots, slots in *.
  cbn [snd self set_self with_outputs __input_names __opt_inputs __outputs].
  rewrite ODFacts.keys_set_present; [done|]. by rewrite <- HP in Hk.
Qed.

Lemma keeps_slots_update_info_parameters : keeps (has_slots s) update_info_parameters.
Proof.
  apply keeps_bind; [apply keeps_get_self|]. intros f.
  apply keeps_bind; [apply keeps_lift|]. intros ps.
  by apply keeps_slots_modify.
Qed.

Lemma keeps_slots_set_input_names ns : keeps (has_slots s) (set_input_names ns).
Proof.
  apply keeps_bind; [|intros _; by apply keeps_slots_modify].
  apply keeps_for_each. intros [k v] _. apply keeps_slots_assign_price_series.
Qed.

Lemma keeps_slots_set_input_arrays v : keeps (has_slots s) (set_input_arrays v).
Proof.
  destruct v; try apply keeps_ret. unfold set_input_arrays.
  apply keeps_if; [|apply keeps_ret].
  apply keeps_bind; [by apply keeps_slots_modify|]. intros _.
  apply keeps_bind; [by apply keeps_slots_modify|]. intros _. apply keeps_ret.
Qed.

Lemma keeps_slots_set_parameters ps : keeps (has_slots s) (set_parameters ps).
Proof.
  apply keeps_bind.
  - apply keeps_for_each. intros [k v] _. apply keeps_slots_assign_value.
  - intros _. apply keeps_bind; [by apply keeps_slots_modify|].
    intros _. apply keeps_slots_update_info_parameters.
Qed.

Lemma keeps_slots_set_function_args args kwargs :
  keeps (has_slots s) (set_function_args args kwargs).
Proof.
  unfold set_function_args. apply keeps_bind.
  { destruct args as [|arg0 args]; [apply keeps_ret|].
    apply keeps_bind; [apply keeps_slots_set_input_arrays|]. intros b.
    apply keeps_bind; [apply keeps_get_self|]. intros f.
    apply keeps_for_each_acc. intros u [i k] _.
    destruct (_ !! _); [|apply keeps_ret].
    apply keeps_bind; [apply keeps_slots_assign_value|]. intros _. apply keeps_ret. }
  intros u. apply keeps_bind.
  { apply keeps_for_each_acc. intros u' [k v] _.
    apply keeps_bind; [apply keeps_get_self|]. intros f.
    apply keeps_if.
    - apply keeps_bind; [apply keeps_slots_assign_value|]. intros _. apply keeps_ret.
    - apply keeps_if; [|apply keeps_ret].
      apply keeps_bind; [apply keeps_slots_assign_price_series|].
      intros _. apply keeps_ret. }
  intros u'. apply keeps_if; [|apply keeps_ret].
  apply keeps_bind; [|intros _; by apply keeps_slots_modify].
  apply keeps_if; [apply keeps_slots_update_info_parameters|apply keeps_ret].
Qed.

Lemma keeps_slots_store_results results : keeps (has_slots s) (store_results results).
Proof.
  intros w HP. unfold store_results. rewrite run_get_self.
  assert (OD.keys (__outputs (self w)) = s.2) as Hout by (by rewrite <- HP).
  lazymatch goal with
  | |- has_slots s (?m w).2 => enough (keeps (has_slots s) m) as Hkeeps by exact (Hkeeps w HP)
  end.
  assert (keeps (has_slots s) (for_each (enumerate (OD.keys (__outputs (self w))))
            (λ '(i, output), r ← lift (py_index results i);
                             assign_output output r))) as Hloop.
  { apply keeps_for_each. intros [i k] Hk%elem_of_enumerate.
    apply keeps_bind; [apply keeps_lift|]. intros r.
    apply keeps_slots_assign_output. by rewrite <- Hout. }
  destruct results; try exact Hloop.
  destruct (OD.keys (__outputs (self w))) as [|k ks] eqn:Hks; [apply keeps_raise|].
  apply keeps_slots_assign_output. rewrite <- Hout. set_solver.
Qed.

Lemma keeps_slots_call_function : keeps (has_slots s) (__call_function lib).
Proof.
  apply keeps_bind; [apply keeps_get_self|]. intros f.
  apply keeps_bind; [apply keeps_lift|]. intros args.
  apply keeps_bind; [apply (keeps_call_kernel (λ f, slots f = s))|].
  intros results.
  apply keeps_bind; [apply keeps_slots_store_results|].
  intros _. by apply keeps_slots_modify.
Qed.

Lemma keeps_slots_outputs : keeps (has_slots s) (outputs lib).
Proof.
  apply keeps_bind; [apply keeps_get_self|]. intros f.
  apply keeps_bind.
  - apply keeps_if; [apply keeps_slots_call_function|apply keeps_ret].
  - intros _. apply keeps_bind; [apply keeps_get_self|]. intros f'.
    destruct (OD.values _) as [|? [|? ?]]; apply keeps_ret.
Qed.

Lemma keeps_slots_run v : keeps (has_slots s) (run lib v).
Proof.
  apply keeps_bind; [apply keeps_lift|]. intros b.
  apply keeps_bind.
  - apply keeps_if; [|apply keeps_ret].
    apply keeps_bind; [apply keeps_slots_set_input_arrays|].
    intros _. apply keeps_ret.
  - intros _. apply keeps_bind; [apply keeps_slots_call_function|].
    intros _. apply keeps_slots_outputs.
Qed.

Lemma keeps_slots_call args kwargs : keeps (has_slots s) (__call__ lib args kwargs).
Proof.
  apply keeps_bind; [apply keeps_slots_set_function_args|]. intros _.
  apply keeps_bind; [apply keeps_slots_call_function|].
  intros _. apply keeps_slots_outputs.
Qed.

Lemma keeps_lookback (Q : Function → Prop) :
  keeps (λ w, Q (self w)) (lookback lib).
Proof.
  apply keeps_bind; [apply keeps_get_self|]. intros f.
  apply keeps_bind; [apply keeps_paramHolderAlloc|]. intros holder.
  apply keeps_bind.
  - apply keeps_for_each. intros [i k] _.
    apply keeps_bind; [apply keeps_lift|]. intros value.
    apply keeps_bind; [apply keeps_lift|]. intros info.
    apply keeps_if; [|apply keeps_if; [|apply keeps_ret]].
    + apply keeps_bind; [apply keeps_lift|]. intros v.
      apply keeps_set_opt_input_param.
    + apply keeps_bind; [apply keeps_lift|]. intros v.
      apply keeps_set_opt_input_param.
  - intros _. apply keeps_bind; [apply keeps_getLookback|]. intros n.
    apply keeps_bind; [apply keeps_paramHolderFree|]. intros _. apply keeps_ret.
Qed.

(** No call changes the slots of the facade or their order. *)
Lemma perform_keeps_slots c w : slots (self w) = s → slots (self (perform lib c w)) = s.
Proof.
  destruct c; cbn [perform].
  - apply keeps_slots_set_input_names.
  - apply keeps_slots_set_input_arrays.
  - apply keeps_slots_set_parameters.
  - apply keeps_slots_set_function_args.
  - apply (keeps_lookback (λ f, slots f = s)).
  - apply keeps_slots_outputs.
  - apply keeps_slots_run.
  - apply keeps_slots_call.
Qed.

End KeepsSlots.

(** ** The log of kernel calls *)

Section KeepsLog.

Variable log : list (string * list pyval).
Lemma keeps_log_modify g : keeps (has_log log) (modify_self g).
Proof. by intros w. Qed.

Lemma keeps_log_store_results results : keeps (has_log log) (store_results results).
Proof.
  apply keeps_bind; [apply keeps_get_self|]. intros f.
  assert (keeps (has_log log) (for_each (enumerate (OD.keys (__outputs f)))
            (λ '(i, output), r ← lift (py_index results i);
                             assign_output output r))) as Hloop.
  { apply keeps_for_each. intros [i k] _.
    apply keeps_bind; [apply keeps_lift|]. intros r. apply keeps_log_modify. }
  destruct results; try exact Hloop.
  destruct (OD.keys (__outputs f)); [apply keeps_raise|apply keeps_log_modify].
Qed.

End KeepsLog.

(** ** C8: the outputs *)

Section StoreResults.

Lemma store_all_head k v d kvs :
  k ∉ kvs.*1 → store_all ((k, v) :: d) kvs = (k, v) :: store_all d kvs.
Proof.
  revert d. induction kvs as [|[k' v'] kvs IH]; intros d Hk; [done|].
  cbn. case_decide; [subst; set_solver|].
  apply IH. set_solver.
Qed.

(** Assigning to every key of a dict without a repeated key, in the order
    of the keys, gives the keys with the values assigned. *)
Lemma store_all_keys d : ∀ vs,
  NoDup (OD.keys d) → List.length vs = List.length d →
  store_all d (zip (OD.keys d) vs) = zip (OD.keys d) vs.
Proof.
  induction d as [|[k v0] d IH]; intros [|v vs] Hnodup Hlen; try done.
  cbn in Hlen. injection Hlen as Hlen. apply NoDup_cons in Hnodup as [Hk Hnodup].
  cbn. case_decide; [|done].
  rewrite store_all_head, IH; [done..|].
  unfold OD.keys in *. rewrite fst_zip; [done|]. rewrite length_fmap. lia.
Qed.

Lemma set_self_outputs_id w :
  set_self (with_outputs (__outputs (self w)) (self w)) w = w.
Proof. by destruct w as [[] ? ? ?]. Qed.

(** The loop of [store_results] over a sequence that has an item for
    every output name. *)
Lemma for_each_store rs ks : ∀ a w,
  (a + List.length ks ≤ List.length rs)%nat →
  for_each (zip (seq a (List.length ks)) ks)
    (λ '(i, output), r ← lift (py_index (PList rs) i); assign_output output r) w
  = (Ok tt,
     set_self (with_outputs (store_all (__outputs (self w)) (zip ks (drop a rs)))
                            (self w)) w).
Proof.
  induction ks as [|k ks IH]; intros a w Hlen.
  - cbn. by rewrite set_self_outputs_id.
  - cbn [List.length seq zip zip_with for_each] in *.
    destruct (lookup_lt_is_Some_2 rs a ltac:(lia)) as [x Hx].
    rewrite (drop_S _ _ _ Hx).
    erewrite bind_ok; last first.
    { unfold py_index. rewrite Hx, run_lift_ok. apply modify_self_eq. }
    rewrite IH by (cbn; lia). done.
Qed.

Lemma store_results_sequence rs w :
  NoDup (OD.keys (__outputs (self w))) →
  List.length rs = List.length (OD.keys (__outputs (self w))) →
  store_results (PList rs) w
  = (Ok tt,
     set_self (with_outputs (zip (OD.keys (__outputs (self w))) rs) (self w)) w).
Proof.
  intros Hnodup Hlen. unfold store_results, enumerate. rewrite run_get_self.
  rewrite for_each_store by lia. rewrite drop_0, store_all_keys; [done..|].
  unfold OD.keys in Hlen. by rewrite length_fmap in Hlen.
Qed.

Lemma store_results_array a k w :
  OD.keys (__outputs (self w)) = [k] →
  store_results (PArr a) w
  = (Ok tt, set_self (with_outputs [(k, PArr a)] (self w)) w).
Proof.
  intros Hk. unfold store_results. rewrite run_get_self, Hk.
  unfold assign_output. rewrite modify_self_eq.
  destruct (__outputs (self w)) as [|[k' v'] [|? ?]]; try done.
  injection Hk as ->. cbn. by case_decide.
Qed.

End StoreResults.

(** C8.  Reading [outputs] on a facade whose cache is invalid calls the
    kernel and, when the kernel answers in the shape of the declared
    output slots, stores each item under its output name, in the order of
    the slots; the facade then returns the single array itself when there
    is one slot, and otherwise the sequence of as many items as there are
    slots, in the order of the slots.  A second read returns the same from
    the cache. *)
Theorem outputs_by_declared_slots (lib : TALib) (w : World)
    (args : list pyval) (results : pyval) (rs : list pyval) :
  NoDup (output_names (self w)) →
  __outputs_valid (self w) = false →
  call_args (self w) = Ok args →
  func_c lib (__name (self w)) args = Ok results →
  kernel_result_shape (List.length (output_names (self w))) results rs →
  ∃ w' ret,
    outputs lib w = (Ok ret, w')
    ∧ outputs lib w' = (Ok ret, w')
    ∧ __outputs (self w') = zip (output_names (self w)) rs
    ∧ List.length rs = List.length (output_names (self w))
    ∧ (∀ a, rs = [a] → ret = a)
    ∧ (List.length rs ≠ 1%nat → ret = PList rs).
Proof.
  unfold output_names. intros Hnodup Hvalid Hargs Hkernel Hshape.
  set (w1 := {| self := self w;
                kernel_calls := kernel_calls w ++ [(__name (self w), args)];
                holders := holders w; next_holder := next_holder w |}).
  assert (List.length rs = List.length (OD.keys (__outputs (self w)))
          ∧ store_results results w1
            = (Ok tt, set_self (with_outputs (zip (OD.keys (__outputs (self w))) rs)
                                             (self w1)) w1))
    as [Hlen Hstore].
  { destruct Hshape as [(a & -> & Hone & ->)|[-> Hlen]].
    - split; [done|].
      destruct (OD.keys (__outputs (self w))) as [|k [|? ?]] eqn:Hk; try done.
      exact (store_results_array a k w1 Hk).
    - split; [done|]. exact (store_results_sequence rs w1 Hnodup Hlen). }
  set (w' := set_self (with_outputs_valid true
               (with_outputs (zip (OD.keys (__outputs (self w))) rs) (self w1))) w1).
  set (ret := match rs with [a] => a | _ => PList rs end).
  assert (OD.values (__outputs (self w')) = rs) as Hvalues.
  { cbn. unfold OD.values. apply snd_zip. lia. }
  assert (outputs lib w' = (Ok ret, w')) as Hread.
  { unfold outputs. rewrite run_get_self.
    change (__outputs_valid (self w')) with true. cbn [negb].
    rewrite run_ret, run_get_self, Hvalues. unfold ret.
    by destruct rs as [|? [|? ?]]. }
  exists w', ret. split; [|split; [exact Hread|]].
  - unfold outputs at 1. rewrite run_get_self, Hvalid. cbn [negb].
    erewrite bind_ok; [exact Hread|].
    unfold __call_function. rewrite run_get_self, Hargs, run_lift_ok.
    erewrite bind_ok; [|unfold call_kernel; by rewrite Hkernel].
    fold w1. erewrite bind_ok; [|exact Hstore]. done.
  - split; [done|]. split; [done|]. unfold ret. split.
    + by intros a ->.
    + by destruct rs as [|? [|? ?]].
Qed.

(** BBANDS has three output slots and STOCH two; SMA has one. *)
Lemma outputs_by_declared_slots_witness :
  let w := (__init__ Demo.lib "bbands" Demo.ohlcv Demo.world0).2 in
  let args := [Demo.arr 4; PInt 5; PInt 2; PInt 2; PInt 0] in
  let out i := PArr (NdArray [inject_Z i; 4%Q; 5%Q; 2%Q; 2%Q; 0%Q]) in
  NoDup (output_names (self w))
  ∧ __outputs_valid (self w) = false
  ∧ call_args (self w) = Ok args
  ∧ func_c Demo.lib (__name (self w)) args = Ok (PList [out 0; out 1; out 2])
  ∧ (outputs Demo.lib w).1 = Ok (PList [out 0; out 1; out 2])
  ∧ __outputs (self (outputs Demo.lib w).2)
    = [("upperband", out 0); ("middleband", out 1); ("lowerband", out 2)].
Proof.
  intros w args out.
  assert (NoDup (output_names (self w))) as Hnodup
    by (apply (bool_decide_unpack _); vm_compute; exact I).
  assert (__outputs_valid (self w) = false) as Hvalid by (vm_compute; reflexivity).
  assert (call_args (self w) = Ok args) as Hargs by (vm_compute; reflexivity).
  assert (func_c Demo.lib (__name (self w)) args = Ok (PList [out 0; out 1; out 2]))
    as Hkernel by (vm_compute; reflexivity).
  do 4 (split; [assumption|]).
  destruct (outputs_by_declared_slots Demo.lib w args _ [out 0; out 1; out 2]
              Hnodup Hvalid Hargs Hkernel)
    as (w' & ret & Hout & _ & Hstored & _ & _ & Hseq).
  { right. split; [reflexivity|vm_compute; reflexivity]. }
  rewrite Hout. cbn [fst snd]. rewrite Hstored, (Hseq ltac:(cbn; lia)).
  split; [reflexivity|]. vm_compute. reflexivity.
Defined.

(** ** C6: names that are not declared *)

Section Assignments.

Lemma assign_value_present k v w :
  k ∈ OD.keys (__opt_inputs (self w)) →
  ∃ info,
    OD.get k (__opt_inputs (self w)) = Some info
    ∧ assign_value k v w
      = (Ok tt,
         set_self (with_opt_inputs
                     (OD.set k (with_value v info) (__opt_inputs (self w)))
                     (self w)) w).
Proof.
  intros Hk. destruct (ODFacts.getitem_present k _ Hk) as (info & Hitem & Hget).
  exists info. split; [done|]. unfold assign_value.
  by rewrite run_get_self, Hitem, run_lift_ok, modify_self_eq.
Qed.

Lemma assign_value_absent k v w :
  k ∉ OD.keys (__opt_inputs (self w)) →
  assign_value k v w = (Raise (KeyError (PStr k)), w).
Proof.
  intros Hk. unfold assign_value.
  by rewrite run_get_self, (ODFacts.getitem_absent k _ Hk), run_lift_raise.
Qed.

Lemma assign_price_series_present k v w :
  k ∈ OD.keys (__input_names (self w)) →
  ∃ info,
    OD.get k (__input_names (self w)) = Some info
    ∧ assign_price_series k v w
      = (Ok tt,
         set_self (with_input_names
                     (OD.set k (with_price_series v info) (__input_names (self w)))
                     (self w)) w).
Proof.
  intros Hk. destruct (ODFacts.getitem_present k _ Hk) as (info & Hitem & Hget).
  exists info. split; [done|]. unfold assign_price_series.
  by rewrite run_get_self, Hitem, run_lift_ok, modify_self_eq.
Qed.

End Assignments.

Section UndeclaredNames.

Lemma bind_ext {A B} (m : M A) (k1 k2 : A → M B) w :
  (∀ a w', m w = (Ok a, w') → k1 a w' = k2 a w') →
  (m ≫= k1) w = (m ≫= k2) w.
Proof.
  intros Hk. unfold mbind, M_bind.
  destruct (m w) as [[a|e] w'] eqn:Hm; [by apply Hk|done].
Qed.

Lemma bind_congr {A B} (m1 m2 : M A) (k1 k2 : A → M B) w :
  m1 w = m2 w → (∀ a w', k1 a w' = k2 a w') →
  (m1 ≫= k1) w = (m2 ≫= k2) w.
Proof.
  intros Hm Hk. unfold mbind, M_bind. rewrite Hm.
  destruct (m2 w) as [[a|e] w']; [by apply Hk|done].
Qed.

Lemma declared_slots f1 f2 key :
  slots f1 = slots f2 → declared f1 key = declared f2 key.
Proof.
  intros Hs. unfold declared.
  by rewrite !ODFacts.mem_keys, (slots_opt_keys _ _ Hs), (slots_input_keys _ _ Hs).
Qed.

Lemma declared_only_slots f1 f2 kwargs :
  slots f1 = slots f2 → declared_only f1 kwargs = declared_only f2 kwargs.
Proof.
  intros Hs. unfold declared_only. apply List.filter_ext.
  intros [k v]. by apply declared_slots.
Qed.

Lemma keeps_slots_kwargs_step s u kv :
  keeps (λ w, slots (self w) = s) (kwargs_step u kv).
Proof.
  destruct kv as [k v]. apply keeps_bind; [apply keeps_get_self|]. intros f.
  apply keeps_if.
  - apply keeps_bind; [apply keeps_slots_assign_value|]. intros _. apply keeps_ret.
  - apply keeps_if; [|apply keeps_ret].
    apply keeps_bind; [apply keeps_slots_assign_price_series|].
    intros _. apply keeps_ret.
Qed.

(** A step on a name that is not declared does nothing. *)
Lemma kwargs_step_undeclared u k v w :
  declared (self w) k = false → kwargs_step u (k, v) w = (Ok u, w).
Proof.
  unfold declared, kwargs_step. intros [Ho Hi]%orb_false_iff.
  by rewrite run_get_self, Ho, Hi.
Qed.

(** The loop over the named arguments is the loop over those of them
    that are declared. *)
Lemma kwargs_loop_declared_only kwargs : ∀ u w,
  for_each_acc kwargs kwargs_step u w
  = for_each_acc (declared_only (self w) kwargs) kwargs_step u w.
Proof.
  induction kwargs as [|[k v] kwargs IH]; intros u w; [done|].
  unfold declared_only. cbn [List.filter fst].
  destruct (declared (self w) k) eqn:Hk.
  - cbn [for_each_acc]. apply bind_ext. intros u' w' Hstep.
    rewrite IH. f_equal. apply declared_only_slots.
    pose proof (keeps_slots_kwargs_step (slots (self w)) u (k, v) w eq_refl) as Hs.
    by rewrite Hstep in Hs.
  - cbn [for_each_acc].
    erewrite bind_ok; [|by apply kwargs_step_undeclared]. apply IH.
Qed.

(** The loop stops at nothing: a step on a declared name finds its slot. *)
Lemma kwargs_step_ok u kv w : ∃ u' w', kwargs_step u kv w = (Ok u', w').
Proof.
  destruct kv as [k v]. unfold kwargs_step. rewrite run_get_self.
  rewrite !ODFacts.mem_keys.
  case_bool_decide as Ho; [|case_bool_decide as Hi].
  - destruct (assign_value_present k v w Ho) as (info & _ & Hassign).
    erewrite bind_ok; [by eexists _, _|exact Hassign].
  - destruct (assign_price_series_present k v w Hi) as (info & _ & Hassign).
    erewrite bind_ok; [by eexists _, _|exact Hassign].
  - by eexists _, _.
Qed.

Lemma set_function_args_unfold args kwargs :
  set_function_args args kwargs
  = (update_info ← positional_args args;
     update_info ← for_each_acc kwargs kwargs_step update_info;
     if negb (bool_decide (args = [])) || negb (bool_decide (kwargs = []))
     then
       (if update_info : bool then update_info_parameters else mret tt);;
       modify_self (with_outputs_valid false)
     else mret tt).
Proof. reflexivity. Qed.

Lemma keeps_slots_positional_args s args :
  keeps (λ w, slots (self w) = s) (positional_args args).
Proof.
  destruct args as [|arg0 args]; [apply keeps_ret|].
  apply keeps_bind; [apply keeps_slots_set_input_arrays|]. intros b.
  apply keeps_bind; [apply keeps_get_self|]. intros f.
  apply keeps_for_each_acc. intros u [i k] _.
  destruct (_ !! _); [|apply keeps_ret].
  apply keeps_bind; [apply keeps_slots_assign_value|]. intros _. apply keeps_ret.
Qed.

(** A named argument whose name is not declared is dropped without a
    word: the call is the call without it, but for the cache, which a
    call with any argument marks invalid. *)
Lemma set_function_args_drops_undeclared args kwargs w :
  set_function_args args kwargs w
  = if bool_decide (args = [] ∧ kwargs ≠ [] ∧ declared_only (self w) kwargs = [])
    then (Ok tt, set_self (with_outputs_valid false (self w)) w)
    else set_function_args args (declared_only (self w) kwargs) w.
Proof.
  case_bool_decide as Hcase.
  - destruct Hcase as (-> & Hne & Hnone).
    rewrite set_function_args_unfold.
    erewrite (bind_ok (positional_args [])); [|reflexivity].
    erewrite bind_ok; [|rewrite kwargs_loop_declared_only, Hnone; reflexivity].
    rewrite (bool_decide_eq_false_2 _ Hne). reflexivity.
  - rewrite !set_function_args_unfold. apply bind_ext. intros u w1 Hphase1.
    assert (slots (self w1) = slots (self w)) as Hslots.
    { pose proof (keeps_slots_positional_args (slots (self w)) args w eq_refl) as Hs.
      by rewrite Hphase1 in Hs. }
    apply bind_congr.
    { by rewrite kwargs_loop_declared_only, (declared_only_slots _ _ _ Hslots). }
    intros u' w2.
    destruct (decide (args = [])) as [->|Hargs].
    + change (positional_args [] w)
        with (@pair (result bool) World (Ok false) w) in Hphase1.
      injection Hphase1 as <- <-.
      destruct (decide (kwargs = [])) as [->|Hkw]; [done|].
      destruct (declared_only (self w) kwargs) as [|kv kvs] eqn:Hd;
        [by destruct Hcase|].
      by rewrite (bool_decide_eq_false_2 (kwargs = [])),
                 (bool_decide_eq_false_2 (kv :: kvs = [])).
    + by rewrite !(bool_decide_eq_false_2 (args = [])).
Qed.

End UndeclaredNames.

Section DeclaredNames.

Lemma keeps_has_value_assign_other k v k' v' :
  k ≠ k' → keeps (has_value k v) (assign_value k' v').
Proof.
  intros Hne w Hv. destruct (decide (k' ∈ OD.keys (__opt_inputs (self w)))) as [Hin|Hin].
  - destruct (assign_value_present k' v' w Hin) as (info & _ & ->).
    unfold has_value in *. cbn. by rewrite ODFacts.get_set_ne.
  - by rewrite assign_value_absent.
Qed.

Lemma keeps_has_value_assign_price_series k v k' v' :
  keeps (has_value k v) (assign_price_series k' v').
Proof.
  intros w Hv. destruct (decide (k' ∈ OD.keys (__input_names (self w)))) as [Hin|Hin].
  - by destruct (assign_price_series_present k' v' w Hin) as (info & _ & ->).
  - unfold assign_price_series.
    by rewrite run_get_self, (ODFacts.getitem_absent k' _ Hin), run_lift_raise.
Qed.

Lemma keeps_has_value_kwargs_step k v u k' v' :
  k ≠ k' → keeps (has_value k v) (kwargs_step u (k', v')).
Proof.
  intros Hne. apply keeps_bind; [apply keeps_get_self|]. intros f.
  apply keeps_if.
  - apply keeps_bind; [by apply keeps_has_value_assign_other|].
    intros _. apply keeps_ret.
  - apply keeps_if; [|apply keeps_ret].
    apply keeps_bind; [by apply keeps_has_value_assign_price_series|].
    intros _. apply keeps_ret.
Qed.

Lemma kwargs_step_sets_value k v u w :
  k ∈ OD.keys (__opt_inputs (self w)) →
  has_value k v (kwargs_step u (k, v) w).2.
Proof.
  intros Hk. unfold kwargs_step. rewrite run_get_self, ODFacts.mem_keys.
  rewrite (bool_decide_eq_true_2 _ Hk).
  destruct (assign_value_present k v w Hk) as (info & _ & Hassign).
  erewrite bind_ok; [|exact Hassign].
  unfold has_value. cbn. by rewrite ODFacts.get_set_eq.
Qed.

(** The loop over the named arguments leaves every declared optional
    parameter it is given with the value it is given, when no name comes
    twice. *)
Lemma kwargs_loop_sets_value k v kwargs : ∀ u w,
  NoDup kwargs.*1 → (k, v) ∈ kwargs →
  k ∈ OD.keys (__opt_inputs (self w)) →
  has_value k v (for_each_acc kwargs kwargs_step u w).2.
Proof.
  induction kwargs as [|[k' v'] kwargs IH]; intros u w Hnodup Hin Hk;
    [by apply elem_of_nil in Hin|].
  cbn in Hnodup. apply NoDup_cons in Hnodup as [Hk' Hnodup].
  cbn [for_each_acc]. apply elem_of_cons in Hin as [[= <- <-]|Hin].
  - unfold mbind, M_bind.
    destruct (kwargs_step_ok u (k, v) w) as (u' & w' & Hstep).
    pose proof (kwargs_step_sets_value k v u w Hk) as Hv.
    rewrite Hstep in Hv |- *.
    apply keeps_for_each_acc; [|exact Hv]. intros u'' [k'' v''] Hin''.
    apply keeps_has_value_kwargs_step. intros <-. apply Hk'.
    apply list_elem_of_fmap. by exists (k, v'').
  - unfold mbind, M_bind.
    pose proof (keeps_slots_kwargs_step (slots (self w)) u (k', v') w eq_refl) as Hs.
    destruct (kwargs_step_ok u (k', v') w) as (u' & w' & Hstep).
    rewrite Hstep in Hs |- *. cbn [snd] in Hs. apply IH; [done..|].
    by rewrite (slots_opt_keys _ _ Hs).
Qed.

(** A loop returns when each of its steps does, under an invariant. *)
Lemma for_each_acc_ok {A S} (P : World → Prop) (l : list A)
    (body : S → A → M S) :
  (∀ s x w, x ∈ l → P w → ∃ s' w', body s x w = (Ok s', w') ∧ P w') →
  ∀ s w, P w → ∃ s' w', for_each_acc l body s w = (Ok s', w') ∧ P w'.
Proof.
  induction l as [|x l IH]; intros Hbody s w HP; [by exists s, w|].
  cbn [for_each_acc].
  destruct (Hbody s x w ltac:(set_solver) HP) as (s1 & w1 & Hstep & HP1).
  erewrite bind_ok; [|exact Hstep].
  apply IH; [|done]. intros s' y w' Hy. apply Hbody. set_solver.
Qed.

Lemma set_input_arrays_ok v w : ∃ b w', set_input_arrays v w = (Ok b, w').
Proof.
  destruct v; try by eexists _, _.
  unfold set_input_arrays. case_bool_decide; by eexists _, _.
Qed.

(** The positional arguments are assigned to declared slots only, so
    this half of [set_function_args] raises nothing. *)
Lemma positional_args_ok args w : ∃ u w', positional_args args w = (Ok u, w').
Proof.
  destruct args as [|arg0 args]; [by eexists _, _|].
  unfold positional_args.
  destruct (set_input_arrays_ok arg0 w) as (b & w1 & Hset).
  erewrite bind_ok; [|exact Hset]. rewrite run_get_self.
  set (P := λ w', OD.keys (__opt_inputs (self w')) = OD.keys (__opt_inputs (self w1))).
  lazymatch goal with
  | |- ∃ u w', for_each_acc ?l ?body ?s ?w0 = (Ok u, w') =>
      assert (∃ u w', for_each_acc l body s w0 = (Ok u, w') ∧ P w')
        as (u & w2 & Hloop & _); [|by exists u, w2]
  end.
  apply (for_each_acc_ok P); [|reflexivity].
  intros u [i k] w' Hk%elem_of_enumerate Hkeys. unfold P in *. cbn beta iota.
  destruct (_ !! _) as [value|]; [|by eexists _, _].
  rewrite <- Hkeys in Hk.
  destruct (assign_value_present k value w' Hk) as (info & _ & Hassign).
  erewrite bind_ok; [|exact Hassign]. eexists _, _. split; [reflexivity|].
  pose proof (keeps_slots_assign_value (slots (self w')) k value w' eq_refl) as Hs.
  rewrite Hassign in Hs. cbn [snd] in Hs.
  rewrite (slots_opt_keys _ _ Hs). exact Hkeys.
Qed.

Lemma keeps_has_value_update_info k v : keeps (has_value k v) update_info_parameters.
Proof.
  apply keeps_bind; [apply keeps_get_self|]. intros f.
  apply keeps_bind; [apply keeps_lift|]. intros ps. by intros w.
Qed.

Lemma set_function_args_sets_value args kwargs k v w :
  NoDup kwargs.*1 → (k, v) ∈ kwargs →
  k ∈ OD.keys (__opt_inputs (self w)) →
  has_value k v (set_function_args args kwargs w).2.
Proof.
  intros Hnodup Hin Hk. rewrite set_function_args_unfold.
  unfold mbind at 1, M_bind.
  pose proof (keeps_slots_positional_args (slots (self w)) args w eq_refl) as Hs.
  destruct (positional_args args w) as [[u|e] w1] eqn:Hphase1.
  - cbn [snd] in Hs.
    assert (has_value k v (for_each_acc kwargs kwargs_step u w1).2) as Hv
      by (apply kwargs_loop_sets_value; [done..|by rewrite (slots_opt_keys _ _ Hs)]).
    unfold mbind at 1, M_bind.
    destruct (for_each_acc kwargs kwargs_step u w1) as [[u'|e] w2]; [|done].
    revert Hv. cbn [snd]. apply keeps_if; [|apply keeps_ret].
    apply keeps_bind; [|by intros _ w'].
    apply keeps_if; [apply keeps_has_value_update_info|apply keeps_ret].
  - destruct (positional_args_ok args w) as (u & w' & Hok). congruence.
Qed.

(** [set_parameters] stops at the first name that is not declared, with
    a [KeyError] that names it. *)
Lemma set_parameters_first_undeclared pre k v post : ∀ w,
  Forall (λ kv, kv.1 ∈ OD.keys (__opt_inputs (self w))) pre →
  k ∉ OD.keys (__opt_inputs (self w)) →
  (set_parameters (pre ++ (k, v) :: post) w).1 = Raise (KeyError (PStr k)).
Proof.
  intros w Hpre Hk. unfold set_parameters.
  enough (∃ w', for_each (pre ++ (k, v) :: post)
                  (λ '(param, value), assign_value param value) w
                = (Raise (KeyError (PStr k)), w')) as [w' Hloop]
    by (by erewrite bind_raise).
  revert w Hpre Hk. induction pre as [|[k' v'] pre IH]; intros w Hpre Hk.
  - cbn [app for_each]. exists w. erewrite bind_raise; [done|].
    by apply assign_value_absent.
  - apply Forall_cons in Hpre as [Hk' Hpre]. cbn [app for_each].
    destruct (assign_value_present k' v' w Hk') as (info & _ & Hassign).
    erewrite bind_ok; [|exact Hassign].
    pose proof (keeps_slots_assign_value (slots (self w)) k' v' w eq_refl) as Hs.
    rewrite Hassign in Hs. cbn [snd] in Hs.
    apply IH; by rewrite (slots_opt_keys _ _ Hs).
Qed.

End DeclaredNames.

Section DeclaredInputNames.

Lemma keeps_has_series_assign_value k v k' v' :
  keeps (has_series k v) (assign_value k' v').
Proof.
  intros w Hv. destruct (decide (k' ∈ OD.keys (__opt_inputs (self w)))) as [Hin|Hin].
  - by destruct (assign_value_present k' v' w Hin) as (info & _ & ->).
  - by rewrite assign_value_absent.
Qed.

Lemma keeps_has_series_assign_other k v k' v' :
  k ≠ k' → keeps (has_series k v) (assign_price_series k' v').
Proof.
  intros Hne w Hv.
  destruct (decide (k' ∈ OD.keys (__input_names (self w)))) as [Hin|Hin].
  - destruct (assign_price_series_present k' v' w Hin) as (info & _ & ->).
    unfold has_series in *. cbn. by rewrite ODFacts.get_set_ne.
  - unfold assign_price_series.
    by rewrite run_get_self, (ODFacts.getitem_absent k' _ Hin), run_lift_raise.
Qed.

Lemma keeps_has_series_kwargs_step k v u k' v' :
  k ≠ k' → keeps (has_series k v) (kwargs_step u (k', v')).
Proof.
  intros Hne. apply keeps_bind; [apply keeps_get_self|]. intros f.
  apply keeps_if.
  - apply keeps_bind; [by apply keeps_has_series_assign_value|].
    intros _. apply keeps_ret.
  - apply keeps_if; [|apply keeps_ret].
    apply keeps_bind; [by apply keeps_has_series_assign_other|].
    intros _. apply keeps_ret.
Qed.

Lemma kwargs_step_sets_series k v u w :
  k ∉ OD.keys (__opt_inputs (self w)) →
  k ∈ OD.keys (__input_names (self w)) →
  has_series k v (kwargs_step u (k, v) w).2.
Proof.
  intros Hopt Hk. unfold kwargs_step. rewrite run_get_self, !ODFacts.mem_keys.
  rewrite (bool_decide_eq_false_2 _ Hopt), (bool_decide_eq_true_2 _ Hk).
  destruct (assign_price_series_present k v w Hk) as (info & _ & Hassign).
  erewrite bind_ok; [|exact Hassign].
  unfold has_series. cbn. by rewrite ODFacts.get_set_eq.
Qed.

Lemma kwargs_loop_sets_series k v kwargs : ∀ u w,
  NoDup kwargs.*1 → (k, v) ∈ kwargs →
  k ∉ OD.keys (__opt_inputs (self w)) →
  k ∈ OD.keys (__input_names (self w)) →
  has_series k v (for_each_acc kwargs kwargs_step u w).2.
Proof.
  induction kwargs as [|[k' v'] kwargs IH]; intros u w Hnodup Hin Hopt Hk;
    [by apply elem_of_nil in Hin|].
  cbn in Hnodup. apply NoDup_cons in Hnodup as [Hk' Hnodup].
  cbn [for_each_acc]. unfold mbind, M_bind.
  apply elem_of_cons in Hin as [[= <- <-]|Hin].
  - destruct (kwargs_step_ok u (k, v) w) as (u' & w' & Hstep).
    pose proof (kwargs_step_sets_series k v u w Hopt Hk) as Hv.
    rewrite Hstep in Hv |- *.
    apply keeps_for_each_acc; [|exact Hv]. intros u'' [k'' v''] Hin''.
    apply keeps_has_series_kwargs_step. intros <-. apply Hk'.
    apply list_elem_of_fmap. by exists (k, v'').
  - pose proof (keeps_slots_kwargs_step (slots (self w)) u (k', v') w eq_refl) as Hs.
    destruct (kwargs_step_ok u (k', v') w) as (u' & w' & Hstep).
    rewrite Hstep in Hs |- *. cbn [snd] in Hs. apply IH; [done..| |].
    + by rewrite (slots_opt_keys _ _ Hs).
    + by rewrite (slots_input_keys _ _ Hs).
Qed.

Lemma keeps_has_series_update_info k v : keeps (has_series k v) update_info_parameters.
Proof.
  apply keeps_bind; [apply keeps_get_self|]. intros f.
  apply keeps_bind; [apply keeps_lift|]. intros ps. by intros w.
Qed.

Lemma set_function_args_sets_series args kwargs k v w :
  NoDup kwargs.*1 → (k, v) ∈ kwargs →
  k ∉ OD.keys (__opt_inputs (self w)) →
  k ∈ OD.keys (__input_names (self w)) →
  has_series k v (set_function_args args kwargs w).2.
Proof.
  intros Hnodup Hin Hopt Hk. rewrite set_function_args_unfold.
  unfold mbind at 1, M_bind.
  pose proof (keeps_slots_positional_args (slots (self w)) args w eq_refl) as Hs.
  destruct (positional_args_ok args w) as (u & w1 & Hphase1).
  rewrite Hphase1 in Hs |- *. cbn [snd] in Hs.
  assert (has_series k v (for_each_acc kwargs kwargs_step u w1).2) as Hv.
  { apply kwargs_loop_sets_series; [done..| |].
    - by rewrite (slots_opt_keys _ _ Hs).
    - by rewrite (slots_input_keys _ _ Hs). }
  unfold mbind at 1, M_bind.
  destruct (for_each_acc kwargs kwargs_step u w1) as [[u'|e] w2]; [|done].
  revert Hv. cbn [snd]. apply keeps_if; [|apply keeps_ret].
  apply keeps_bind; [|by intros _ w'].
  apply keeps_if; [apply keeps_has_series_update_info|apply keeps_ret].
Qed.

End DeclaredInputNames.

(** C6, against the claim as stated.  On the facade of BBANDS, the name
    nosuch is not declared and timeperiod is.  Given both as named
    arguments, [set_function_args] returns and reports nothing; given both,
    [set_parameters] raises the [KeyError] of nosuch and does not set
    timeperiod.  Neither call both rejects the one and applies the other. *)
Lemma undeclared_name_not_rejected_per_key :
  let w := Demo.new "bbands" in
  let items := [("nosuch", PInt 3); ("timeperiod", PInt 7)] in
  declared (self w) "nosuch" = false
  ∧ declared (self w) "timeperiod" = true
  ∧ (set_function_args [] items w).1 = Ok tt
  ∧ (set_parameters items w).1 = Raise (KeyError (PStr "nosuch"))
  ∧ has_value "timeperiod" PNone (set_parameters items w).2
  ∧ ¬ rejects_and_applies (set_function_args [] items) w "nosuch" "timeperiod" (PInt 7)
  ∧ ¬ rejects_and_applies (set_parameters items) w "nosuch" "timeperiod" (PInt 7).
Proof.
  intros w items.
  assert ((set_function_args [] items w).1 = Ok tt) as Hargs
    by (vm_compute; reflexivity).
  assert (has_value "timeperiod" PNone (set_parameters items w).2) as Hparams
    by (vm_compute; reflexivity).
  split; [vm_compute; reflexivity|]. split; [vm_compute; reflexivity|].
  split; [exact Hargs|]. split; [vm_compute; reflexivity|].
  split; [exact Hparams|]. split.
  - intros [Hraise _]. rewrite Hargs in Hraise. discriminate.
  - intros [_ Hset]. unfold has_value in Hparams. rewrite Hparams in Hset.
    discriminate.
Qed.

(** C6, as amended.  A named argument of [set_function_args] whose name is
    neither an optional parameter nor an input slot is dropped silently:
    the call does what the call without it does (and, like any call with
    an argument, marks the cache invalid), and no error reports the name.
    The named arguments that are declared are applied: an optional
    parameter gets the value, an input slot gets the series.
    [set_parameters] fails with a [KeyError] that names the first name it
    meets that is not an optional parameter. *)
Theorem undeclared_names (w : World) :
  (∀ args kwargs,
     set_function_args args kwargs w
     = if bool_decide (args = [] ∧ kwargs ≠ [] ∧ declared_only (self w) kwargs = [])
       then (Ok tt, set_self (with_outputs_valid false (self w)) w)
       else set_function_args args (declared_only (self w) kwargs) w)
  ∧ (∀ args kwargs k v,
       NoDup kwargs.*1 → (k, v) ∈ kwargs →
       (k ∈ OD.keys (__opt_inputs (self w)) →
          has_value k v (set_function_args args kwargs w).2)
       ∧ (k ∉ OD.keys (__opt_inputs (self w)) →
          k ∈ OD.keys (__input_names (self w)) →
          has_series k v (set_function_args args kwargs w).2))
  ∧ (∀ pre k v post,
       Forall (λ kv, kv.1 ∈ OD.keys (__opt_inputs (self w))) pre →
       k ∉ OD.keys (__opt_inputs (self w)) →
       (set_parameters (pre ++ (k, v) :: post) w).1 = Raise (KeyError (PStr k))).
Proof.
  split; [|split].
  - intros args kwargs. apply set_function_args_drops_undeclared.
  - intros args kwargs k v Hnodup Hin. split.
    + by apply set_function_args_sets_value.
    + by apply set_function_args_sets_series.
  - intros pre k v post. apply set_parameters_first_undeclared.
Qed.

(** On the facade of BBANDS: the name nosuch is dropped by
    [set_function_args], which sets timeperiod, and stops [set_parameters]. *)
Lemma undeclared_names_witness :
  let w := Demo.new "bbands" in
  set_function_args [] [("nosuch", PInt 3); ("timeperiod", PInt 7)] w
  = set_function_args [] [("timeperiod", PInt 7)] w
  ∧ has_value "timeperiod" (PInt 7)
      (set_function_args [] [("nosuch", PInt 3); ("timeperiod", PInt 7)] w).2
  ∧ (set_parameters [("timeperiod", PInt 7); ("nosuch", PInt 3); ("matype", PInt 1)] w).1
    = Raise (KeyError (PStr "nosuch")).
Proof.
  intros w. destruct (undeclared_names w) as (Hdrop & Hset & Hfirst).
  split_all.
  - rewrite Hdrop. vm_compute. reflexivity.
  - refine (proj1 (Hset [] [("nosuch", PInt 3); ("timeperiod", PInt 7)]
                         "timeperiod" (PInt 7) _ _) _).
    + apply (bool_decide_unpack _). vm_compute. exact I.
    + apply list_elem_of_further, list_elem_of_here.
    + apply (bool_decide_unpack _). vm_compute. exact I.
  - refine (Hfirst [("timeperiod", PInt 7)] "nosuch" (PInt 3) [("matype", PInt 1)] _ _).
    + apply (bool_decide_unpack _). vm_compute. exact I.
    + apply (bool_decide_unpack _). vm_compute. exact I.
Defined.

(** ** C3: the effective value of an optional parameter *)

(** A value that Python takes for false is replaced by the default, set or
    not; any other value is used. *)
Lemma get_opt_input_value_cases f input_name info :
  OD.get input_name (__opt_inputs f) = Some info →
  (truthy (opt_value info) = Ok false →
     __get_opt_input_value f input_name = Ok (opt_default_value info))
  ∧ (truthy (opt_value info) = Ok true →
     __get_opt_input_value f input_name = Ok (opt_value info)).
Proof.
  intros Hget. unfold __get_opt_input_value, OD.getitem. rewrite Hget. cbn.
  split; by intros ->.
Qed.

(** The default of a slot comes from a number of the library and is never
    [None], so neither is the effective value of a slot without a value. *)
Lemma discovered_default_not_none lib function_name idx info :
  _ta_getOptInputParameterInfo lib function_name idx = Ok info →
  opt_default_value info ≠ PNone ∧ opt_value info = PNone.
Proof.
  unfold _ta_getOptInputParameterInfo.
  destruct (__ta_getFuncHandle lib function_name) as [handle|]; cbn; [|done].
  destruct (TA_GetOptInputParameterInfo lib handle idx) as [retCode raw].
  destruct (_ta_check_success _ retCode); cbn; [|done].
  intros [= <-]. cbn. split; [|done]. by case_match.
Qed.

(** So the effective value of a slot is never [None]: a value that is set
    and used is not [None], which Python takes for false. *)
Lemma effective_value_not_none f input_name info v :
  OD.get input_name (__opt_inputs f) = Some info →
  opt_default_value info ≠ PNone →
  __get_opt_input_value f input_name = Ok v →
  v ≠ PNone.
Proof.
  intros Hget Hdefault. unfold __get_opt_input_value, OD.getitem.
  rewrite Hget. cbn.
  destruct (truthy (opt_value info)) as [[]|] eqn:Htruthy; cbn; [| |done].
  - intros [= <-] Hnone. by rewrite Hnone in Htruthy.
  - by intros [= <-].
Qed.

(** C3, at the failing input.  On the facade of STDDEV the parameter nbdev
    has the default 1.  Once the caller has set it to 0, the value of the
    slot is 0, and the effective value [__get_opt_input_value] returns is
    still the default 1: the override is not used. *)
Theorem override_zero_falls_back_to_default :
  let w := (set_parameters [("nbdev", PInt 0)] (Demo.new "stddev")).2 in
  (set_parameters [("nbdev", PInt 0)] (Demo.new "stddev")).1 = Ok tt
  ∧ has_value "nbdev" (PInt 0) w
  ∧ opt_default_value <$> OD.get "nbdev" (__opt_inputs (self w)) = Some (PInt 1)
  ∧ __get_opt_input_value (self w) "nbdev" = Ok (PInt 1)
  ∧ call_args (self (set_input_arrays Demo.ohlcv w).2)
    = Ok [Demo.arr 4; PInt 5; PInt 1].
Proof. by_running. Qed.

(** ** C2: the cache flag *)

Section CacheFlag.

Variable lib : TALib.

(** A read of [outputs] with the cache valid calls nothing and changes
    nothing. *)
Lemma outputs_cached w :
  __outputs_valid (self w) = true →
  outputs lib w
  = (Ok (match OD.values (__outputs (self w)) with
         | [ret0] => ret0
         | ret => PList ret
         end), w).
Proof.
  intros Hvalid. unfold outputs.
  rewrite run_get_self, Hvalid. cbn [negb]. rewrite run_ret, run_get_self.
  by destruct (OD.values _) as [|? [|? ?]].
Qed.

(** A read that returns leaves the cache valid, so the next read calls
    the kernel no more. *)
Lemma outputs_read_twice w ret w' :
  outputs lib w = (Ok ret, w') →
  __outputs_valid (self w') = true ∧ outputs lib w' = (Ok ret, w').
Proof.
  unfold outputs at 1. rewrite run_get_self.
  destruct (__outputs_valid (self w)) eqn:Hvalid; cbn [negb].
  - rewrite run_ret, run_get_self. intros Hret.
    assert (w' = w) as -> by (by destruct (OD.values _) as [|? [|? ?]]; injection Hret).
    split; [done|]. rewrite outputs_cached by done.
    by destruct (OD.values _) as [|? [|? ?]]; injection Hret as ->.
  - unfold mbind at 1, M_bind.
    destruct (__call_function lib w) as [[[]|e] w1] eqn:Hcall; [|done].
    assert (__outputs_valid (self w1) = true) as Hvalid1.
    { revert Hcall. unfold __call_function. rewrite run_get_self.
      destruct (call_args (self w)) as [args|]; [|done]. rewrite run_lift_ok.
      unfold mbind at 1, M_bind. destruct (call_kernel _ _ _ _) as [[results|] w2]; [|done].
      unfold mbind at 1, M_bind. destruct (store_results _ _) as [[[]|] w3]; [|done].
      by intros [= <-]. }
    rewrite run_get_self. intros Hret.
    assert (w' = w1) as -> by (by destruct (OD.values _) as [|? [|? ?]]; injection Hret).
    split; [done|]. rewrite outputs_cached by done.
    by destruct (OD.values _) as [|? [|? ?]]; injection Hret as ->.
Qed.

(** A mutator that returns leaves the cache invalid. *)
Lemma set_input_arrays_invalidates v w w' :
  set_input_arrays v w = (Ok true, w') → __outputs_valid (self w') = false.
Proof.
  destruct v; try done. unfold set_input_arrays. case_bool_decide; [|done].
  by intros [= <-].
Qed.

Lemma set_input_names_invalidates ns w w' :
  set_input_names ns w = (Ok tt, w') → __outputs_valid (self w') = false.
Proof.
  unfold set_input_names, mbind, M_bind.
  destruct (for_each ns _ w) as [[[]|] w1]; [|done]. by intros [= <-].
Qed.

Lemma keeps_invalid_update_info :
  keeps (λ w, __outputs_valid (self w) = false) update_info_parameters.
Proof.
  apply keeps_bind; [apply keeps_get_self|]. intros f.
  apply keeps_bind; [apply keeps_lift|]. intros ps. intros w Hw.
  cbn. unfold set_info_parameters. by destruct (__info (self w)).
Qed.

Lemma set_parameters_invalidates ps w w' :
  set_parameters ps w = (Ok tt, w') → __outputs_valid (self w') = false.
Proof.
  unfold set_parameters. unfold mbind at 1, M_bind.
  destruct (for_each ps _ w) as [[[]|] w1]; [|done].
  rewrite run_modify_self. intros Hupdate.
  pose proof (keeps_invalid_update_info
                (set_self (with_outputs_valid false (self w1)) w1) eq_refl) as Hkeeps.
  by rewrite Hupdate in Hkeeps.
Qed.

Lemma set_function_args_invalidates args kwargs w w' :
  args ≠ [] ∨ kwargs ≠ [] →
  set_function_args args kwargs w = (Ok tt, w') →
  __outputs_valid (self w') = false.
Proof.
  intros Hany. rewrite set_function_args_unfold.
  unfold mbind at 1, M_bind. destruct (positional_args args w) as [[u|] w1]; [|done].
  unfold mbind at 1, M_bind.
  destruct (for_each_acc kwargs kwargs_step u w1) as [[u'|] w2]; [|done].
  assert (negb (bool_decide (args = [])) || negb (bool_decide (kwargs = [])) = true)
    as ->.
  { destruct Hany as [H|H]; rewrite (bool_decide_eq_false_2 _ H); cbn;
      [done|apply orb_true_r]. }
  unfold mbind, M_bind.
  destruct ((if u' then update_info_parameters else mret tt) w2) as [[[]|] w3]; [|done].
  by intros [= <-].
Qed.

End CacheFlag.

(** C2, at the failing input.  On the facade of SMA, after a first read of
    [outputs], [set_parameters] is given timeperiod = 10 and then a name
    that is not declared.  It sets timeperiod and raises on the second name
    before it reaches the line that marks the cache invalid.  The parameter
    has changed since the last call of the kernel and the cache is still
    valid: the next read returns the array computed with the period 30 and
    calls nothing.  The setter of [input_names] does the same with a
    binding. *)
Theorem cache_valid_after_parameter_change :
  let w0 := (__init__ Demo.lib "sma" Demo.ohlcv Demo.world0).2 in
  let w1 := (outputs Demo.lib w0).2 in
  let stale := PArr (NdArray [0%Q; 4%Q; 30%Q]) in
  let changed := [("timeperiod", PInt 10); ("nosuch", PInt 1)] in
  let w2 := (set_parameters changed w1).2 in
  let rebound := [("price", PStr "open"); ("nosuch", PStr "low")] in
  let w3 := (set_input_names rebound w1).2 in
  ((outputs Demo.lib w0).1 = Ok stale
   ∧ kernel_calls w1 = [("SMA", [Demo.arr 4; PInt 30])])
  ∧ ((set_parameters changed w1).1 = Raise (KeyError (PStr "nosuch"))
     ∧ has_value "timeperiod" (PInt 10) w2
     ∧ call_args (self w2) = Ok [Demo.arr 4; PInt 10]
     ∧ __outputs_valid (self w2) = true
     ∧ outputs Demo.lib w2 = (Ok stale, w2)
     ∧ kernel_calls w2 = kernel_calls w1)
  ∧ ((set_input_names rebound w1).1 = Raise (KeyError (PStr "nosuch"))
     ∧ has_series "price" (PStr "open") w3
     ∧ call_args (self w3) = Ok [Demo.arr 1; PInt 30]
     ∧ __outputs_valid (self w3) = true
     ∧ outputs Demo.lib w3 = (Ok stale, w3)).
Proof. by_running. Qed.

(** ** C5: the parameter holder of [lookback] *)


Section LookbackReturns.

Variable lib : TALib.



End LookbackReturns.

(** ** Construction: the slots as discovered *)

Section Discovery.

Variable lib : TALib.

Lemma keys_set {V} k (v : V) d : OD.keys (OD.set k v d) = add_key (OD.keys d) k.
Proof.
  unfold add_key. case_decide.
  - by apply ODFacts.keys_set_present.
  - by apply ODFacts.keys_set_absent.
Qed.

Lemma foldl_add_key_snoc ks names :
  NoDup (ks ++ names) → foldl add_key ks names = ks ++ names.
Proof.
  revert ks. induction names as [|k names IH]; intros ks Hnodup; cbn.
  - by rewrite app_nil_r.
  - assert (k ∉ ks) as Hk.
    { apply NoDup_app in Hnodup as (_ & Hdisj & _). intros Hin.
      apply (Hdisj k Hin). set_solver. }
    unfold add_key at 2. rewrite decide_False by done.
    rewrite IH; rewrite <- app_assoc; done.
Qed.

(** Names that are all different are kept as they are, in their order. *)
Lemma keys_assigned_NoDup names : NoDup names → keys_assigned names = names.
Proof. intros Hnodup. by apply (foldl_add_key_snoc []). Qed.

Lemma foldl_add_key_NoDup names : ∀ ks, NoDup ks → NoDup (foldl add_key ks names).
Proof.
  induction names as [|k names IH]; intros ks Hks; [done|].
  cbn. apply IH. unfold add_key. case_decide; [done|].
  apply NoDup_app. split; [done|]. split; [set_solver|apply NoDup_singleton].
Qed.

Lemma bind_inv {A B} (m : M A) (k : A → M B) w b w' :
  (m ≫= k) w = (Ok b, w') →
  ∃ a w1, m w = (Ok a, w1) ∧ k a w1 = (Ok b, w').
Proof.
  unfold mbind, M_bind. destruct (m w) as [[a|e] w1]; [|done].
  intros Hk. by exists a, w1.
Qed.

(** A loop whose every step assigns under one name assigns under the
    names of its steps, in their order. *)
Lemma for_each_keys {I} (keys_of : World → list string) (name_of : I → string)
    (l : list I) (body : I → M unit) :
  (∀ i w w', body i w = (Ok tt, w') → keys_of w' = add_key (keys_of w) (name_of i)) →
  ∀ w w', for_each l body w = (Ok tt, w') →
          keys_of w' = foldl add_key (keys_of w) (name_of <$> l).
Proof.
  intros Hbody. induction l as [|i l IH]; intros w w'; cbn [for_each].
  - by intros [= <-].
  - intros ([] & w1 & Hstep & Hrest)%bind_inv. cbn.
    rewrite <- (Hbody i w w1 Hstep). by apply IH.
Qed.

Lemma getFuncHandle_ok name h :
  __ta_getFuncHandle lib name = Ok h → h = handle_of lib name.
Proof.
  unfold __ta_getFuncHandle, handle_of.
  destruct (TA_GetFuncHandle lib name) as [retCode h'].
  destruct (_ta_check_success _ retCode); cbn; [|done]. by intros [= <-].
Qed.

Lemma getFuncInfo_ok name info :
  _ta_getFuncInfo lib name = Ok info →
  fd_num_inputs info = fi_nbInput (TA_GetFuncInfo lib (handle_of lib name)).2
  ∧ fd_num_opt_inputs info = fi_nbOptInput (TA_GetFuncInfo lib (handle_of lib name)).2
  ∧ fd_num_outputs info = fi_nbOutput (TA_GetFuncInfo lib (handle_of lib name)).2.
Proof.
  unfold _ta_getFuncInfo.
  destruct (__ta_getFuncHandle lib name) as [h|] eqn:Hh; [|done].
  apply getFuncHandle_ok in Hh as ->. cbn.
  destruct (TA_GetFuncInfo lib (handle_of lib name)) as [retCode raw].
  destruct (_ta_check_success _ retCode); cbn; [|done].
  destruct (__get_flags _ _); cbn; [|done]. by intros [= <-].
Qed.

Lemma getInputParameterInfo_ok name i info :
  _ta_getInputParameterInfo lib name i = Ok info →
  in_name info
  = input_param_name (ip_paramName (TA_GetInputParameterInfo lib (handle_of lib name) i).2).
Proof.
  unfold _ta_getInputParameterInfo.
  destruct (__ta_getFuncHandle lib name) as [h|] eqn:Hh; [|done].
  apply getFuncHandle_ok in Hh as ->. cbn.
  destruct (TA_GetInputParameterInfo lib (handle_of lib name) i) as [retCode raw].
  destruct (_ta_check_success _ retCode); cbn; [|done].
  destruct (__get_flags _ _); cbn; [|done]. by intros [= <-].
Qed.

Lemma getOptInputParameterInfo_ok name i info :
  _ta_getOptInputParameterInfo lib name i = Ok info →
  opt_name info
  = opt_input_param_name
      (oip_paramName (TA_GetOptInputParameterInfo lib (handle_of lib name) i).2).
Proof.
  unfold _ta_getOptInputParameterInfo.
  destruct (__ta_getFuncHandle lib name) as [h|] eqn:Hh; [|done].
  apply getFuncHandle_ok in Hh as ->. cbn.
  destruct (TA_GetOptInputParameterInfo lib (handle_of lib name) i) as [retCode raw].
  destruct (_ta_check_success _ retCode); cbn; [|done]. by intros [= <-].
Qed.

Lemma getOutputParameterInfo_ok name i info :
  _ta_getOutputParameterInfo lib name i = Ok info →
  info.1
  = output_param_name (op_paramName (TA_GetOutputParameterInfo lib (handle_of lib name) i).2).
Proof.
  unfold _ta_getOutputParameterInfo.
  destruct (__ta_getFuncHandle lib name) as [h|] eqn:Hh; [|done].
  apply getFuncHandle_ok in Hh as ->. cbn.
  destruct (TA_GetOutputParameterInfo lib (handle_of lib name) i) as [retCode raw].
  destruct (_ta_check_success _ retCode); cbn; [|done].
  destruct (__get_flags _ _); cbn; [|done]. by intros [= <-].
Qed.

End Discovery.

Section Construction.

Variable lib : TALib.

Lemma for_each_frame {I X} (g : World → X) (l : list I) (body : I → M unit) :
  (∀ i w w', body i w = (Ok tt, w') → g w' = g w) →
  ∀ w w', for_each l body w = (Ok tt, w') → g w' = g w.
Proof.
  intros Hbody. induction l as [|i l IH]; intros w w'; cbn [for_each].
  - by intros [= <-].
  - intros ([] & w1 & Hstep & Hrest)%bind_inv.
    rewrite <- (Hbody i w w1 Hstep). by apply IH.
Qed.

Lemma discover_input_step name i w w' :
  discover_input lib name i w = (Ok tt, w') →
  ∃ info,
    self w' = with_input_names
                (OD.set (input_param_name
                           (ip_paramName
                              (TA_GetInputParameterInfo lib (handle_of lib name) i).2))
                        info (__input_names (self w)))
                (self w).
Proof.
  unfold discover_input.
  destruct (_ta_getInputParameterInfo lib name i) as [info|] eqn:Hinfo; [|done].
  rewrite run_lift_ok, <- (getInputParameterInfo_ok lib name i info Hinfo).
  intros (info' & w1 & Hdefault & Hassign)%bind_inv.
  assert (w1 = w) as ->.
  { revert Hdefault. destruct (is_none _); [|by intros [= _ <-]].
    destruct (dict_getitem _ _); [|done]. by intros [= _ <-]. }
  rewrite modify_self_eq in Hassign. injection Hassign as <-. by exists info'.
Qed.

Lemma discover_opt_input_step name i w w' :
  discover_opt_input lib name i w = (Ok tt, w') →
  ∃ info,
    self w' = with_opt_inputs
                (OD.set (opt_input_param_name
                           (oip_paramName
                              (TA_GetOptInputParameterInfo lib (handle_of lib name) i).2))
                        info (__opt_inputs (self w)))
                (self w).
Proof.
  unfold discover_opt_input.
  destruct (_ta_getOptInputParameterInfo lib name i) as [info|] eqn:Hinfo; [|done].
  rewrite run_lift_ok, <- (getOptInputParameterInfo_ok lib name i info Hinfo).
  rewrite modify_self_eq. intros [= <-]. by exists info.
Qed.

Lemma discover_output_step name i w w' :
  discover_output lib name i w = (Ok tt, w') →
  self w' = with_outputs
              (OD.set (output_param_name
                         (op_paramName
                            (TA_GetOutputParameterInfo lib (handle_of lib name) i).2))
                      PNone (__outputs (self w)))
              (self w).
Proof.
  unfold discover_output.
  destruct (_ta_getOutputParameterInfo lib name i) as [info|] eqn:Hinfo; [|done].
  rewrite run_lift_ok, <- (getOutputParameterInfo_ok lib name i info Hinfo).
  unfold assign_output. rewrite modify_self_eq. by intros [= <-].
Qed.

Lemma discover_inputs_loop name l w w' :
  for_each l (discover_input lib name) w = (Ok tt, w') →
  OD.keys (__input_names (self w'))
  = foldl add_key (OD.keys (__input_names (self w)))
      ((λ i, input_param_name
               (ip_paramName (TA_GetInputParameterInfo lib (handle_of lib name) i).2))
         <$> l)
  ∧ OD.keys (__opt_inputs (self w')) = OD.keys (__opt_inputs (self w))
  ∧ OD.keys (__outputs (self w')) = OD.keys (__outputs (self w)).
Proof.
  intros Hloop. split; [|split].
  - revert Hloop. apply (for_each_keys (λ w, OD.keys (__input_names (self w)))).
    intros i w1 w2 [info ->]%discover_input_step. apply keys_set.
  - revert Hloop. apply (for_each_frame (λ w, OD.keys (__opt_inputs (self w)))).
    by intros i w1 w2 [info ->]%discover_input_step.
  - revert Hloop. apply (for_each_frame (λ w, OD.keys (__outputs (self w)))).
    by intros i w1 w2 [info ->]%discover_input_step.
Qed.

Lemma discover_opt_inputs_loop name l w w' :
  for_each l (discover_opt_input lib name) w = (Ok tt, w') →
  OD.keys (__input_names (self w')) = OD.keys (__input_names (self w))
  ∧ OD.keys (__opt_inputs (self w'))
    = foldl add_key (OD.keys (__opt_inputs (self w)))
        ((λ i, opt_input_param_name
                 (oip_paramName
                    (TA_GetOptInputParameterInfo lib (handle_of lib name) i).2))
           <$> l)
  ∧ OD.keys (__outputs (self w')) = OD.keys (__outputs (self w)).
Proof.
  intros Hloop. split; [|split].
  - revert Hloop. apply (for_each_frame (λ w, OD.keys (__input_names (self w)))).
    by intros i w1 w2 [info ->]%discover_opt_input_step.
  - revert Hloop. apply (for_each_keys (λ w, OD.keys (__opt_inputs (self w)))).
    intros i w1 w2 [info ->]%discover_opt_input_step. apply keys_set.
  - revert Hloop. apply (for_each_frame (λ w, OD.keys (__outputs (self w)))).
    by intros i w1 w2 [info ->]%discover_opt_input_step.
Qed.

Lemma discover_outputs_loop name l w w' :
  for_each l (discover_output lib name) w = (Ok tt, w') →
  OD.keys (__input_names (self w')) = OD.keys (__input_names (self w))
  ∧ OD.keys (__opt_inputs (self w')) = OD.keys (__opt_inputs (self w))
  ∧ OD.keys (__outputs (self w'))
    = foldl add_key (OD.keys (__outputs (self w)))
        ((λ i, output_param_name
                 (op_paramName (TA_GetOutputParameterInfo lib (handle_of lib name) i).2))
           <$> l).
Proof.
  intros Hloop. split; [|split].
  - revert Hloop. apply (for_each_frame (λ w, OD.keys (__input_names (self w)))).
    by intros i w1 w2 ->%discover_output_step.
  - revert Hloop. apply (for_each_frame (λ w, OD.keys (__opt_inputs (self w)))).
    by intros i w1 w2 ->%discover_output_step.
  - revert Hloop. apply (for_each_keys (λ w, OD.keys (__outputs (self w)))).
    intros i w1 w2 ->%discover_output_step. apply keys_set.
Qed.

(** The three loops of [__initialize_private_variables] assign the slots
    under their published names, in the order of the indices the library
    declares them at. *)
Lemma initialize_private_variables_slots w w' :
  __initialize_private_variables lib w = (Ok tt, w') →
  let name := __name (self w) in
  slots (self w')
  = (foldl add_key (OD.keys (__input_names (self w))) (declared_inputs lib name),
     foldl add_key (OD.keys (__opt_inputs (self w))) (declared_opt_inputs lib name),
     foldl add_key (OD.keys (__outputs (self w))) (declared_outputs lib name)).
Proof.
  unfold __initialize_private_variables. rewrite run_get_self.
  destruct (_ta_getFuncInfo lib (__name (self w))) as [info|] eqn:Hinfo; [|done].
  destruct (getFuncInfo_ok lib _ _ Hinfo) as (Hin & Hopt & Hout).
  rewrite run_lift_ok, run_modify_self.
  intros ([] & w1 & Hloop1 & Hrest)%bind_inv.
  rewrite run_modify_self in Hrest.
  apply bind_inv in Hrest as ([] & w2 & Hloop2 & Hrest).
  apply bind_inv in Hrest as ([] & w3 & Hupdate & Hrest).
  apply bind_inv in Hrest as ([] & w4 & Hloop3 & Hrest).
  rewrite modify_self_eq in Hrest. injection Hrest as <-.
  cbv zeta. unfold declared_inputs, declared_opt_inputs, declared_outputs.
  rewrite <- Hin, <- Hopt, <- Hout.
  apply discover_inputs_loop in Hloop1 as (Hi1 & Ho1 & Hu1).
  apply discover_opt_inputs_loop in Hloop2 as (Hi2 & Ho2 & Hu2).
  apply discover_outputs_loop in Hloop3 as (Hi3 & Ho3 & Hu3).
  pose proof (keeps_slots_update_info_parameters (slots (self w2)) w2 eq_refl) as Hs.
  rewrite Hupdate in Hs. cbn [snd] in Hs.
  rewrite (slots_input_keys _ _ Hs) in Hi3.
  rewrite (slots_opt_keys _ _ Hs) in Ho3.
  rewrite (slots_output_keys _ _ Hs) in Hu3.
  unfold slots, set_info_input_names, set_info_output_names in *.
  cbn [self set_self with_info __input_names __opt_inputs __outputs] in *.
  by rewrite Hi3, Hi2, Hi1, Ho3, Ho2, Ho1, Hu3, Hu2, Hu1.
Qed.

Lemma init_unfold function_name input_arrays w :
  PyStr.upper function_name ∈ get_functions lib →
  __init__ lib function_name input_arrays w
  = (__initialize_private_variables lib;;
     b ← lift (truthy input_arrays);
     if b : bool then set_input_arrays input_arrays;; mret tt else mret tt)
      (set_self (fresh (PyStr.upper function_name)) w).
Proof.
  intros Hin. unfold __init__.
  rewrite run_modify_self, (bool_decide_eq_true_2 _ Hin), run_ret.
  by rewrite !run_modify_self.
Qed.

Lemma init_not_supported function_name input_arrays w :
  PyStr.upper function_name ∉ get_functions lib →
  (__init__ lib function_name input_arrays w).1
  = Raise (Exception (PyStr.upper function_name ++ " not supported by TA-LIB.")%string).
Proof.
  intros Hin. unfold __init__.
  by rewrite run_modify_self, (bool_decide_eq_false_2 _ Hin), run_raise.
Qed.

(** [Function(function_name)]: the facade a construction that returns
    leaves has the slots the library declares, under their published
    names and in the order of their declaration; names that collide
    share one slot, at the place of the first. *)
Lemma init_slots function_name input_arrays w w' :
  __init__ lib function_name input_arrays w = (Ok tt, w') →
  let name := PyStr.upper function_name in
  slots (self w')
  = (keys_assigned (declared_inputs lib name),
     keys_assigned (declared_opt_inputs lib name),
     keys_assigned (declared_outputs lib name)).
Proof.
  destruct (decide (PyStr.upper function_name ∈ get_functions lib)) as [Hin|Hin];
    [|intros Hinit; pose proof (init_not_supported _ input_arrays w Hin) as Hr;
      by rewrite Hinit in Hr].
  rewrite (init_unfold _ _ _ Hin).
  intros ([] & w1 & Hinit & Hrest)%bind_inv.
  apply bind_inv in Hrest as (b & w2 & Htruthy & Hrest).
  assert (w2 = w1) as ->.
  { revert Htruthy. unfold lift. by intros [= _ <-]. }
  assert (slots (self w') = slots (self w1)) as ->.
  { destruct b; [|by injection Hrest as <-].
    apply bind_inv in Hrest as (b & w3 & Hset & Hrest). injection Hrest as <-.
    pose proof (keeps_slots_set_input_arrays (slots (self w1)) input_arrays w1 eq_refl)
      as Hs.
    by rewrite Hset in Hs. }
  exact (initialize_private_variables_slots _ _ Hinit).
Qed.

(** So the facade has no repeated slot name. *)
Lemma init_NoDup function_name input_arrays w w' :
  __init__ lib function_name input_arrays w = (Ok tt, w') →
  NoDup (OD.keys (__input_names (self w')))
  ∧ NoDup (OD.keys (__opt_inputs (self w')))
  ∧ NoDup (OD.keys (__outputs (self w'))).
Proof.
  intros Hs%init_slots. cbv zeta in Hs.
  change (OD.keys (__input_names (self w'))) with (slots (self w')).1.1.
  change (OD.keys (__opt_inputs (self w'))) with (slots (self w')).1.2.
  change (OD.keys (__outputs (self w'))) with (slots (self w')).2.
  rewrite Hs. split_all; apply foldl_add_key_NoDup, NoDup_nil_2.
Qed.

End Construction.

Section Reachable.

Variable lib : TALib.

(** A facade has the slots of some function of the library: those
    discovered at its construction. *)
Lemma reachable_slots w :
  reachable lib w →
  ∃ name,
    slots (self w)
    = (keys_assigned (declared_inputs lib name),
       keys_assigned (declared_opt_inputs lib name),
       keys_assigned (declared_outputs lib name)).
Proof.
  induction 1 as [function_name input_arrays w w' Hinit|c w _ [name IH]].
  - exists (PyStr.upper function_name). by apply init_slots in Hinit.
  - exists name. by apply perform_keeps_slots.
Qed.

Lemma reachable_NoDup w :
  reachable lib w →
  NoDup (OD.keys (__input_names (self w)))
  ∧ NoDup (OD.keys (__opt_inputs (self w)))
  ∧ NoDup (OD.keys (__outputs (self w))).
Proof.
  intros [name Hs]%reachable_slots.
  change (OD.keys (__input_names (self w))) with (slots (self w)).1.1.
  change (OD.keys (__opt_inputs (self w))) with (slots (self w)).1.2.
  change (OD.keys (__outputs (self w))) with (slots (self w)).2.
  rewrite Hs. split_all; apply foldl_add_key_NoDup, NoDup_nil_2.
Qed.

End Reachable.


(** The label of the volume bit is spelt volumne in the table of the input
    flags, and no array is stored under that name: on the facade of AD,
    bound as discovered, an array is not found, [outputs] raises and the
    kernel is not called. *)
Lemma volume_series_not_found :
  let w := (__init__ Demo.lib "ad" Demo.ohlcv Demo.world0).2 in
  has_series "prices" (PList [PStr "high"; PStr "low"; PStr "close"; PStr "volumne"]) w
  ∧ outputs Demo.lib w = (Raise (KeyError (PStr "volumne")), w)
  ∧ kernel_calls w = [].
Proof. by_running. Qed.


(** * Further properties

    What the code shows beyond the statements above: the behaviour of the
    metadata queries on the flag words and the return codes of the
    library, the state a construction leaves, what no call changes, how
    the setters read back, what [lookback] computes, and the documentation
    and the tables of names. *)

(** ** The flag tables *)

Section FlagTables.

Lemma func_flags_in_range flag :
  1 ≤ flag ≤ 15 →
  ∃ i, 0 ≤ i < 4 ∧ __get_flags flag ta_func_flags = Raise (KeyError (PInt (2 ^ i))).
Proof.
  intros Hflag.
  assert (flag ∈ (Z.of_nat <$> seq 1 15)) as Hin.
  { apply list_elem_of_fmap. exists (Z.to_nat flag). split; [lia|].
    apply elem_of_seq. lia. }
  cbn in Hin.
  repeat (apply elem_of_cons in Hin as [->|Hin];
          [first [ exists 0; split; [lia|]; vm_compute; reflexivity
                 | exists 1; split; [lia|]; vm_compute; reflexivity
                 | exists 2; split; [lia|]; vm_compute; reflexivity
                 | exists 3; split; [lia|]; vm_compute; reflexivity ]|]).
  by apply elem_of_nil in Hin.
Qed.

Lemma func_flags_out_of_range flag :
  flag < 1 ∨ 15 < flag → __get_flags flag ta_func_flags = Ok None.
Proof.
  intros Hflag. unfold __get_flags.
  change (2 ^ Z.of_nat (size ta_func_flags) - 1) with 15.
  destruct (Z.ltb_spec flag 1); [done|].
  destruct (Z.gtb_spec flag 15); [done|lia].
Qed.

Lemma func_flags_none flag r : __get_flags flag ta_func_flags = Ok r → r = None.
Proof.
  destruct (decide (1 ≤ flag ≤ 15)) as [Hin|Hout].
  - destruct (func_flags_in_range flag Hin) as (i & _ & ->). done.
  - rewrite func_flags_out_of_range by lia. by intros [= <-].
Qed.

End FlagTables.

(** X1.  The table of the function flags has the keys [2**24], [2**26],
    [2**27] and [2**28], and the decoder measures a flag against the size
    of the table: a flag below 1 or above 15, and so every flag of the
    table and every combination of them, decodes to [None]; a flag from 1
    to 15 raises the [KeyError] of a power of two that is not a key.  So
    the decoder never returns a label of a function flag, and the info
    dict of [_ta_getFuncInfo], when the call returns, has [None] for its
    flags. *)
Theorem func_flags_never_decoded (flag : Z) :
  (flag < 1 ∨ 15 < flag → __get_flags flag ta_func_flags = Ok None)
  ∧ (1 ≤ flag ≤ 15 →
     ∃ i, 0 ≤ i < 4
          ∧ __get_flags flag ta_func_flags = Raise (KeyError (PInt (2 ^ i))))
  ∧ (is_Some (ta_func_flags !! flag) → __get_flags flag ta_func_flags = Ok None)
  ∧ (∀ lib function_name info,
       _ta_getFuncInfo lib function_name = Ok info → fd_flags info = None).
Proof.
  split; [apply func_flags_out_of_range|]. split; [apply func_flags_in_range|].
  split.
  - intros [label Hlabel]. apply func_flags_out_of_range. right.
    unfold ta_func_flags in Hlabel.
    apply elem_of_list_to_map_2 in Hlabel.
    repeat (apply elem_of_cons in Hlabel as [[= -> _]|Hlabel]; [lia|]).
    by apply elem_of_nil in Hlabel.
  - intros lib function_name info. unfold _ta_getFuncInfo.
    destruct (__ta_getFuncHandle lib function_name) as [h|]; cbn; [|done].
    destruct (TA_GetFuncInfo lib h) as [retCode raw].
    destruct (_ta_check_success _ retCode); cbn; [|done].
    destruct (__get_flags _ _) as [r|] eqn:Hflags; cbn; [|done].
    apply func_flags_none in Hflags as ->. by intros [= <-].
Qed.

(** A flag of the table, two of them together, and the flag 8. *)
Lemma func_flags_never_decoded_witness :
  __get_flags 16777216 ta_func_flags = Ok None
  ∧ __get_flags (Z.lor 16777216 134217728) ta_func_flags = Ok None
  ∧ ∃ i, __get_flags 8 ta_func_flags = Raise (KeyError (PInt (2 ^ i))).
Proof.
  destruct (func_flags_never_decoded 16777216) as (_ & _ & Hkey & _).
  destruct (func_flags_never_decoded (Z.lor 16777216 134217728)) as (Hout & _).
  destruct (func_flags_never_decoded 8) as (_ & Hin & _).
  split; [apply Hkey; by vm_compute; eexists|].
  split; [apply Hout; right; by vm_compute|].
  destruct Hin as (i & _ & Hi); [lia|]. by exists i.
Defined.

Section DenseTables.

Lemma input_flags_dense : dense ta_input_flags.
Proof.
  intros i Hi. change (size ta_input_flags) with 7%nat in Hi.
  do 7 (destruct i as [|i]; [by vm_compute; eexists|]). lia.
Qed.


(** A flag within the range has a bit set below the size of the table. *)
Lemma set_bits_nonempty flag n :
  1 ≤ flag ≤ 2 ^ Z.of_nat n - 1 → set_bits flag 0 n ≠ [].
Proof.
  intros Hflag Hnil.
  assert (Z.to_nat (Z.log2 flag) ∈ set_bits flag 0 n) as Hin.
  { apply elem_of_set_bits.
    pose proof (Z.log2_nonneg flag).
    assert (Z.log2 flag < Z.of_nat n) by (apply Z.log2_lt_pow2; lia).
    split; [lia|]. rewrite Z2Nat.id by done. apply Z.bit_log2. lia. }
  rewrite Hnil in Hin. by apply elem_of_nil in Hin.
Qed.

(** On a dense table the decoder raises nothing. *)
Lemma get_flags_dense flag table :
  dense table →
  ∃ r, __get_flags flag table = Ok r
       ∧ (r = None ↔ flag < 1 ∨ 2 ^ Z.of_nat (size table) - 1 < flag)
       ∧ (∀ labels, r = Some labels →
            labels ≠ []
            ∧ Forall2 (λ i label, table !! (2 ^ Z.of_nat i) = Some label)
                      (set_bits flag 0 (size table)) labels).
Proof.
  intros Hdense. unfold __get_flags.
  destruct (Z.ltb_spec flag 1) as [Hlt|Hge].
  { exists None. split; [done|]. split; [intuition lia|done]. }
  destruct (Z.gtb_spec flag (2 ^ Z.of_nat (size table) - 1)) as [Hgt|Hle].
  { exists None. split; [done|]. split; [intuition lia|done]. }
  cbn [orb].
  destruct (get_flags_loop_dense flag table (size table) 0%nat [])
    as (labels & -> & Hall).
  { intros i Hi. apply Hdense. lia. }
  exists (Some labels). split; [done|]. split; [split; [done|lia]|].
  intros ? [= <-]. split; [|done]. intros ->.
  apply Forall2_nil_inv_r in Hall. by apply (set_bits_nonempty flag (size table)).
Qed.

End DenseTables.

Section NativeCalls.

Lemma check_success_ok name : _ta_check_success name TA_SUCCESS = Ok true.
Proof. reflexivity. Qed.


Lemma getFuncHandle_success lib name :
  (TA_GetFuncHandle lib name).1 = TA_SUCCESS →
  __ta_getFuncHandle lib name = Ok (TA_GetFuncHandle lib name).2.
Proof.
  unfold __ta_getFuncHandle. destruct (TA_GetFuncHandle lib name) as [rc h].
  cbn. intros ->. by rewrite check_success_ok.
Qed.


End NativeCalls.



Section RoundTrip.

Lemma flags_of_nonneg bits : 0 ≤ flags_of bits.
Proof.
  induction bits as [|i bits IH]; [done|].
  change (flags_of (i :: bits)) with (Z.lor (2 ^ Z.of_nat i) (flags_of bits)).
  apply Z.lor_nonneg. split; [apply Z.pow_nonneg; lia|done].
Qed.

Lemma testbit_flags_of bits (j : nat) :
  Z.testbit (flags_of bits) (Z.of_nat j) = bool_decide (j ∈ bits).
Proof.
  induction bits as [|i bits IH].
  - cbn. by rewrite Z.bits_0.
  - change (flags_of (i :: bits)) with (Z.lor (2 ^ Z.of_nat i) (flags_of bits)).
    rewrite Z.lor_spec, IH, Z.pow2_bits_eqb by lia.
    destruct (Z.eqb_spec (Z.of_nat i) (Z.of_nat j)) as [Heq|Hne].
    + apply Nat2Z.inj in Heq as ->. cbn. symmetry. apply bool_decide_eq_true_2. set_solver.
    + cbn. apply bool_decide_ext. rewrite elem_of_cons.
      split; [by right|]. intros [->|?]; [done|done].
Qed.

Lemma flags_of_bound bits n :
  Forall (λ i, (i < n)%nat) bits → flags_of bits < 2 ^ Z.of_nat n.
Proof.
  intros Hbits. pose proof (flags_of_nonneg bits) as Hnonneg.
  destruct (decide (flags_of bits = 0)) as [->|Hne]; [apply Z.pow_pos_nonneg; lia|].
  apply Z.log2_lt_pow2; [lia|].
  destruct (decide (Z.log2 (flags_of bits) < Z.of_nat n)) as [|Hge]; [done|].
  exfalso.
  pose proof (Z.bit_log2 (flags_of bits) ltac:(lia)) as Hbit.
  pose proof (Z.log2_nonneg (flags_of bits)) as Hlog.
  rewrite <- (Z2Nat.id (Z.log2 (flags_of bits))) in Hbit by done.
  rewrite testbit_flags_of in Hbit. apply bool_decide_eq_true_1 in Hbit.
  rewrite Forall_forall in Hbits. specialize (Hbits _ Hbit). lia.
Qed.

Lemma StronglySorted_lt_NoDup (l : list nat) : StronglySorted lt l → NoDup l.
Proof.
  induction 1 as [|x l _ IH Hx]; constructor; [|done].
  intros Hin. rewrite Forall_forall in Hx. specialize (Hx _ Hin). lia.
Qed.

(** The bits the decoder finds in the flag word of [bits] are [bits]. *)
Lemma set_bits_flags_of bits n :
  StronglySorted lt bits → Forall (λ i, (i < n)%nat) bits →
  set_bits (flags_of bits) 0 n = bits.
Proof.
  intros Hsorted Hbits.
  apply (StronglySorted_unique_strong lt); [lia|apply set_bits_sorted|done|].
  apply NoDup_Permutation.
  - apply StronglySorted_lt_NoDup, set_bits_sorted.
  - by apply StronglySorted_lt_NoDup.
  - intros i. rewrite elem_of_set_bits, testbit_flags_of, bool_decide_eq_true.
    rewrite Forall_forall in Hbits. split; [by intros [_ ?]|].
    intros Hin. split; [by apply Hbits|done].
Qed.

End RoundTrip.

(** X3.  Decoding undoes the bitwise OR.  For a table that has a label
    under [2**i] for every position [i] below its size, and positions
    [bits] below that size, in increasing order and not empty: the flag
    word that is the OR of the keys [2**i] of these positions decodes to
    the labels of exactly these positions, in their order. *)
Theorem get_flags_round_trip
    (table : gmap Z string) (bits : list nat) (labels : list string) :
  dense table →
  bits ≠ [] → StronglySorted lt bits →
  Forall (λ i, (i < size table)%nat) bits →
  Forall2 (λ i label, table !! (2 ^ Z.of_nat i) = Some label) bits labels →
  __get_flags (flags_of bits) table = Ok (Some labels).
Proof.
  intros Hdense Hne Hsorted Hbits Hlabels.
  destruct (get_flags_dense (flags_of bits) table Hdense) as (r & -> & Hnone & Hsome).
  pose proof (flags_of_bound bits _ Hbits) as Hbound.
  pose proof (flags_of_nonneg bits) as Hnonneg.
  assert (flags_of bits ≠ 0) as Hnz.
  { intros Hz. destruct bits as [|i bits]; [done|].
    pose proof (testbit_flags_of (i :: bits) i) as Hbit.
    rewrite Hz, Z.bits_0 in Hbit. symmetry in Hbit.
    apply bool_decide_eq_false_1 in Hbit. apply Hbit. set_solver. }
  destruct r as [labels'|]; [|destruct Hnone as [Hnone _]; specialize (Hnone eq_refl); lia].
  destruct (Hsome _ eq_refl) as [_ Hall].
  rewrite set_bits_flags_of in Hall by done.
  do 2 f_equal. clear -Hall Hlabels.
  revert labels' Hall. induction Hlabels as [|i label bits labels Hi _ IH];
    intros labels' Hall.
  - by apply Forall2_nil_inv_l in Hall.
  - apply Forall2_cons_inv_l in Hall as (label' & labels'' & Hi' & Hall & ->).
    f_equal; [congruence|by apply IH].
Qed.

(** The positions 1, 2 and 3 of the table of the input flags make the
    flag word 14. *)
Lemma get_flags_round_trip_witness :
  flags_of [1; 2; 3]%nat = 14
  ∧ __get_flags (flags_of [1; 2; 3]%nat) ta_input_flags
    = Ok (Some ["high"; "low"; "close"]).
Proof.
  split; [vm_compute; reflexivity|].
  apply (get_flags_round_trip ta_input_flags [1; 2; 3]%nat ["high"; "low"; "close"]).
  - exact input_flags_dense.
  - discriminate.
  - repeat constructor; lia.
  - change (size ta_input_flags) with 7%nat. repeat constructor; lia.
  - repeat constructor; vm_compute; reflexivity.
Defined.

(** ** The case of the published names *)

Module PyStrCase.
Import PyStr.

Lemma lower_ascii_idemp c : lower_ascii (lower_ascii c) = lower_ascii c.
Proof. destruct c as [[] [] [] [] [] [] [] []]; vm_compute; reflexivity. Qed.

Lemma lower_idemp s : lower (lower s) = lower s.
Proof.
  induction s as [|c s IH]; [done|]. cbn. by rewrite lower_ascii_idemp, IH.
Qed.

Lemma lower_app s1 s2 : lower (s1 ++ s2) = (lower s1 ++ lower s2)%string.
Proof.
  induction s1 as [|c s1 IH]; [done|].
  change (String c s1 ++ s2)%string with (String c (s1 ++ s2)%string).
  cbn [lower]. rewrite IH. done.
Qed.

Lemma lower_slice_from n s : lower (slice_from n s) = slice_from n (lower s).
Proof.
  revert s. induction n as [|n IH]; intros [|c s]; cbn; auto.
Qed.

(** Replacing in a lower-case string by a lower-case string gives a
    lower-case string. *)
Lemma lower_replace_from old new s : ∀ skip,
  lower new = new → lower s = s →
  lower (replace_from old new skip s) = replace_from old new skip s.
Proof.
  induction s as [|c s IH]; intros skip Hnew Hs; [done|].
  cbn [lower] in Hs. injection Hs as Hc Hs.
  cbn [replace_from]. destruct skip as [|k]; [|by apply IH].
  destruct (String.prefix old (String c s)).
  - rewrite lower_app, Hnew. by rewrite IH.
  - cbn [lower]. by rewrite Hc, IH.
Qed.

Lemma upper_ascii_idemp c : upper_ascii (upper_ascii c) = upper_ascii c.
Proof. destruct c as [[] [] [] [] [] [] [] []]; vm_compute; reflexivity. Qed.

Lemma upper_idemp s : upper (upper s) = upper s.
Proof.
  induction s as [|c s IH]; [done|]. cbn. by rewrite upper_ascii_idemp, IH.
Qed.

End PyStrCase.

(** X4.  Whatever the raw name, the name an input slot, an optional
    parameter or an output slot is published under is in lower case:
    lower-casing it changes nothing. *)
Theorem published_names_lower_case (paramName : string) :
  PyStr.lower (input_param_name paramName) = input_param_name paramName
  ∧ PyStr.lower (opt_input_param_name paramName) = opt_input_param_name paramName
  ∧ PyStr.lower (output_param_name paramName) = output_param_name paramName.
Proof.
  unfold input_param_name, opt_input_param_name, output_param_name. split_all.
  - destruct (PyStr.contains "real" _).
    + apply PyStrCase.lower_replace_from; [done|apply PyStrCase.lower_idemp].
    + destruct (PyStr.contains "price" _); [done|apply PyStrCase.lower_idemp].
  - apply PyStrCase.lower_idemp.
  - destruct (_ && _).
    + by rewrite PyStrCase.lower_slice_from, PyStrCase.lower_idemp.
    + apply PyStrCase.lower_idemp.
Qed.

(** ** What a method keeps *)

(** One step of a proof that a method keeps a property: through the
    monad, the loops and the tests, down to the assignments, which [base]
    settles. *)
Ltac keeps_step base :=
  lazymatch goal with
  | |- keeps _ (mret _) => apply keeps_ret
  | |- keeps _ (raise _) => apply keeps_raise
  | |- keeps _ (lift _) => apply keeps_lift
  | |- keeps _ get_self => apply keeps_get_self
  | |- keeps _ (_ ≫= _) => apply keeps_bind; [|intros ?]
  | |- keeps _ (for_each _ _) => apply keeps_for_each; intros ? _
  | |- keeps _ (for_each_acc _ _ _) => apply keeps_for_each_acc; intros ? ? _
  | |- keeps _ (match ?x with _ => _ end) => destruct x
  | |- _ => base
  end.

Section Stable.

(** A property of the facade that every assignment a method makes
    preserves: a value given to a slot that is there, a series bound to a
    slot that is there, a result stored, the cache flag set, the
    parameters of the info dict refreshed, and a dict of the five series
    taken for the input arrays. *)
Context (Q : Function → Prop).
Hypothesis Q_value : ∀ f k info v,
  OD.get k (__opt_inputs f) = Some info → Q f →
  Q (with_opt_inputs (OD.set k (with_value v info) (__opt_inputs f)) f).
Hypothesis Q_series : ∀ f k info v,
  OD.get k (__input_names f) = Some info → Q f →
  Q (with_input_names (OD.set k (with_price_series v info) (__input_names f)) f).
Hypothesis Q_output : ∀ f k v, Q f → Q (with_outputs (OD.set k v (__outputs f)) f).
Hypothesis Q_valid : ∀ f b, Q f → Q (with_outputs_valid b f).
Hypothesis Q_info : ∀ f ps, Q f → Q (set_info_parameters ps f).
Hypothesis Q_arrays : ∀ f d,
  dom d = canonical_series → Q f → Q (with_input_arrays d f).

Lemma stable_assign_value k v : keeps (on_self Q) (assign_value k v).
Proof.
  intros w HQ. destruct (decide (k ∈ OD.keys (__opt_inputs (self w)))) as [Hin|Hin].
  - destruct (assign_value_present k v w Hin) as (info & Hget & ->).
    by apply Q_value.
  - by rewrite assign_value_absent.
Qed.

Lemma stable_assign_price_series k v : keeps (on_self Q) (assign_price_series k v).
Proof.
  intros w HQ. destruct (decide (k ∈ OD.keys (__input_names (self w)))) as [Hin|Hin].
  - destruct (assign_price_series_present k v w Hin) as (info & Hget & ->).
    by apply Q_series.
  - unfold assign_price_series.
    by rewrite run_get_self, (ODFacts.getitem_absent k _ Hin), run_lift_raise.
Qed.

Lemma stable_assign_output k v : keeps (on_self Q) (assign_output k v).
Proof. intros w HQ. by apply Q_output. Qed.

Lemma stable_set_valid b : keeps (on_self Q) (modify_self (with_outputs_valid b)).
Proof. intros w HQ. by apply Q_valid. Qed.

Lemma stable_update_info : keeps (on_self Q) update_info_parameters.
Proof.
  unfold update_info_parameters.
  repeat keeps_step ltac:(intros w HQ; by apply Q_info).
Qed.

Lemma stable_set_input_arrays v : keeps (on_self Q) (set_input_arrays v).
Proof.
  destruct v; try apply keeps_ret. unfold set_input_arrays.
  case_bool_decide as Hkeys; [|apply keeps_ret].
  apply sorted_keys_canonical in Hkeys.
  repeat keeps_step ltac:(first [apply stable_set_valid
                                |intros w HQ; by apply Q_arrays]).
Qed.

Ltac stable_step :=
  repeat keeps_step ltac:(first
    [ apply stable_assign_value | apply stable_assign_price_series
    | apply stable_assign_output | apply stable_set_valid
    | apply stable_update_info | apply stable_set_input_arrays ]).

Lemma stable_set_input_names ns : keeps (on_self Q) (set_input_names ns).
Proof. unfold set_input_names. stable_step. Qed.

Lemma stable_set_parameters ps : keeps (on_self Q) (set_parameters ps).
Proof. unfold set_parameters. stable_step. Qed.

Lemma stable_set_function_args args kwargs :
  keeps (on_self Q) (set_function_args args kwargs).
Proof. unfold set_function_args. stable_step. Qed.

Lemma stable_store_results results : keeps (on_self Q) (store_results results).
Proof. unfold store_results. stable_step. Qed.

Variable lib : TALib.

Lemma stable_call_function : keeps (on_self Q) (__call_function lib).
Proof.
  unfold __call_function.
  repeat keeps_step ltac:(first
    [ apply keeps_call_kernel | apply stable_store_results | apply stable_set_valid ]).
Qed.

Lemma stable_outputs : keeps (on_self Q) (outputs lib).
Proof.
  unfold outputs. repeat keeps_step ltac:(apply stable_call_function).
Qed.

Lemma stable_run v : keeps (on_self Q) (run lib v).
Proof.
  unfold run.
  repeat keeps_step ltac:(first
    [ apply stable_set_input_arrays | apply stable_call_function | apply stable_outputs ]).
Qed.

Lemma stable_call args kwargs : keeps (on_self Q) (__call__ lib args kwargs).
Proof.
  unfold __call__.
  repeat keeps_step ltac:(first
    [ apply stable_set_function_args | apply stable_call_function
    | apply stable_outputs ]).
Qed.

(** Such a property holds after a call when it holds before. *)
Lemma perform_stable c w : Q (self w) → Q (self (perform lib c w)).
Proof.
  destruct c; cbn [perform].
  - apply stable_set_input_names.
  - apply stable_set_input_arrays.
  - apply stable_set_parameters.
  - apply stable_set_function_args.
  - apply (keeps_lookback lib Q).
  - apply stable_outputs.
  - apply stable_run.
  - apply stable_call.
Qed.

End Stable.

Section Untouched.

Variable w0 : World.

Lemma untouched_modify g : keeps (untouched w0) (modify_self g).
Proof. by intros w. Qed.

Ltac untouched_step :=
  repeat keeps_step ltac:(first
    [ apply untouched_modify
    | progress unfold assign_value, assign_price_series, assign_output,
        update_info_parameters, set_input_arrays ]).

Lemma untouched_set_input_arrays v : keeps (untouched w0) (set_input_arrays v).
Proof. unfold set_input_arrays. untouched_step. Qed.

Lemma untouched_set_input_names ns : keeps (untouched w0) (set_input_names ns).
Proof. unfold set_input_names. untouched_step. Qed.

Lemma untouched_set_parameters ps : keeps (untouched w0) (set_parameters ps).
Proof. unfold set_parameters. untouched_step. Qed.

Lemma untouched_set_function_args args kwargs :
  keeps (untouched w0) (set_function_args args kwargs).
Proof. unfold set_function_args. untouched_step. Qed.

Lemma untouched_store_results results : keeps (untouched w0) (store_results results).
Proof. unfold store_results. untouched_step. Qed.

Variable lib : TALib.

Lemma untouched_initialize : keeps (untouched w0) (__initialize_private_variables lib).
Proof.
  unfold __initialize_private_variables.
  repeat keeps_step ltac:(first
    [ apply untouched_modify
    | progress unfold discover_input, discover_opt_input, discover_output,
        assign_output, update_info_parameters ]).
Qed.

Lemma untouched_init function_name input_arrays :
  keeps (untouched w0) (__init__ lib function_name input_arrays).
Proof.
  unfold __init__.
  repeat keeps_step ltac:(first
    [ apply untouched_modify | apply untouched_initialize
    | apply untouched_set_input_arrays ]).
Qed.

End Untouched.

Section StableInit.

(** A property of the facade that every assignment of the discovery
    preserves. *)
Variable lib : TALib.
Context (Q : Function → Prop).
Hypothesis Q_info : ∀ f i, Q f → Q (with_info i f).
Hypothesis Q_input : ∀ f k info,
  Q f → Q (with_input_names (OD.set k info (__input_names f)) f).
Hypothesis Q_opt : ∀ f function_name idx info,
  _ta_getOptInputParameterInfo lib function_name idx = Ok info →
  Q f → Q (with_opt_inputs (OD.set (opt_name info) info (__opt_inputs f)) f).
Hypothesis Q_output : ∀ f k,
  Q f → Q (with_outputs (OD.set k PNone (__outputs f)) f).

Lemma stable_discover_input name i : keeps (on_self Q) (discover_input lib name i).
Proof.
  unfold discover_input.
  repeat keeps_step ltac:(intros w HQ; by apply Q_input).
Qed.

Lemma stable_discover_opt_input name i :
  keeps (on_self Q) (discover_opt_input lib name i).
Proof.
  unfold discover_opt_input.
  destruct (_ta_getOptInputParameterInfo lib name i) as [info|e] eqn:Hinfo.
  - intros w HQ. rewrite run_lift_ok, modify_self_eq. by eapply Q_opt.
  - by intros w HQ.
Qed.

Lemma stable_discover_output name i : keeps (on_self Q) (discover_output lib name i).
Proof.
  unfold discover_output, assign_output.
  repeat keeps_step ltac:(intros w HQ; by apply Q_output).
Qed.

Lemma stable_initialize : keeps (on_self Q) (__initialize_private_variables lib).
Proof.
  unfold __initialize_private_variables, update_info_parameters.
  repeat keeps_step ltac:(first
    [ apply stable_discover_input | apply stable_discover_opt_input
    | apply stable_discover_output
    | intros w HQ; by apply Q_info ]).
Qed.

End StableInit.

(** ** Construction *)

Section InitReturns.

Variable lib : TALib.

(** A construction that returns: the name is one of the library, the
    discovery has returned on the fresh attributes, and the input arrays
    were then offered to [set_input_arrays] when they are true. *)
Lemma init_ok_inv function_name input_arrays w w' :
  __init__ lib function_name input_arrays w = (Ok tt, w') →
  PyStr.upper function_name ∈ get_functions lib
  ∧ ∃ w1 b,
      __initialize_private_variables lib
        (set_self (fresh (PyStr.upper function_name)) w) = (Ok tt, w1)
      ∧ truthy input_arrays = Ok b
      ∧ w' = if b : bool then (set_input_arrays input_arrays w1).2 else w1.
Proof.
  destruct (decide (PyStr.upper function_name ∈ get_functions lib)) as [Hin|Hin];
    [|intros Hinit; pose proof (init_not_supported lib _ input_arrays w Hin) as Hr;
      by rewrite Hinit in Hr].
  rewrite (init_unfold _ _ _ _ Hin).
  intros ([] & w1 & Hinit & Hrest)%bind_inv.
  apply bind_inv in Hrest as (b & w2 & Htruthy & Hrest).
  assert (w2 = w1 ∧ truthy input_arrays = Ok b) as [-> Hb].
  { revert Htruthy. unfold lift. by intros [= -> <-]. }
  split; [done|]. exists w1, b. split; [done|]. split; [done|].
  destruct b; [|by injection Hrest as <-].
  apply bind_inv in Hrest as (b & w3 & Hset & Hrest). injection Hrest as <-.
  by rewrite Hset.
Qed.

End InitReturns.

Section ConstructionState.

Variable lib : TALib.

Lemma Forall_set {V} (P : V → Prop) k v (d : OD.t V) :
  P v → Forall (λ kv, P kv.2) d → Forall (λ kv, P kv.2) (OD.set k v d).
Proof.
  intros Hv. induction 1 as [|[k' v'] d Hkv Hd IH]; cbn.
  - by repeat constructor.
  - case_decide; constructor; done.
Qed.

Lemma parameters_ext f1 f2 :
  __opt_inputs f1 = __opt_inputs f2 → parameters f1 = parameters f2.
Proof.
  intros Heq. unfold parameters, __get_opt_input_value. by rewrite Heq.
Qed.

(** The parameters of a facade on which no value is set are the defaults. *)
Lemma parameters_unset f :
  NoDup (OD.keys (__opt_inputs f)) →
  Forall (λ kv, opt_value kv.2 = PNone) (__opt_inputs f) →
  parameters f = Ok (default_parameters f).
Proof.
  intros Hnodup Hunset. unfold parameters, default_parameters.
  assert (∀ kv, kv ∈ __opt_inputs f →
            __get_opt_input_value f kv.1 = Ok (opt_default_value kv.2)) as Hvalue.
  { intros [k info] Hin. cbn.
    rewrite Forall_forall in Hunset. specialize (Hunset _ Hin). cbn in Hunset.
    apply list_elem_of_split in Hin as (d1 & d2 & Hd).
    unfold __get_opt_input_value, OD.getitem. rewrite Hd, ODFacts.get_item.
    - cbn. by rewrite Hunset.
    - rewrite Hd in Hnodup. unfold OD.keys in *. rewrite fmap_app in Hnodup.
      apply NoDup_app in Hnodup as (_ & Hnot & _). intros Hk. apply (Hnot k Hk).
      cbn. set_solver. }
  unfold OD.keys. rewrite mapR_fmap.
  induction (__opt_inputs f) as [|kv d IH] in Hvalue |- *; [done|].
  cbn. rewrite (Hvalue kv) by set_solver. cbn.
  rewrite IH by (intros kv' Hkv'; apply Hvalue; set_solver). done.
Qed.

Lemma discovered_default_number function_name idx info :
  _ta_getOptInputParameterInfo lib function_name idx = Ok info →
  opt_value info = PNone ∧ is_number (opt_default_value info) = true.
Proof.
  unfold _ta_getOptInputParameterInfo.
  destruct (__ta_getFuncHandle lib function_name) as [handle|]; cbn; [|done].
  destruct (TA_GetOptInputParameterInfo lib handle idx) as [retCode raw].
  destruct (_ta_check_success _ retCode); cbn; [|done].
  intros [= <-]. cbn. split; [done|]. by case_match.
Qed.

(** What the discovery leaves in the info dict: the views of the slots as
    they are when it returns. *)
Lemma initialize_info w w' :
  __initialize_private_variables lib w = (Ok tt, w') →
  ∃ i,
    __info (self w') = Some i
    ∧ info_input_names i = input_names (self w')
    ∧ parameters (self w') = Ok (info_parameters i)
    ∧ info_output_names i = output_names (self w').
Proof.
  unfold __initialize_private_variables. rewrite run_get_self.
  destruct (_ta_getFuncInfo lib (__name (self w))) as [info|] eqn:Hinfo; [|done].
  rewrite run_lift_ok, run_modify_self.
  intros ([] & w1 & Hloop1 & Hrest)%bind_inv.
  rewrite run_modify_self in Hrest.
  apply bind_inv in Hrest as ([] & w2 & Hloop2 & Hrest).
  apply bind_inv in Hrest as ([] & w3 & Hupdate & Hrest).
  apply bind_inv in Hrest as ([] & w4 & Hloop3 & Hrest).
  rewrite modify_self_eq in Hrest. injection Hrest as <-.
  apply (for_each_frame (λ w, __info (self w))) in Hloop1;
    [|by intros i wa wb [info' ->]%discover_input_step].
  apply (for_each_frame (λ w, (__info (self w), __input_names (self w)))) in Hloop2;
    [|by intros i wa wb [info' ->]%discover_opt_input_step].
  apply (for_each_frame
           (λ w, (__info (self w), __input_names (self w), __opt_inputs (self w))))
    in Hloop3; [|by intros i wa wb ->%discover_output_step].
  unfold update_info_parameters in Hupdate. rewrite run_get_self in Hupdate.
  destruct (parameters (self w2)) as [ps|] eqn:Hps; [|done].
  rewrite run_lift_ok, modify_self_eq in Hupdate. injection Hupdate as <-.
  cbn in Hloop1, Hloop2, Hloop3.
  injection Hloop2 as Hinfo2 Hnames2. injection Hloop3 as Hinfo4 Hnames4 Hopt4.
  unfold set_info_parameters in Hinfo4. cbn in Hinfo4.
  rewrite Hinfo2 in Hinfo4. unfold set_info_input_names in Hinfo4. cbn in Hinfo4.
  rewrite Hloop1 in Hinfo4. cbn in Hinfo4.
  unfold set_info_output_names. cbn. rewrite Hinfo4. cbn.
  eexists. split; [done|]. cbn. split_all.
  - unfold input_names. cbn. by rewrite Hnames4, Hnames2.
  - rewrite <- Hps. apply parameters_ext. cbn. by rewrite Hopt4.
  - done.
Qed.

End ConstructionState.

Section OfferedArrays.

Lemma truthy_ok v :
  (∀ a, v = PArr a → (List.length (nd_data a) ≤ 1)%nat) → ∃ b, truthy v = Ok b.
Proof.
  intros Harr. destruct v as [| | | |a| |]; try by eexists.
  specialize (Harr a eq_refl). cbn.
  destruct (nd_data a) as [|x [|y l]]; cbn in Harr; [by eexists..|lia].
Qed.

Lemma set_input_arrays_refused v w :
  (∀ d, v = PDict d → dom d ≠ canonical_series) →
  set_input_arrays v w = (Ok false, w).
Proof.
  intros Hnot. destruct v as [| | | | | |d]; try done.
  unfold set_input_arrays. rewrite bool_decide_eq_false_2; [done|].
  intros Hdom%sorted_keys_canonical. by apply (Hnot d).
Qed.

Lemma set_input_arrays_accepted d w :
  dom d = canonical_series →
  set_input_arrays (PDict d) w
  = (Ok true, set_self (with_outputs_valid false (with_input_arrays d (self w))) w).
Proof.
  intros Hdom%sorted_keys_canonical. unfold set_input_arrays.
  by rewrite (bool_decide_eq_true_2 _ Hdom).
Qed.

Lemma offer_refused v w :
  (∀ d, v = PDict d → dom d ≠ canonical_series) →
  (∀ a, v = PArr a → (List.length (nd_data a) ≤ 1)%nat) →
  offer_input_arrays v w = (Ok tt, w).
Proof.
  intros Hdict Harr. unfold offer_input_arrays.
  destruct (truthy_ok v Harr) as [b ->]. rewrite run_lift_ok.
  destruct b; [|done]. erewrite bind_ok; [|by apply set_input_arrays_refused]. done.
Qed.

End OfferedArrays.

(** X5.  The constructor upper-cases the name it is given before it
    does anything else, so it does the same on a name and on the name in
    upper case.  When the upper-cased name is not among the functions of
    the library it raises the [Exception] whose message is that name
    followed by " not supported by TA-LIB.", and only the name of the
    facade has been assigned. *)
Theorem init_name_upper_cased
    (lib : TALib) (function_name : string) (input_arrays : pyval) (w : World) :
  __init__ lib function_name input_arrays w
  = __init__ lib (PyStr.upper function_name) input_arrays w
  ∧ (PyStr.upper function_name ∉ get_functions lib →
     __init__ lib function_name input_arrays w
     = (Raise (Exception (PyStr.upper function_name ++ " not supported by TA-LIB.")),
        set_self (with_name (PyStr.upper function_name) (self w)) w)).
Proof.
  split.
  - unfold __init__. by rewrite PyStrCase.upper_idemp.
  - intros Hin. unfold __init__.
    by rewrite run_modify_self, (bool_decide_eq_false_2 _ Hin), run_raise.
Qed.

(** The names sma and foo. *)
Lemma init_name_upper_cased_witness :
  __init__ Demo.lib "sma" PNone Demo.world0 = __init__ Demo.lib "SMA" PNone Demo.world0
  ∧ (__init__ Demo.lib "foo" PNone Demo.world0).1
    = Raise (Exception "FOO not supported by TA-LIB.").
Proof.
  destruct (init_name_upper_cased Demo.lib "sma" PNone Demo.world0) as [Hsame _].
  destruct (init_name_upper_cased Demo.lib "foo" PNone Demo.world0) as [_ Hfoo].
  split; [exact Hsame|]. rewrite Hfoo; [reflexivity|].
  apply (bool_decide_unpack _). vm_compute. exact I.
Defined.

(** X6.  An [input_arrays] that [set_input_arrays] does not take (any
    value but a dict of exactly the five series) is dropped without a word
    by the constructor and by [run], which do what they do without it: the
    answer of [set_input_arrays] is not looked at.  The one value that is
    not dropped is an array of more than one element, whose truth value
    cannot be taken. *)
Theorem unaccepted_input_arrays_ignored (lib : TALib) (input_arrays : pyval) (w : World) :
  (∀ d, input_arrays = PDict d → dom d ≠ canonical_series) →
  (∀ a, input_arrays = PArr a → (List.length (nd_data a) ≤ 1)%nat) →
  (∀ function_name,
     __init__ lib function_name input_arrays w = __init__ lib function_name PNone w)
  ∧ run lib input_arrays w = run lib PNone w.
Proof.
  intros Hdict Harr. split.
  - intros function_name. unfold __init__.
    do 9 (apply bind_congr; [reflexivity|intros ? ?]).
    lazymatch goal with
    | |- _ ?w1 = _ => change (offer_input_arrays input_arrays w1 = (Ok tt, w1))
    end.
    by apply offer_refused.
  - unfold run. destruct (truthy_ok input_arrays Harr) as [b ->].
    rewrite !run_lift_ok. destruct b; [|done].
    erewrite bind_ok; [done|].
    erewrite bind_ok; [|by apply set_input_arrays_refused]. done.
Qed.

(** A dict with the close series alone, and a number. *)
Lemma unaccepted_input_arrays_ignored_witness :
  let close_only := PDict {[ "close" := Demo.arr 4 ]} in
  __init__ Demo.lib "sma" close_only Demo.world0 = (Ok tt, Demo.new "sma")
  ∧ run Demo.lib (PInt 7) (Demo.new "sma") = run Demo.lib PNone (Demo.new "sma").
Proof.
  intros close_only.
  destruct (unaccepted_input_arrays_ignored Demo.lib close_only Demo.world0)
    as [Hinit _].
  { intros d [= <-]. apply (bool_decide_unpack _). vm_compute. exact I. }
  { intros a Ha. discriminate Ha. }
  destruct (unaccepted_input_arrays_ignored Demo.lib (PInt 7) (Demo.new "sma"))
    as [_ Hrun].
  { intros d Hd. discriminate Hd. }
  { intros a Ha. discriminate Ha. }
  split; [|exact Hrun]. rewrite Hinit. vm_compute. reflexivity.
Defined.

Section ConstructionReturns.

Variable lib : TALib.

Lemma initialize_pristine name w w' :
  __initialize_private_variables lib (set_self (fresh name) w) = (Ok tt, w') →
  __name (self w') = name
  ∧ __input_arrays (self w') = no_arrays
  ∧ pristine (self w').
Proof.
  intros Hinit.
  pose (Q := λ f, __name f = name ∧ __input_arrays f = no_arrays ∧ pristine f).
  enough (keeps (on_self Q) (__initialize_private_variables lib)) as Hkeeps.
  { specialize (Hkeeps (set_self (fresh name) w)). rewrite Hinit in Hkeeps.
    apply Hkeeps. repeat split; constructor. }
  apply stable_initialize; unfold Q, pristine.
  - intros f i (? & ? & ? & ? & ?). done.
  - intros f k info (? & ? & ? & ? & ?). done.
  - intros f function_name idx info Hinfo (? & ? & ? & ? & Hopt).
    apply discovered_default_number in Hinfo.
    split_all; try done. cbn.
    by apply (Forall_set (λ info, opt_value info = PNone
                                  ∧ is_number (opt_default_value info) = true)).
  - intros f k (? & ? & ? & Hout & ?).
    split_all; try done. cbn. by apply (Forall_set (λ v, v = PNone)).
Qed.

Lemma offer_arrays_given input_arrays b w :
  __input_arrays (self w) = no_arrays →
  truthy input_arrays = Ok b →
  let w' := if b : bool then (set_input_arrays input_arrays w).2 else w in
  __input_arrays (self w') = arrays_given input_arrays
  ∧ __name (self w') = __name (self w)
  ∧ __info (self w') = __info (self w)
  ∧ __input_names (self w') = __input_names (self w)
  ∧ __opt_inputs (self w') = __opt_inputs (self w)
  ∧ __outputs (self w') = __outputs (self w)
  ∧ (__outputs_valid (self w) = false → __outputs_valid (self w') = false).
Proof.
  intros Hnone Hb. cbv zeta.
  destruct input_arrays as [| | | | | |d];
    try (rewrite set_input_arrays_refused by (intros ? [=]);
         unfold arrays_given; by destruct b).
  unfold arrays_given. case_decide as Hdom.
  - assert (b = true) as ->.
    { cbn in Hb. injection Hb as <-. rewrite bool_decide_eq_false_2; [done|].
      intros ->. rewrite dom_empty_L in Hdom.
      assert ("open" ∈ canonical_series) as Hin by (unfold canonical_series; set_solver).
      rewrite <- Hdom in Hin. set_solver. }
    by rewrite set_input_arrays_accepted by done.
  - rewrite set_input_arrays_refused by (by intros ? [= <-]). by destruct b.
Qed.

End ConstructionReturns.

(** X7.  A construction that returns leaves a facade under the
    upper-cased name, which is a function of the library; it has called no
    kernel and left no parameter holder; the cache is invalid, every output
    is [None], no optional parameter has a value and every default is a
    number; the input arrays are the dict given when that is a dict of the
    five series, and otherwise the five series with no array. *)
Theorem construction_state
    (lib : TALib) (function_name : string) (input_arrays : pyval) (w w' : World) :
  __init__ lib function_name input_arrays w = (Ok tt, w') →
  (__name (self w') = PyStr.upper function_name
   ∧ __name (self w') ∈ get_functions lib)
  ∧ untouched w w'
  ∧ pristine (self w')
  ∧ __input_arrays (self w') = arrays_given input_arrays.
Proof.
  intros Hinit.
  pose proof (untouched_init w lib function_name input_arrays w
                ltac:(by repeat split)) as Hworld.
  rewrite Hinit in Hworld.
  apply init_ok_inv in Hinit as (Hin & w1 & b & Hinit & Hb & ->).
  apply initialize_pristine in Hinit as (Hname & Harrays & Hvalid & Hout & Hopt).
  destruct (offer_arrays_given input_arrays b w1 Harrays Hb)
    as (Ha & Hn & _ & _ & Ho & Hu & Hvalid').
  unfold pristine. rewrite Ha, Hn, Ho, Hu, Hname. split_all; try done.
  by apply Hvalid'.
Qed.

(** The facade of STDDEV, constructed with the five series. *)
Lemma construction_state_witness :
  let w' := (__init__ Demo.lib "stddev" Demo.ohlcv Demo.world0).2 in
  __name (self w') = "STDDEV"
  ∧ kernel_calls w' = []
  ∧ __outputs (self w') = [("real", PNone)]
  ∧ opt_value <$> OD.get "nbdev" (__opt_inputs (self w')) = Some PNone
  ∧ PDict (__input_arrays (self w')) = Demo.ohlcv.
Proof.
  intros w'.
  assert (__init__ Demo.lib "stddev" Demo.ohlcv Demo.world0 = (Ok tt, w')) as Hinit
    by (vm_compute; reflexivity).
  destruct (construction_state Demo.lib "stddev" Demo.ohlcv Demo.world0 w' Hinit)
    as ((Hname & _) & (Hlog & _) & (_ & Hout & Hopt) & Harrays).
  split; [rewrite Hname; vm_compute; reflexivity|].
  split; [rewrite Hlog; reflexivity|].
  split; [vm_compute; reflexivity|].
  split; [vm_compute; reflexivity|].
  rewrite Harrays. vm_compute. reflexivity.
Defined.

(** X8.  On a facade just constructed, [parameters] is the defaults of
    the optional parameters, slot by slot, and the info dict holds the
    three views as the properties give them: [input_names], [parameters]
    and [output_names]. *)
Theorem construction_publishes_defaults
    (lib : TALib) (function_name : string) (input_arrays : pyval) (w w' : World) :
  __init__ lib function_name input_arrays w = (Ok tt, w') →
  parameters (self w') = Ok (default_parameters (self w'))
  ∧ ∃ i,
      __info (self w') = Some i
      ∧ info_input_names i = input_names (self w')
      ∧ info_parameters i = default_parameters (self w')
      ∧ info_output_names i = output_names (self w').
Proof.
  intros Hinit.
  destruct (init_NoDup lib _ _ _ _ Hinit) as (_ & Hnodup & _).
  apply init_ok_inv in Hinit as (Hin & w1 & b & Hinit & Hb & ->).
  destruct (initialize_info lib _ _ Hinit) as (i & Hinfo & Hnames & Hparams & Houtputs).
  apply initialize_pristine in Hinit as (_ & Harrays & _ & _ & Hopt).
  destruct (offer_arrays_given input_arrays b w1 Harrays Hb)
    as (_ & _ & Hinfo' & Hnames' & Hopt' & Hout' & _).
  set (w' := if b then _ else _) in *.
  assert (parameters (self w') = Ok (default_parameters (self w'))) as Hdefaults.
  { apply parameters_unset; [done|]. rewrite Hopt'.
    eapply Forall_impl; [exact Hopt|]. by intros kv [? _]. }
  split; [done|]. exists i. rewrite Hinfo'. split; [done|]. split_all.
  - unfold input_names. by rewrite Hnames'.
  - rewrite (parameters_ext _ _ Hopt') in Hdefaults. congruence.
  - unfold output_names. by rewrite Hout'.
Qed.

(** The facade of BBANDS. *)
Lemma construction_publishes_defaults_witness :
  let w' := Demo.new "bbands" in
  parameters (self w')
  = Ok [("timeperiod", PInt 5); ("nbdevup", PInt 2); ("nbdevdn", PInt 2);
        ("matype", PInt 0)]
  ∧ info_parameters <$> __info (self w') = Some (default_parameters (self w')).
Proof.
  intros w'.
  assert (__init__ Demo.lib "bbands" PNone Demo.world0 = (Ok tt, w')) as Hinit
    by (vm_compute; reflexivity).
  destruct (construction_publishes_defaults Demo.lib "bbands" PNone Demo.world0 w' Hinit)
    as (Hparams & i & Hinfo & _ & Hdefaults & _).
  split; [rewrite Hparams; vm_compute; reflexivity|].
  rewrite Hinfo. cbn. by rewrite Hdefaults.
Defined.

(** ** What holds of every facade *)

Section Invariants.

Variable lib : TALib.

Lemma fmap_set_same {V W} (g : V → W) k v (d : OD.t V) info :
  OD.get k d = Some info → g v = g info →
  (λ kv : string * V, (kv.1, g kv.2)) <$> OD.set k v d
  = (λ kv : string * V, (kv.1, g kv.2)) <$> d.
Proof.
  intros Hget Hg. induction d as [|[k' v'] d IH]; [done|].
  cbn in Hget |- *. case_decide as Hk.
  - injection Hget as ->. subst k'. cbn. by rewrite Hg.
  - cbn. f_equal. by apply IH.
Qed.

Lemma dom_no_arrays : dom no_arrays = canonical_series.
Proof. apply (bool_decide_unpack _). vm_compute. exact I. Qed.

Lemma dom_arrays_given input_arrays : dom (arrays_given input_arrays) = canonical_series.
Proof.
  unfold arrays_given. destruct input_arrays; try apply dom_no_arrays.
  case_decide; [done|apply dom_no_arrays].
Qed.

(** The input arrays of a facade are a dict of the five series. *)
Lemma reachable_input_arrays w :
  reachable lib w → dom (__input_arrays (self w)) = canonical_series.
Proof.
  induction 1 as [function_name input_arrays w w' Hinit|c w _ IH].
  - apply init_ok_inv in Hinit as (_ & w1 & b & Hinit & Hb & ->).
    apply initialize_pristine in Hinit as (_ & Harrays & _).
    destruct (offer_arrays_given input_arrays b w1 Harrays Hb) as (-> & _).
    apply dom_arrays_given.
  - revert IH. by apply (perform_stable (λ f, dom (__input_arrays f) = canonical_series)).
Qed.

Lemma perform_identity c w : identity (self (perform lib c w)) = identity (self w).
Proof.
  apply (perform_stable (λ f, identity f = identity (self w))); [..|done];
    unfold identity.
  - intros f k info v Hget <-. cbn. f_equal.
    by apply (fmap_set_same (with_value PNone) k _ _ info).
  - by intros f k info v Hget <-.
  - by intros f k v <-.
  - by intros f b <-.
  - intros f ps <-. cbn. do 2 f_equal. by destruct (__info f).
  - by intros f d _ <-.
Qed.

Lemma mapR_raise {A B} (g : A → result B) l x e0 :
  x ∈ l → g x = Raise e0 → ∃ e, mapR g l = Raise e.
Proof.
  intros Hin Hx. induction l as [|y l IH]; [by apply elem_of_nil in Hin|].
  cbn. destruct (g y) as [b|e] eqn:Hy; [|by eexists]. cbn.
  apply elem_of_cons in Hin as [->|Hin]; [congruence|].
  destruct (IH Hin) as [e ->]. by eexists.
Qed.

(** A facade has an info dict. *)
Lemma reachable_info w : reachable lib w → is_Some (__info (self w)).
Proof.
  induction 1 as [function_name input_arrays w w' Hinit|c w _ IH].
  - apply init_ok_inv in Hinit as (_ & w1 & b & Hinit & Hb & ->).
    destruct (initialize_info lib _ _ Hinit) as (i & Hinfo & _).
    apply initialize_pristine in Hinit as (_ & Harrays & _).
    destruct (offer_arrays_given input_arrays b w1 Harrays Hb) as (_ & _ & -> & _).
    by eexists.
  - pose proof (perform_identity c w) as Hid.
    injection Hid as _ Hinfo _. destruct IH as [i Hi]. rewrite Hi in Hinfo.
    destruct (__info (self (perform lib c w))); [by eexists|done].
Qed.

End Invariants.

(** X9.  Whatever calls were made on a facade, the dict
    [get_input_arrays] returns has exactly the keys open, high, low, close
    and volume. *)
Theorem input_arrays_have_five_keys (lib : TALib) (w : World) (k : string) :
  reachable lib w →
  is_Some (get_input_arrays (self w) !! k)
  ↔ k ∈ ["open"; "high"; "low"; "close"; "volume"].
Proof.
  intros Hdom%reachable_input_arrays. unfold get_input_arrays.
  rewrite <- elem_of_dom, Hdom. unfold canonical_series. set_solver.
Qed.

(** After a [run] that was given the close series alone. *)
Lemma input_arrays_have_five_keys_witness :
  let w := (run Demo.lib (PDict {[ "close" := Demo.arr 4 ]}) (Demo.new "sma")).2 in
  is_Some (get_input_arrays (self w) !! "volume")
  ∧ ¬ is_Some (get_input_arrays (self w) !! "adjclose").
Proof.
  intros w.
  assert (reachable Demo.lib w) as Hreach.
  { apply (reachable_perform Demo.lib (Run _)).
    apply (reachable_init Demo.lib "sma" PNone Demo.world0). vm_compute. reflexivity. }
  split.
  - apply (input_arrays_have_five_keys Demo.lib w "volume" Hreach). set_solver.
  - intros Hk. apply (input_arrays_have_five_keys Demo.lib w "adjclose" Hreach) in Hk.
    set_solver.
Defined.

(** X10.  No call changes the name of the facade, the entries of its
    info dict other than the parameters (so the input names of the info
    dict are those of the construction, whatever was bound since), or the
    type and the default of an optional parameter. *)
Theorem calls_keep_identity (lib : TALib) (c : call) (w : World) :
  __name (self (perform lib c w)) = __name (self w)
  ∧ frozen_info <$> __info (self (perform lib c w)) = frozen_info <$> __info (self w)
  ∧ ∀ k,
      (opt_type <$> OD.get k (__opt_inputs (self (perform lib c w)))
       = opt_type <$> OD.get k (__opt_inputs (self w)))
      ∧ (opt_default_value <$> OD.get k (__opt_inputs (self (perform lib c w)))
         = opt_default_value <$> OD.get k (__opt_inputs (self w))).
Proof.
  pose proof (perform_identity lib c w) as Hid. unfold identity in Hid.
  injection Hid as Hname Hinfo Hopt. split; [done|]. split; [done|].
  intros k.
  assert (∀ d : OD.t OptInputInfo,
            OD.get k ((λ kv : string * OptInputInfo, (kv.1, with_value PNone kv.2)) <$> d)
            = with_value PNone <$> OD.get k d) as Hget.
  { induction d as [|[k' v'] d IH]; [done|]. cbn. by case_decide. }
  apply (f_equal (OD.get k)) in Hopt. rewrite !Hget in Hopt.
  destruct (OD.get k (__opt_inputs (self (perform lib c w)))) as [i1|],
           (OD.get k (__opt_inputs (self w))) as [i2|]; try done.
  cbn in *. injection Hopt as _ _ Ht _ Hd. split; by f_equal.
Qed.

(** X11.  When an input slot is bound to something that is not one of
    the five series names (the [None] the slot periods is bound to by
    default, the label volumne of the table of the input flags, any other
    value a caller has bound), the invocation raises while it assembles
    the arguments: the kernel is not called and the world is left as it
    was. *)
Theorem unknown_series_blocks_invocation
    (lib : TALib) (w : World) (k : string) (info : InputInfo) (name : pyval) :
  reachable lib w →
  (k, info) ∈ __input_names (self w) →
  name ∈ roles (in_price_series info) →
  name ∉ (PStr <$> ["open"; "high"; "low"; "close"; "volume"]) →
  ∃ e, call_args (self w) = Raise e ∧ __call_function lib w = (Raise e, w).
Proof.
  intros Hdom%reachable_input_arrays Hslot Hrole Hname.
  assert (∃ e0, dict_getitem (__input_arrays (self w)) name = Raise e0) as [e0 He0].
  { destruct name as [| | |s| | |]; try by eexists.
    cbn. destruct (__input_arrays (self w) !! s) eqn:Hs; [|by eexists].
    exfalso. apply Hname. apply list_elem_of_fmap. exists s. split; [done|].
    assert (s ∈ dom (__input_arrays (self w))) as Hin by (apply elem_of_dom; by eexists).
    rewrite Hdom in Hin. unfold canonical_series in Hin. set_solver. }
  assert (name ∈ input_price_series_names (self w)) as Hin.
  { rewrite input_price_series_names_concat. apply list_elem_of_In, in_concat.
    exists (roles (in_price_series info)). rewrite <- !list_elem_of_In.
    split; [|done]. apply list_elem_of_fmap. exists info. split; [done|].
    unfold OD.values. apply list_elem_of_fmap. by exists (k, info). }
  destruct (mapR_raise _ _ _ _ Hin He0) as [e He].
  exists e. assert (call_args (self w) = Raise e) as Hargs.
  { unfold call_args. by rewrite He. }
  split; [done|]. unfold __call_function.
  by rewrite run_get_self, Hargs, run_lift_raise.
Qed.

(** The facade of AD, whose slot is bound to the label volumne. *)
Lemma unknown_series_blocks_invocation_witness :
  let w := (__init__ Demo.lib "ad" Demo.ohlcv Demo.world0).2 in
  (outputs Demo.lib w).1 = Raise (KeyError (PStr "volumne"))
  ∧ ∃ e, __call_function Demo.lib w = (Raise e, w).
Proof.
  intros w. split; [vm_compute; reflexivity|].
  destruct (unknown_series_blocks_invocation Demo.lib w "prices"
              {| in_name := "prices";
                 in_price_series :=
                   PList [PStr "high"; PStr "low"; PStr "close"; PStr "volumne"] |}
              (PStr "volumne")) as (e & _ & Hcall).
  - apply (reachable_init Demo.lib "ad" Demo.ohlcv Demo.world0). vm_compute. reflexivity.
  - vm_compute. apply list_elem_of_here.
  - cbn. do 3 apply list_elem_of_further. apply list_elem_of_here.
  - intros Hin. cbn in Hin.
    repeat (apply elem_of_cons in Hin as [Hin|Hin]; [discriminate|]).
    by apply elem_of_nil in Hin.
  - by exists e.
Defined.

(** ** Invocation *)

Section Invocation.

Variable lib : TALib.

Lemma keeps_valid_store_results b results :
  keeps (on_self (λ f, __outputs_valid f = b)) (store_results results).
Proof.
  unfold store_results, assign_output.
  repeat keeps_step ltac:(by intros w Hw).
Qed.

Lemma keeps_name_store_results n results :
  keeps (on_self (λ f, __name f = n)) (store_results results).
Proof.
  unfold store_results, assign_output.
  repeat keeps_step ltac:(by intros w Hw).
Qed.

(** An invocation that returns has called the kernel once, under the name
    of the facade and with the arguments assembled, and has marked the
    cache valid. *)
Lemma call_function_returns w w' :
  __call_function lib w = (Ok tt, w') →
  ∃ args,
    call_args (self w) = Ok args
    ∧ kernel_calls w' = kernel_calls w ++ [(__name (self w), args)]
    ∧ __outputs_valid (self w') = true
    ∧ __name (self w') = __name (self w).
Proof.
  unfold __call_function. rewrite run_get_self.
  destruct (call_args (self w)) as [args|] eqn:Hargs; [|done].
  rewrite run_lift_ok. intros (results & w1 & Hkernel & Hrest)%bind_inv.
  apply bind_inv in Hrest as ([] & w2 & Hstore & Hrest).
  rewrite modify_self_eq in Hrest. injection Hrest as <-.
  exists args. split; [done|].
  assert (kernel_calls w1 = kernel_calls w ++ [(__name (self w), args)]
          ∧ self w1 = self w) as [Hlog Hself].
  { revert Hkernel. unfold call_kernel. by intros [= _ <-]. }
  pose proof (keeps_log_store_results _ results w1 eq_refl) as Hlog2.
  pose proof (keeps_name_store_results _ results w1 eq_refl) as Hname2.
  rewrite Hstore in Hlog2, Hname2. unfold has_log, on_self in *. cbn in *.
  by rewrite Hlog2, Hlog, Hname2, Hself.
Qed.

(** An invocation that raises leaves the cache flag as it was. *)
Lemma call_function_raises w e w' :
  __call_function lib w = (Raise e, w') →
  __outputs_valid (self w') = __outputs_valid (self w).
Proof.
  unfold __call_function. rewrite run_get_self.
  destruct (call_args (self w)) as [args|] eqn:Hargs;
    [|rewrite run_lift_raise; by intros [= _ <-]].
  rewrite run_lift_ok. unfold mbind at 1, M_bind.
  destruct (call_kernel lib (__name (self w)) args w) as [[results|] w1] eqn:Hkernel;
    (assert (self w1 = self w) as Hself
       by (revert Hkernel; unfold call_kernel; by intros [= _ <-]));
    [|intros [= _ <-]; by rewrite Hself].
  unfold mbind at 1, M_bind.
  pose proof (keeps_valid_store_results _ results w1 eq_refl) as Hvalid.
  destruct (store_results results w1) as [[[]|] w2]; [done|].
  intros [= _ <-]. unfold on_self in Hvalid. cbn in Hvalid. by rewrite Hvalid, Hself.
Qed.

End Invocation.

(** X12.  A [run] and a [__call__] that return have called the kernel
    exactly once, under the name of the facade, whether the cache was
    valid or not, and leave the cache valid.  A read of [outputs] that
    returns has called it once when the cache was invalid, and has changed
    nothing when it was valid. *)
Theorem kernel_called_once_per_invocation (lib : TALib) (w : World) :
  (∀ input_arrays ret w',
     run lib input_arrays w = (Ok ret, w') →
     __outputs_valid (self w') = true
     ∧ ∃ args, kernel_calls w' = kernel_calls w ++ [(__name (self w), args)])
  ∧ (∀ args kwargs ret w',
       __call__ lib args kwargs w = (Ok ret, w') →
       __outputs_valid (self w') = true
       ∧ ∃ a, kernel_calls w' = kernel_calls w ++ [(__name (self w), a)])
  ∧ (∀ ret w',
       outputs lib w = (Ok ret, w') →
       __outputs_valid (self w') = true
       ∧ if __outputs_valid (self w) then w' = w
         else ∃ a, kernel_calls w' = kernel_calls w ++ [(__name (self w), a)]).
Proof.
  assert (∀ w1 ret w',
            kernel_calls w1 = kernel_calls w → __name (self w1) = __name (self w) →
            (__call_function lib;; outputs lib) w1 = (Ok ret, w') →
            __outputs_valid (self w') = true
            ∧ ∃ a, kernel_calls w' = kernel_calls w ++ [(__name (self w), a)])
    as Hinvoke.
  { intros w1 ret w' Hlog Hname ([] & w2 & Hcall & Hout)%bind_inv.
    apply call_function_returns in Hcall as (a & _ & Hlog2 & Hvalid & _).
    rewrite outputs_cached in Hout by done. injection Hout as _ <-.
    split; [done|]. exists a. by rewrite Hlog2, Hlog, Hname. }
  split_all.
  - intros input_arrays ret w'. unfold run.
    intros (b & w0 & Hb & Hrest)%bind_inv.
    assert (w0 = w) as -> by (revert Hb; unfold lift; by intros [= _ <-]).
    apply bind_inv in Hrest as ([] & w1 & Hset & Hrest).
    apply (Hinvoke w1 ret w'); [| |done].
    + assert (untouched w w1) as [Hlog _]; [|done].
      destruct b; [|by injection Hset as <-].
      pose proof (untouched_set_input_arrays w input_arrays w ltac:(by repeat split))
        as Hw.
      revert Hset. unfold mbind, M_bind.
      destruct (set_input_arrays input_arrays w) as [[?|] ?]; [|done].
      by intros [= <-].
    + destruct b; [|by injection Hset as <-].
      pose proof (stable_set_input_arrays (λ f, __name f = __name (self w))
                    ltac:(done) ltac:(done) input_arrays w eq_refl) as Hw.
      revert Hset. unfold mbind, M_bind.
      destruct (set_input_arrays input_arrays w) as [[?|] ?]; [|done].
      by intros [= <-].
  - intros args kwargs ret w'. unfold __call__.
    intros ([] & w1 & Hset & Hrest)%bind_inv.
    apply (Hinvoke w1 ret w'); [| |done].
    + pose proof (untouched_set_function_args w args kwargs w ltac:(by repeat split))
        as Hw.
      rewrite Hset in Hw. by destruct Hw.
    + pose proof (stable_set_function_args (λ f, __name f = __name (self w))
                    ltac:(done) ltac:(done) ltac:(done) ltac:(done) ltac:(done)
                    args kwargs w eq_refl) as Hw.
      by rewrite Hset in Hw.
  - intros ret w' Hout.
    split; [by apply (outputs_read_twice lib) in Hout as [? _]|].
    destruct (__outputs_valid (self w)) eqn:Hvalid.
    + rewrite outputs_cached in Hout by done. by injection Hout as _ <-.
    + revert Hout. unfold outputs. rewrite run_get_self, Hvalid. cbn [negb].
      intros ([] & w1 & Hcall & Hout)%bind_inv.
      apply call_function_returns in Hcall as (a & _ & Hlog & Hvalid1 & _).
      exists a. rewrite run_get_self in Hout.
      assert (w' = w1) as ->
        by (by destruct (OD.values _) as [|? [|? ?]]; injection Hout).
      done.
Qed.

(** On the facade of SMA, a second [run] calls the kernel a second
    time. *)
Lemma kernel_called_once_per_invocation_witness :
  let w := (__init__ Demo.lib "sma" Demo.ohlcv Demo.world0).2 in
  let w1 := (run Demo.lib PNone w).2 in
  let w2 := (run Demo.lib PNone w1).2 in
  __outputs_valid (self w1) = true
  ∧ kernel_calls w2
    = [("SMA", [Demo.arr 4; PInt 30]); ("SMA", [Demo.arr 4; PInt 30])].
Proof.
  intros w w1 w2.
  assert (∃ ret, run Demo.lib PNone w = (Ok ret, w1)) as [ret1 Hrun1]
    by (vm_compute; by eexists).
  assert (∃ ret, run Demo.lib PNone w1 = (Ok ret, w2)) as [ret2 Hrun2]
    by (vm_compute; by eexists).
  destruct (kernel_called_once_per_invocation Demo.lib w) as (Hfirst & _).
  destruct (kernel_called_once_per_invocation Demo.lib w1) as (Hsecond & _).
  destruct (Hfirst _ _ _ Hrun1) as (Hvalid & _).
  destruct (Hsecond _ _ _ Hrun2) as (_ & a & Hlog).
  split; [exact Hvalid|]. revert Hlog. vm_compute. reflexivity.
Defined.

(** X13.  A read of [outputs] raises only when the cache is invalid and
    the invocation raises; the cache is then still invalid, so that the
    next read invokes again. *)
Theorem failed_read_leaves_cache_invalid (lib : TALib) (w w' : World) (e : exn) :
  outputs lib w = (Raise e, w') →
  __outputs_valid (self w) = false
  ∧ __outputs_valid (self w') = false
  ∧ __call_function lib w = (Raise e, w').
Proof.
  intros Hout.
  destruct (__outputs_valid (self w)) eqn:Hvalid.
  { by rewrite outputs_cached in Hout. }
  split; [done|]. revert Hout. unfold outputs.
  rewrite run_get_self, Hvalid. cbn [negb]. unfold mbind at 1, M_bind.
  destruct (__call_function lib w) as [[[]|e1] w1] eqn:Hcall.
  - rewrite run_get_self. by destruct (OD.values _) as [|? [|? ?]].
  - intros [= <- <-]. split; [|done].
    apply call_function_raises in Hcall. congruence.
Qed.

(** The facade of SMA with no array set: the kernel refuses [None]. *)
Lemma failed_read_leaves_cache_invalid_witness :
  let w := Demo.new "sma" in
  outputs Demo.lib w = (Raise TypeError, (outputs Demo.lib w).2)
  ∧ __outputs_valid (self (outputs Demo.lib w).2) = false
  ∧ kernel_calls (outputs Demo.lib w).2 = [("SMA", [PNone; PInt 30])].
Proof.
  intros w.
  assert (outputs Demo.lib w = (Raise TypeError, (outputs Demo.lib w).2)) as Hout
    by (vm_compute; reflexivity).
  destruct (failed_read_leaves_cache_invalid Demo.lib w _ _ Hout) as (_ & Hvalid & _).
  split; [exact Hout|]. split; [exact Hvalid|]. vm_compute. reflexivity.
Defined.

(** ** Bindings and parameters *)

Section SetInputNames.

Lemma fmap_set {V W} (g : V → W) k v (d : OD.t V) :
  (λ kv : string * V, (kv.1, g kv.2)) <$> OD.set k v d
  = OD.set k (g v) ((λ kv : string * V, (kv.1, g kv.2)) <$> d).
Proof.
  induction d as [|[k' v'] d IH]; [done|].
  cbn. case_decide; [done|]. cbn. by rewrite IH.
Qed.

Lemma input_names_keys f : OD.keys (input_names f) = OD.keys (__input_names f).
Proof.
  unfold input_names, OD.keys. rewrite <- list_fmap_compose. by apply list_fmap_ext.
Qed.

(** The loop of [set_input_names], on names that are all declared. *)
Lemma set_input_names_loop ns : ∀ w,
  Forall (λ kv, kv.1 ∈ OD.keys (__input_names (self w))) ns →
  ∃ d,
    for_each ns (λ '(input_name, price_series),
                   assign_price_series input_name price_series) w
    = (Ok tt, set_self (with_input_names d (self w)) w)
    ∧ (λ kv : string * InputInfo, (kv.1, in_price_series kv.2)) <$> d
      = store_all (input_names (self w)) ns.
Proof.
  induction ns as [|[k v] ns IH]; intros w Hns.
  - exists (__input_names (self w)). split; [|done]. cbn.
    by destruct w as [[] ? ? ?].
  - apply Forall_cons in Hns as [Hk Hns]. cbn [fst] in Hk.
    destruct (assign_price_series_present k v w Hk) as (info & Hget & Hassign).
    destruct (IH (set_self (with_input_names
                            (OD.set k (with_price_series v info) (__input_names (self w)))
                            (self w)) w)) as (d & Hloop & Hd).
    { eapply Forall_impl; [exact Hns|]. intros [k' v'] Hk'.
      cbn [fst self set_self with_input_names __input_names] in *.
      by rewrite ODFacts.keys_set_present. }
    exists d. split.
    + cbn [for_each]. erewrite bind_ok; [|exact Hassign]. rewrite Hloop.
      by destruct w as [[] ? ? ?].
    + rewrite Hd. cbn [store_all foldl fst snd]. unfold store_all. f_equal.
      unfold input_names. cbn. apply fmap_set.
Qed.

End SetInputNames.

(** X14.  Given names that are all input slots, the setter of
    [input_names] returns, and [input_names] then reads as it did with the
    items assigned one after the other, every key at its place; the cache
    is invalid; the info dict, and with it its input names, and the
    parameters are as they were. *)
Theorem set_input_names_rebinds (w : World) (ns : list (string * pyval)) :
  Forall (λ kv, kv.1 ∈ OD.keys (__input_names (self w))) ns →
  ∃ w',
    set_input_names ns w = (Ok tt, w')
    ∧ input_names (self w') = store_all (input_names (self w)) ns
    ∧ OD.keys (input_names (self w')) = OD.keys (input_names (self w))
    ∧ __outputs_valid (self w') = false
    ∧ __info (self w') = __info (self w)
    ∧ parameters (self w') = parameters (self w).
Proof.
  intros Hns. destruct (set_input_names_loop ns w Hns) as (d & Hloop & Hd).
  eexists. split.
  { unfold set_input_names. erewrite bind_ok; [|exact Hloop]. apply modify_self_eq. }
  split; [exact Hd|]. split; [|done].
  rewrite !input_names_keys.
  pose proof (keeps_slots_set_input_names (slots (self w)) ns w eq_refl) as Hs.
  unfold set_input_names in Hs. erewrite bind_ok in Hs; [|exact Hloop].
  rewrite modify_self_eq in Hs. unfold has_slots in Hs. cbn [snd] in Hs.
  exact (slots_input_keys _ _ Hs).
Qed.

(** On the facade of SMA, price is bound to open, and the info dict
    still has close. *)
Lemma set_input_names_rebinds_witness :
  let w := Demo.new "sma" in
  let w' := (set_input_names [("price", PStr "open")] w).2 in
  input_names (self w) = [("price", PStr "close")]
  ∧ input_names (self w') = [("price", PStr "open")]
  ∧ info_input_names <$> __info (self w') = Some [("price", PStr "close")].
Proof.
  intros w w'.
  destruct (set_input_names_rebinds w [("price", PStr "open")]) as (w1 & Hset & Hnames & _ & _ & Hinfo & _).
  { repeat constructor. }
  subst w'. rewrite Hset. cbn [snd]. rewrite Hnames, Hinfo.
  split; [vm_compute; reflexivity|]. split; vm_compute; reflexivity.
Defined.

Section SetParameters.

(** Without a repeated key, the parameters are read slot by slot. *)
Lemma parameters_items f :
  NoDup (OD.keys (__opt_inputs f)) →
  parameters f
  = mapR (λ kv : string * OptInputInfo, v ← slot_value kv.2; Ok (kv.1, v))
         (__opt_inputs f).
Proof.
  intros Hnodup. unfold parameters, OD.keys. rewrite mapR_fmap.
  apply mapR_ext_in. intros [k info] Hin. cbn.
  apply list_elem_of_split in Hin as (d1 & d2 & Hd).
  unfold __get_opt_input_value, OD.getitem, slot_value.
  rewrite Hd, ODFacts.get_item.
  - cbn. destruct (truthy (opt_value info)) as [[]|]; done.
  - rewrite Hd in Hnodup. unfold OD.keys in *. rewrite fmap_app in Hnodup.
    apply NoDup_app in Hnodup as (_ & Hnot & _). intros Hk. apply (Hnot k Hk).
    cbn. set_solver.
Qed.

(** Reading the items of a dict after an assignment is assigning to the
    items read. *)
Lemma mapR_set {V W} (g : string * V → result (string * W)) k x v (d : OD.t V) old :
  (∀ kv r, g kv = Ok r → r.1 = kv.1) →
  mapR g d = Ok old → g (k, x) = Ok (k, v) →
  mapR g (OD.set k x d) = Ok (OD.set k v old).
Proof.
  intros Hkeys Hold Hx. revert old Hold.
  induction d as [|[k' v'] d IH]; intros old Hold; cbn in *.
  - injection Hold as <-. by rewrite Hx.
  - destruct (g (k', v')) as [r|] eqn:Hr; cbn in Hold; [|done].
    destruct (mapR g d) as [rs|] eqn:Hrs; cbn in Hold; [|done].
    injection Hold as <-. pose proof (Hkeys _ _ Hr) as Hk'. destruct r as [k'' w'].
    cbn in Hk'. subst k''. cbn. case_decide as Hk.
    + subst k'. cbn. by rewrite Hx, Hrs.
    + cbn. rewrite Hr. cbn. by rewrite (IH rs eq_refl).
Qed.

Lemma slot_value_set v info :
  truthy v = Ok true → slot_value (with_value v info) = Ok v.
Proof. intros Hv. unfold slot_value. cbn. by rewrite Hv. Qed.

(** The loop of [set_parameters], on declared names and values that
    Python takes for true. *)
Lemma set_parameters_loop ps : ∀ w old,
  NoDup (OD.keys (__opt_inputs (self w))) →
  Forall (λ kv, kv.1 ∈ OD.keys (__opt_inputs (self w)) ∧ truthy kv.2 = Ok true) ps →
  parameters (self w) = Ok old →
  ∃ d,
    for_each ps (λ '(param, value), assign_value param value) w
    = (Ok tt, set_self (with_opt_inputs d (self w)) w)
    ∧ parameters (with_opt_inputs d (self w)) = Ok (store_all old ps).
Proof.
  induction ps as [|[k v] ps IH]; intros w old Hnodup Hps Hold.
  - exists (__opt_inputs (self w)). cbn.
    assert (with_opt_inputs (__opt_inputs (self w)) (self w) = self w) as ->
      by (by destruct (self w)).
    split; [by rewrite set_self_self|done].
  - apply Forall_cons in Hps as [[Hk Hv] Hps]. cbn [fst snd] in Hk, Hv.
    destruct (assign_value_present k v w Hk) as (info & Hget & Hassign).
    set (d1 := OD.set k (with_value v info) (__opt_inputs (self w))) in *.
    assert (OD.keys d1 = OD.keys (__opt_inputs (self w))) as Hkeys
      by (by apply ODFacts.keys_set_present).
    destruct (IH (set_self (with_opt_inputs d1 (self w)) w) (OD.set k v old))
      as (d & Hloop & Hd).
    + cbn [self set_self with_opt_inputs __opt_inputs]. by rewrite Hkeys.
    + cbn [self set_self with_opt_inputs __opt_inputs]. rewrite Hkeys. exact Hps.
    + cbn [self set_self].
      rewrite parameters_items
        by (cbn [with_opt_inputs __opt_inputs]; by rewrite Hkeys).
      cbn [with_opt_inputs __opt_inputs]. apply mapR_set.
      * intros [k' i'] r. cbn. destruct (slot_value i'); cbn; [|done].
        by intros [= <-].
      * by rewrite <- parameters_items.
      * cbn. by rewrite slot_value_set.
    + exists d. split.
      * cbn [for_each]. erewrite bind_ok; [|exact Hassign]. rewrite Hloop.
        by destruct w as [[] ? ? ?].
      * revert Hd. cbn. by destruct (self w).
Qed.

End SetParameters.

(** X15.  On any facade, given optional parameters that are all
    declared, with values Python takes for true, the setter of
    [parameters] returns, and [parameters] then reads as it did with the
    items assigned one after the other; the parameters of the info dict
    are the same; the cache is invalid and the input names are as they
    were. *)
Theorem set_parameters_reads_back
    (lib : TALib) (w : World) (ps old : list (string * pyval)) :
  reachable lib w →
  Forall (λ kv, kv.1 ∈ OD.keys (__opt_inputs (self w)) ∧ truthy kv.2 = Ok true) ps →
  parameters (self w) = Ok old →
  ∃ w',
    set_parameters ps w = (Ok tt, w')
    ∧ parameters (self w') = Ok (store_all old ps)
    ∧ info_parameters <$> __info (self w') = Some (store_all old ps)
    ∧ __outputs_valid (self w') = false
    ∧ input_names (self w') = input_names (self w).
Proof.
  intros Hreach Hps Hold.
  destruct (reachable_NoDup lib w Hreach) as (_ & Hnodup & _).
  destruct (set_parameters_loop ps w old Hnodup Hps Hold) as (d & Hloop & Hd).
  destruct (reachable_info lib w Hreach) as [i Hi].
  eexists. split.
  { unfold set_parameters. erewrite bind_ok; [|exact Hloop].
    rewrite run_modify_self. unfold update_info_parameters.
    rewrite run_get_self. cbn [self set_self].
    erewrite (parameters_ext _ (with_opt_inputs d (self w))) by done.
    rewrite Hd, run_lift_ok. apply modify_self_eq. }
  cbn [self set_self]. split_all.
  - rewrite <- Hd. by apply parameters_ext.
  - unfold set_info_parameters. cbn. by rewrite Hi.
  - unfold set_info_parameters. cbn. by destruct (__info (self w)).
  - done.
Qed.

(** On the facade of BBANDS, nbdevup is set to 3. *)
Lemma set_parameters_reads_back_witness :
  let w := Demo.new "bbands" in
  parameters (self (set_parameters [("nbdevup", PInt 3)] w).2)
  = Ok [("timeperiod", PInt 5); ("nbdevup", PInt 3); ("nbdevdn", PInt 2);
        ("matype", PInt 0)].
Proof.
  intros w.
  destruct (set_parameters_reads_back Demo.lib w [("nbdevup", PInt 3)]
              [("timeperiod", PInt 5); ("nbdevup", PInt 2); ("nbdevdn", PInt 2);
               ("matype", PInt 0)])
    as (w' & Hset & Hparams & _).
  - apply (reachable_init Demo.lib "bbands" PNone Demo.world0). vm_compute. reflexivity.
  - repeat constructor.
  - vm_compute. reflexivity.
  - rewrite Hset. cbn [snd]. rewrite Hparams. vm_compute. reflexivity.
Defined.

Section Positional.

Lemma set_input_arrays_result v w :
  set_input_arrays v w
  = (Ok (accepted v),
     if accepted v
     then set_self (with_outputs_valid false
                      (with_input_arrays (match v with PDict d => d | _ => ∅ end)
                                         (self w))) w
     else w).
Proof.
  destruct v as [| | | | | |d]; try done. unfold accepted.
  case_bool_decide as Hdom.
  - by apply set_input_arrays_accepted.
  - apply set_input_arrays_refused. by intros ? [= <-].
Qed.

(** The loop of [set_function_args] over the optional parameters gives
    each one the positional argument at its index, when there is one. *)
Lemma positional_loop (args : list pyval) (skip : nat) (l : list (nat * string)) :
  ∀ u w,
  NoDup l.*2 →
  Forall (λ ik, ik.2 ∈ OD.keys (__opt_inputs (self w))) l →
  ∃ u' d,
    for_each_acc l
      (λ update_info '(i, param_name),
         match args !! (i + skip)%nat with
         | Some value => assign_value param_name value;; mret true
         | None => mret update_info
         end) u w
    = (Ok u', set_self (with_opt_inputs d (self w)) w)
    ∧ OD.keys d = OD.keys (__opt_inputs (self w))
    ∧ (∀ i k, (i, k) ∈ l →
         opt_value <$> OD.get k d
         = match args !! (i + skip)%nat with
           | Some value => Some value
           | None => opt_value <$> OD.get k (__opt_inputs (self w))
           end)
    ∧ (∀ k, k ∉ l.*2 → OD.get k d = OD.get k (__opt_inputs (self w))).
Proof.
  induction l as [|[i k] l IH]; intros u w Hnodup Hl.
  - exists u, (__opt_inputs (self w)). split_all; try done.
    + cbn. by destruct w as [[] ? ? ?].
    + by intros i k ?%elem_of_nil.
  - cbn in Hnodup. apply NoDup_cons in Hnodup as [Hk Hnodup].
    apply Forall_cons in Hl as [Hin Hl]. cbn [snd] in Hin.
    cbn [for_each_acc]. destruct (args !! (i + skip)%nat) as [value|] eqn:Harg.
    + destruct (assign_value_present k value w Hin) as (info & Hget & Hassign).
      set (d1 := OD.set k (with_value value info) (__opt_inputs (self w))) in *.
      assert (OD.keys d1 = OD.keys (__opt_inputs (self w))) as Hkeys
        by (by apply ODFacts.keys_set_present).
      destruct (IH true (set_self (with_opt_inputs d1 (self w)) w) Hnodup)
        as (u' & d & Hloop & Hkeys' & Hset & Hrest).
      { cbn [self set_self with_opt_inputs __opt_inputs]. by rewrite Hkeys. }
      cbn [self set_self with_opt_inputs __opt_inputs] in *.
      exists u', d. split_all.
      * erewrite bind_ok; [|erewrite bind_ok; [reflexivity|exact Hassign]].
        rewrite Hloop. by destruct w as [[] ? ? ?].
      * congruence.
      * intros i' k' [[= -> ->]|Hin']%elem_of_cons.
        -- rewrite Harg, (Hrest k Hk). subst d1. by rewrite ODFacts.get_set_eq.
        -- rewrite (Hset _ _ Hin'). destruct (args !! (i' + skip)%nat); [done|].
           subst d1. rewrite ODFacts.get_set_ne; [done|].
           intros ->. apply Hk. apply list_elem_of_fmap. by exists (i', k).
      * intros k' Hk'. rewrite Hrest by set_solver.
        subst d1. rewrite ODFacts.get_set_ne; [done|]. set_solver.
    + destruct (IH u w Hnodup Hl) as (u' & d & Hloop & Hkeys' & Hset & Hrest).
      exists u', d. split_all; try done.
      * intros i' k' [[= -> ->]|Hin']%elem_of_cons.
        -- by rewrite Harg, (Hrest k Hk).
        -- by apply Hset.
      * intros k' Hk'. apply Hrest. set_solver.
Qed.

Lemma elem_of_enumerate_lookup {A} (l : list A) i x :
  (i, x) ∈ enumerate l ↔ l !! i = Some x.
Proof.
  unfold enumerate. rewrite list_elem_of_lookup. split.
  - intros (j & Hj). apply lookup_zip_with_Some in Hj as (i' & x' & [= -> ->] & Hi & Hx).
    apply lookup_seq in Hi as [-> _]. done.
  - intros Hx. exists i. apply lookup_zip_with_Some. exists i, x.
    split; [done|]. split; [|done]. apply lookup_seq. split; [done|].
    by apply lookup_lt_Some in Hx.
Qed.

Lemma enumerate_snd {A} (l : list A) : (enumerate l).*2 = l.
Proof. unfold enumerate. apply snd_zip. by rewrite length_seq. Qed.

Lemma keeps_opt_inputs_update_info d :
  keeps (on_self (λ f, __opt_inputs f = d)) update_info_parameters.
Proof.
  unfold update_info_parameters.
  repeat keeps_step ltac:(intros w Hw; exact Hw).
Qed.

End Positional.

(** X16.  The positional arguments of [set_function_args] are values for
    the optional parameters in the order of their declaration, from the
    first argument on, or from the second when [set_input_arrays] takes
    the first (which it does exactly for a dict of the five series): the
    parameter of index [i] gets the argument of index [i], or [i + 1], when
    there is one, and keeps its value otherwise.  Arguments beyond the last
    parameter are not read. *)
Theorem positional_arguments_by_declaration_order
    (lib : TALib) (w : World) (args : list pyval) (i : nat) (k : string) :
  reachable lib w →
  OD.keys (__opt_inputs (self w)) !! i = Some k →
  (∀ arg0, (set_input_arrays arg0 w).1 = Ok (accepted arg0))
  ∧ opt_value <$> OD.get k (__opt_inputs (self (set_function_args args [] w).2))
    = match args !! (i + skip_first args)%nat with
      | Some value => Some value
      | None => opt_value <$> OD.get k (__opt_inputs (self w))
      end.
Proof.
  intros Hreach Hk.
  split; [intros arg0; by rewrite set_input_arrays_result|].
  destruct (reachable_NoDup lib w Hreach) as (_ & Hnodup & _).
  rewrite set_function_args_unfold.
  destruct args as [|arg0 args].
  { cbn. by destruct (OD.get k _). }
  set (w1 := if accepted arg0
             then set_self (with_outputs_valid false
                     (with_input_arrays (match arg0 with PDict d => d | _ => ∅ end)
                                        (self w))) w
             else w).
  assert (__opt_inputs (self w1) = __opt_inputs (self w)) as Hopt
    by (unfold w1; by destruct (accepted arg0)).
  destruct (positional_loop (arg0 :: args) (if accepted arg0 then 1 else 0)%nat
              (enumerate (OD.keys (__opt_inputs (self w1)))) false w1)
    as (u' & d & Hloop & Hkeys & Hset & _).
  { rewrite enumerate_snd. by rewrite Hopt. }
  { apply Forall_forall. intros [j k'] Hin. by apply elem_of_enumerate in Hin. }
  assert (positional_args (arg0 :: args) w
          = (Ok u', set_self (with_opt_inputs d (self w1)) w1)) as Hpositional.
  { unfold positional_args. erewrite bind_ok; [|apply set_input_arrays_result].
    fold w1. rewrite run_get_self. exact Hloop. }
  erewrite bind_ok; [|exact Hpositional]. cbn [for_each_acc]. rewrite run_ret.
  rewrite Hopt in Hset.
  specialize (Hset i k (proj2 (elem_of_enumerate_lookup _ _ _) Hk)).
  unfold skip_first. rewrite <- Hset. f_equal. f_equal.
  lazymatch goal with
  | |- __opt_inputs (self (?m ?w2).2) = d =>
      enough (keeps (on_self (λ f, __opt_inputs f = d)) m) as Hkeeps
        by (by apply Hkeeps)
  end.
  repeat keeps_step ltac:(first
    [ apply keeps_opt_inputs_update_info | intros ? Hw; exact Hw ]).
Qed.

(** On the facade of BBANDS: with the five series first, the next two
    arguments are timeperiod and nbdevup; without, the first two are, and
    a fifth argument is not read. *)
Lemma positional_arguments_by_declaration_order_witness :
  let w := Demo.new "bbands" in
  let with_arrays := (set_function_args [Demo.ohlcv; PInt 10; PInt 3] [] w).2 in
  let without := (set_function_args [PInt 10; PInt 3; PInt 4; PInt 1; PInt 9] [] w).2 in
  opt_value <$> OD.get "nbdevup" (__opt_inputs (self with_arrays)) = Some (PInt 3)
  ∧ opt_value <$> OD.get "nbdevdn" (__opt_inputs (self with_arrays)) = Some PNone
  ∧ opt_value <$> OD.get "nbdevup" (__opt_inputs (self without)) = Some (PInt 3)
  ∧ (set_function_args [PInt 10; PInt 3; PInt 4; PInt 1; PInt 9] [] w).1 = Ok tt.
Proof.
  intros w with_arrays without.
  assert (reachable Demo.lib w) as Hreach.
  { apply (reachable_init Demo.lib "bbands" PNone Demo.world0). vm_compute. reflexivity. }
  split_all.
  - unfold with_arrays.
    rewrite (proj2 (positional_arguments_by_declaration_order
                      Demo.lib w _ 1 "nbdevup" Hreach eq_refl)).
    vm_compute. reflexivity.
  - unfold with_arrays.
    rewrite (proj2 (positional_arguments_by_declaration_order
                      Demo.lib w _ 2 "nbdevdn" Hreach eq_refl)).
    vm_compute. reflexivity.
  - unfold without.
    rewrite (proj2 (positional_arguments_by_declaration_order
                      Demo.lib w _ 1 "nbdevup" Hreach eq_refl)).
    vm_compute. reflexivity.
  - vm_compute. reflexivity.
Defined.

(** ** The lookback window *)

Section Lookback.

Variable lib : TALib.




End Lookback.




(** ** The default of an optional parameter *)

(** X19.  When the library answers, the query of an optional parameter
    returns: the name is the raw name without its first five characters,
    in lower case; the type is the one of the library; no value is set;
    the default is the number of the library, as an [int] exactly when
    that number is whole. *)
Theorem opt_input_default_published
    (lib : TALib) (function_name : string) (idx : nat) :
  let handle := TA_GetFuncHandle lib function_name in
  let native := TA_GetOptInputParameterInfo lib handle.2 idx in
  handle.1 = TA_SUCCESS → native.1 = TA_SUCCESS →
  ∃ info,
    _ta_getOptInputParameterInfo lib function_name idx = Ok info
    ∧ opt_name info = PyStr.lower (PyStr.slice_from 5 (oip_paramName native.2))
    ∧ opt_type info = oip_type native.2
    ∧ opt_value info = PNone
    ∧ (∃ q, number_value (opt_default_value info) = Some q
            ∧ (q == oip_defaultValue native.2)%Q)
    ∧ ((∃ z, opt_default_value info = PInt z)
       ↔ ∃ z, (oip_defaultValue native.2 == inject_Z z)%Q).
Proof.
  intros handle native Hhandle Hnative. subst handle native.
  unfold _ta_getOptInputParameterInfo.
  rewrite getFuncHandle_success by done. cbn [mbind result_bind].
  destruct (TA_GetOptInputParameterInfo lib _ idx) as [rc raw]. cbn [fst snd] in *.
  subst rc. rewrite check_success_ok. cbn [mbind result_bind].
  eexists. split; [done|]. cbn [opt_name opt_type opt_value opt_default_value].
  split; [done|]. split; [done|]. split; [done|].
  destruct (oip_defaultValue raw) as [n d].
  cbn [Qnum Qden]. destruct (Z.eqb_spec (n mod Z.pos d) 0) as [Hmod|Hmod].
  - assert (n = Z.pos d * (n / Z.pos d)) as Hdiv by (apply Z_div_exact_full_2; lia).
    split.
    + exists (inject_Z (n / Z.pos d)). split; [done|].
      unfold Qeq. cbn. lia.
    + split; [|by eexists]. intros _. exists (n / Z.pos d).
      unfold Qeq. cbn. lia.
  - split.
    + by exists (n # d).
    + split; [by intros [z Hz]|]. intros [z Hz]. exfalso. apply Hmod.
      unfold Qeq in Hz. cbn in Hz. rewrite Z.mul_1_r in Hz. subst n.
      apply Z_mod_mult.
Qed.

(** The second parameter of STDDEV. *)
Lemma opt_input_default_published_witness :
  ∃ info,
    _ta_getOptInputParameterInfo Demo.lib "STDDEV" 1 = Ok info
    ∧ opt_name info = "nbdev"
    ∧ opt_default_value info = PInt 1.
Proof.
  destruct (opt_input_default_published Demo.lib "STDDEV" 1)
    as (info & Hinfo & Hname & _); [vm_compute; reflexivity..|].
  exists info. split; [exact Hinfo|]. split; [rewrite Hname; vm_compute; reflexivity|].
  revert Hinfo. vm_compute. by intros [= <-].
Defined.

(** ** The documentation *)

Section DocumentationFacts.

Variable py_str : pyval → string.
Variable MA_Type : pyval → result string.

Lemma docs_input_ok input_names docs k :
  k ∈ OD.keys input_names → ∃ docs', docs_input py_str input_names docs k = Ok docs'.
Proof.
  intros Hk. unfold docs_input.
  destruct (ODFacts.getitem_present k input_names Hk) as (v & -> & _). by eexists.
Qed.

Lemma foldlR_docs_input input_names : ∀ keys docs,
  keys ⊆ OD.keys input_names →
  ∃ docs', foldlR (docs_input py_str input_names) docs keys = Ok docs'.
Proof.
  induction keys as [|k keys IH]; intros docs Hkeys; [by eexists|].
  cbn [foldlR].
  destruct (docs_input_ok input_names docs k) as [docs' ->]; [set_solver|].
  cbn [mbind result_bind]. apply IH. set_solver.
Qed.

(** A step of the loop over the parameters returns, unless the parameter
    is matype and its value has no name; it records the value under the
    parameter. *)
Lemma docs_param_ok params defaults func_args docs k :
  k ∈ OD.keys params →
  (∀ v, OD.get "matype" params = Some v → ∃ name, MA_Type v = Ok name) →
  ∃ v func_args' docs',
    OD.get k params = Some v
    ∧ docs_param py_str MA_Type params (defaults, func_args, docs) k
      = Ok (<[k:=v]> defaults, func_args', docs').
Proof.
  intros Hk Hma. unfold docs_param.
  destruct (ODFacts.getitem_present k params Hk) as (v & -> & Hget).
  cbn [mbind result_bind]. exists v.
  case_decide as Hmatype.
  - subst k. destruct (Hma v Hget) as [name ->]. cbn [mbind result_bind].
    rewrite last_snoc. cbn [mbind result_bind]. by eexists _, _.
  - cbn [mbind result_bind]. by eexists _, _.
Qed.

Lemma foldlR_docs_param params : ∀ keys defaults func_args docs,
  keys ⊆ OD.keys params →
  (∀ v, OD.get "matype" params = Some v → ∃ name, MA_Type v = Ok name) →
  ∃ defaults' func_args' docs',
    foldlR (docs_param py_str MA_Type params) (defaults, func_args, docs) keys
    = Ok (defaults', func_args', docs')
    ∧ ∀ k, defaults' !! k
           = if decide (k ∈ keys) then OD.get k params else defaults !! k.
Proof.
  induction keys as [|k keys IH]; intros defaults func_args docs Hkeys Hma.
  - eexists _, _, _. split; [done|]. intros k. by rewrite decide_False by set_solver.
  - cbn [foldlR].
    destruct (docs_param_ok params defaults func_args docs k)
      as (v & func_args1 & docs1 & Hget & ->); [set_solver|done|].
    cbn [mbind result_bind].
    destruct (IH (<[k:=v]> defaults) func_args1 docs1)
      as (defaults' & func_args' & docs'' & -> & Hdefaults); [set_solver|done|].
    eexists _, _, _. split; [done|]. intros k'. rewrite Hdefaults.
    destruct (decide (k' = k)) as [->|Hne].
    + rewrite (decide_True (P := k ∈ k :: keys)) by set_solver.
      rewrite lookup_insert_eq. by case_decide.
    + rewrite lookup_insert_ne by done.
      destruct (decide (k' ∈ keys)); [by rewrite decide_True by set_solver|].
      by rewrite decide_False by set_solver.
Qed.

Lemma keeps_info_set_input_names i ns :
  keeps (on_self (λ f, __info f = i)) (set_input_names ns).
Proof.
  unfold set_input_names, assign_price_series.
  repeat keeps_step ltac:(intros w Hw; exact Hw).
Qed.

Lemma info_from_parts (i1 i2 : option InfoDict) :
  frozen_info <$> i1 = frozen_info <$> i2 →
  info_parameters <$> i1 = info_parameters <$> i2 →
  i1 = i2.
Proof.
  destruct i1 as [[]|], i2 as [[]|]; cbn; try done.
  unfold frozen_info. cbn. by intros [= -> -> -> -> -> ->] [= ->].
Qed.

End DocumentationFacts.

(** X20.  [_get_defaults_and_docs] raises nothing on an info dict,
    unless it has a parameter matype whose value [talib.MA_Type] has no
    name for; the defaults it returns are the parameters of the info dict,
    key by key. *)
Theorem defaults_and_docs_returns
    (py_str : pyval → string) (MA_Type : pyval → result string) (func_info : InfoDict) :
  (∀ v, OD.get "matype" (info_parameters func_info) = Some v →
        ∃ name, MA_Type v = Ok name) →
  ∃ defaults documentation,
    _get_defaults_and_docs py_str MA_Type (Some func_info)
    = Ok (defaults, documentation)
    ∧ ∀ k, defaults !! k = OD.get k (info_parameters func_info).
Proof.
  intros Hma. unfold _get_defaults_and_docs.
  lazymatch goal with
  | |- context [foldlR (docs_input _ ?names) ?docs ?keys] =>
      destruct (foldlR_docs_input py_str names keys docs) as [docs1 ->]; [done|]
  end.
  cbn [mbind result_bind].
  lazymatch goal with
  | |- context [foldlR (docs_param _ _ ?params) (?d, ?a, ?docs) ?keys] =>
      destruct (foldlR_docs_param py_str MA_Type params keys d a docs)
        as (defaults & func_args & docs2 & -> & Hdefaults); [done|done|]
  end.
  cbn [mbind result_bind]. eexists _, _. split; [done|].
  intros k. rewrite Hdefaults, lookup_empty. case_decide as Hk; [done|].
  destruct (OD.get k (info_parameters func_info)) eqn:Hget; [|done].
  destruct Hk. apply ODFacts.get_is_Some. by eexists.
Qed.

(** The info dict of the facade of BBANDS, whose matype is 0. *)
Lemma defaults_and_docs_returns_witness :
  ∃ defaults documentation,
    _get_defaults_and_docs DemoHelp.str DemoHelp.MA_Type
      (__info (self (Demo.new "bbands")))
    = Ok (defaults, documentation)
    ∧ defaults !! "nbdevup" = Some (PInt 2)
    ∧ defaults !! "nosuch" = None.
Proof.
  assert (∃ i, __info (self (Demo.new "bbands")) = Some i
               ∧ info_parameters i
                 = [("timeperiod", PInt 5); ("nbdevup", PInt 2); ("nbdevdn", PInt 2);
                    ("matype", PInt 0)]) as (i & -> & Hparams)
    by (vm_compute; by eexists).
  destruct (defaults_and_docs_returns DemoHelp.str DemoHelp.MA_Type i)
    as (defaults & documentation & Hdocs & Hdefaults).
  { rewrite Hparams. intros v [= <-]. by eexists. }
  exists defaults, documentation. split; [exact Hdocs|].
  rewrite !Hdefaults, Hparams. split; reflexivity.
Defined.

(** X21.  What [print_help] prints changes with a call only when the
    call changes the parameters of the info dict: the setter of
    [input_names] never changes it, so the text shows the inputs as they
    were bound at the construction. *)
Theorem print_help_follows_info
    (py_str : pyval → string) (MA_Type : pyval → result string)
    (lib : TALib) (w : World) :
  (∀ c,
     info_parameters <$> __info (self (perform lib c w))
     = info_parameters <$> __info (self w) →
     print_help py_str MA_Type (self (perform lib c w))
     = print_help py_str MA_Type (self w))
  ∧ (∀ input_names,
       print_help py_str MA_Type (self (set_input_names input_names w).2)
       = print_help py_str MA_Type (self w)).
Proof.
  split.
  - intros c Hparams. unfold print_help. f_equal. f_equal.
    apply info_from_parts; [|done].
    pose proof (perform_identity lib c w) as Hid. by injection Hid as _ Hinfo _.
  - intros ns. unfold print_help.
    by rewrite (keeps_info_set_input_names (__info (self w)) ns w eq_refl).
Qed.

(** ** The tables of names *)

Section Tables.

Lemma foldl_snoc_map {A B} (g : A → B) (l : list A) : ∀ acc,
  foldl (λ acc x, acc ++ [g x]) acc l = acc ++ (g <$> l).
Proof.
  induction l as [|x l IH]; intros acc; cbn; [by rewrite app_nil_r|].
  by rewrite IH, <- app_assoc.
Qed.

Lemma getGroupTable_read lib :
  _ta_getGroupTable lib
  = read_table "TA_GroupTableAlloc" (TA_GroupTableAlloc lib)
               "TA_GroupTableFree" (TA_GroupTableFree lib).
Proof. reflexivity. Qed.

Lemma getFuncTable_read lib group :
  _ta_getFuncTable lib group
  = read_table "TA_FuncTableAlloc" (TA_FuncTableAlloc lib group)
               "TA_FuncTableFree" (TA_FuncTableFree lib).
Proof. reflexivity. Qed.

Lemma read_table_spec alloc_name alloc free_name free h :
  tables h !! next_table h = None →
  let t := alloc.2 in
  let r := read_table alloc_name alloc free_name free h in
  (alloc.1 ≠ TA_SUCCESS →
     r = (Raise (NativeCallError alloc_name alloc.1), h))
  ∧ (alloc.1 = TA_SUCCESS → free (Some t) ≠ TA_SUCCESS →
     r.1 = Raise (NativeCallError free_name (free (Some t)))
     ∧ tables r.2 = <[next_table h := t]> (tables h))
  ∧ (alloc.1 = TA_SUCCESS → free (Some t) = TA_SUCCESS →
     r.1 = Ok (st_string t <$> seq 0 (st_size t))
     ∧ tables r.2 = tables h).
Proof.
  intros Hfresh. destruct alloc as [rc t]. cbn [fst snd]. unfold read_table.
  split_all.
  - intros Hrc%Z.eqb_neq. unfold _ta_check_success. by rewrite Hrc.
  - intros -> Hfree%Z.eqb_neq. cbn. rewrite lookup_insert_eq.
    unfold _ta_check_success. by rewrite Hfree.
  - intros -> Hfree. cbn. rewrite lookup_insert_eq, Hfree. cbn.
    rewrite foldl_snoc_map. split; [done|]. by apply delete_insert_id.
Qed.

End Tables.

(** X22.  [_ta_getGroupTable] and [_ta_getFuncTable] return the strings
    of the native table, in the order of the table, and have then released
    the table they allocated.  They raise only the error of the allocation,
    with nothing allocated, or the error of the release, and the table is
    then still allocated. *)
Theorem string_tables_released (lib : TATables) (group : string) (h : TableHeap) :
  tables h !! next_table h = None →
  (∀ groups h',
     _ta_getGroupTable lib h = (Ok groups, h') →
     groups = st_string (TA_GroupTableAlloc lib).2
                <$> seq 0 (st_size (TA_GroupTableAlloc lib).2)
     ∧ tables h' = tables h)
  ∧ (∀ functions h',
       _ta_getFuncTable lib group h = (Ok functions, h') →
       functions = st_string (TA_FuncTableAlloc lib group).2
                     <$> seq 0 (st_size (TA_FuncTableAlloc lib group).2)
       ∧ tables h' = tables h)
  ∧ (∀ e h',
       _ta_getGroupTable lib h = (Raise e, h') →
       (e = NativeCallError "TA_GroupTableAlloc" (TA_GroupTableAlloc lib).1
        ∧ h' = h)
       ∨ (∃ rc, e = NativeCallError "TA_GroupTableFree" rc
                ∧ tables h' = <[next_table h := (TA_GroupTableAlloc lib).2]> (tables h)))
  ∧ (∀ e h',
       _ta_getFuncTable lib group h = (Raise e, h') →
       (e = NativeCallError "TA_FuncTableAlloc" (TA_FuncTableAlloc lib group).1
        ∧ h' = h)
       ∨ (∃ rc, e = NativeCallError "TA_FuncTableFree" rc
                ∧ tables h' = <[next_table h := (TA_FuncTableAlloc lib group).2]> (tables h))).
Proof.
  intros Hfresh.
  assert (∀ alloc_name alloc free_name free,
            let r := read_table alloc_name alloc free_name free h in
            (∀ l h', r = (Ok l, h') →
               l = st_string alloc.2 <$> seq 0 (st_size alloc.2) ∧ tables h' = tables h)
            ∧ (∀ e h', r = (Raise e, h') →
                 (e = NativeCallError alloc_name alloc.1 ∧ h' = h)
                 ∨ (∃ rc, e = NativeCallError free_name rc
                          ∧ tables h' = <[next_table h := alloc.2]> (tables h))))
    as Hread.
  { intros alloc_name alloc free_name free r.
    destruct (read_table_spec alloc_name alloc free_name free h Hfresh)
      as (Halloc & Hfree & Hok). fold r in Halloc, Hfree, Hok.
    destruct (decide (alloc.1 = TA_SUCCESS)) as [Ha|Ha];
      [destruct (decide (free (Some alloc.2) = TA_SUCCESS)) as [Hf|Hf]|].
    - destruct (Hok Ha Hf) as [Hr Ht]. split.
      + intros l h' Heq. rewrite Heq in Hr, Ht. cbn in *. by injection Hr as <-.
      + intros e h' Heq. rewrite Heq in Hr. done.
    - destruct (Hfree Ha Hf) as [Hr Ht]. split.
      + intros l h' Heq. rewrite Heq in Hr. done.
      + intros e h' Heq. rewrite Heq in Hr, Ht. cbn in *. injection Hr as ->.
        right. by eexists.
    - rewrite (Halloc Ha). split; [done|]. intros e h' [= <- <-]. by left. }
  split_all.
  - rewrite getGroupTable_read.
    apply (Hread "TA_GroupTableAlloc" _ "TA_GroupTableFree").
  - rewrite getFuncTable_read.
    apply (Hread "TA_FuncTableAlloc" (TA_FuncTableAlloc lib group) "TA_FuncTableFree").
  - rewrite getGroupTable_read.
    apply (Hread "TA_GroupTableAlloc" _ "TA_GroupTableFree").
  - rewrite getFuncTable_read.
    apply (Hread "TA_FuncTableAlloc" (TA_FuncTableAlloc lib group) "TA_FuncTableFree").
Qed.

(** The two groups of the small table, and the functions of the first. *)
Lemma string_tables_released_witness :
  (_ta_getGroupTable DemoHelp.tables_lib DemoHelp.no_tables).1
  = Ok ["Overlap Studies"; "Statistic Functions"]
  ∧ tables (_ta_getGroupTable DemoHelp.tables_lib DemoHelp.no_tables).2 = ∅
  ∧ (_ta_getFuncTable DemoHelp.tables_lib "Overlap Studies" DemoHelp.no_tables).1
    = Ok ["BBANDS"; "SMA"; "STOCH"].
Proof.
  destruct (string_tables_released DemoHelp.tables_lib "Overlap Studies"
              DemoHelp.no_tables eq_refl) as (Hgroups & Hfunctions & _).
  destruct (_ta_getGroupTable DemoHelp.tables_lib DemoHelp.no_tables)
    as [[groups|e] h1] eqn:Hg; [|by vm_compute in Hg].
  destruct (_ta_getFuncTable DemoHelp.tables_lib "Overlap Studies" DemoHelp.no_tables)
    as [[functions|e] h2] eqn:Hf; [|by vm_compute in Hf].
  cbn [fst snd].
  destruct (Hgroups _ _ eq_refl) as [-> ->].
  destruct (Hfunctions _ _ eq_refl) as [-> _].
  split_all; vm_compute; reflexivity.
Defined.
